(** * DCS Olympus client: unit state and the units manager

    A shallow embedding of the unit record ([Unit], its [setData],
    [setSelected] and [updateVisibility]) and of the reconciliation
    engine ([UnitsManager.update] and the hotgroup selection), with the
    properties of the state-synchronisation core stated over them. *)

From stdpp Require Import gmap strings list fin_maps sorting pretty.
From Stdlib Require Import ZArith NArith.
From Stdlib.Strings Require Import Byte.

Set Default Proof Using "Type".
#[local] Set Warnings "-register-all".
Local Open Scope Z_scope.

(** ** JavaScript values held in the unit sub-records *)

(** Numbers are kept as exact integers: the modelled code only copies
    them and compares them with [!=], it performs no arithmetic. *)
Inductive Value : Type :=
| VUndefined
| VNull
| VBool (b : bool)
| VNum (n : Z)
| VStr (s : string)
| VObj (fields : list (string * Value)).

(** ToBoolean. *)
Definition truthy (v : Value) : bool :=
  match v with
  | VUndefined | VNull => false
  | VBool b => b
  | VNum n => negb (n =? 0)
  | VStr s => negb (String.eqb s EmptyString)
  | VObj _ => true
  end.

(** [v != undefined]: only [undefined] and [null] are loosely equal to
    [undefined]. *)
Definition defined (v : Value) : bool :=
  match v with
  | VUndefined | VNull => false
  | _ => true
  end.

(** [a != b]. Undefined and null are loosely equal to each other and to
    nothing else, and two booleans, two numbers or two strings compare
    by value. Between values of different types JavaScript converts
    before it compares, and objects compare by identity: the value model
    keeps neither, so for these pairs the answer is taken from
    [convert]. *)
Definition loose_neq (convert : Value -> Value -> bool) (a b : Value) : bool :=
  match a, b with
  | VUndefined, VUndefined | VUndefined, VNull
  | VNull, VUndefined | VNull, VNull => false
  | VUndefined, _ | VNull, _ | _, VUndefined | _, VNull => true
  | VBool x, VBool y => negb (Bool.eqb x y)
  | VNum x, VNum y => negb (x =? y)
  | VStr x, VStr y => negb (String.eqb x y)
  | _, _ => convert a b
  end.

(** String conversion inside a template literal. *)
Definition toString (v : Value) : string :=
  match v with
  | VUndefined => "undefined"
  | VNull => "null"
  | VBool true => "true"
  | VBool false => "false"
  | VNum n => pretty n
  | VStr s => s
  | VObj _ => "[object Object]"
  end.

(** Property read [o.k]: a missing key reads as [undefined]. *)
Definition getProp (o : gmap string Value) (k : string) : Value :=
  default VUndefined (o !! k).

(** ** The unit class (unit.ts) *)

Module Unit.

(** The concrete classes [Unit.getConstructor] can return. *)
Inductive UnitClass : Type :=
| GroundUnit | Aircraft | Helicopter | Missile | Bomb | NavyUnit.

#[export] Instance UnitClass_eq_dec : EqDecision UnitClass.
Proof. solve_decision. Defined.

Definition getConstructor (type : string) : option UnitClass :=
  if String.eqb type "GroundUnit" then Some GroundUnit
  else if String.eqb type "Aircraft" then Some Aircraft
  else if String.eqb type "Helicopter" then Some Helicopter
  else if String.eqb type "Missile" then Some Missile
  else if String.eqb type "Bomb" then Some Bomb
  else if String.eqb type "NavyUnit" then Some NavyUnit
  else None.

(** [Missile] and [Bomb] extend [Weapon]. *)
Definition isWeapon (c : UnitClass) : bool :=
  match c with
  | Missile | Bomb => true
  | _ => false
  end.

(** The six sub-records of [#data]; each is an object read and written
    by key. *)
Record UnitData : Type := mkUnitData {
  baseData : gmap string Value;
  flightData : gmap string Value;
  missionData : gmap string Value;
  formationData : gmap string Value;
  taskData : gmap string Value;
  optionsData : gmap string Value
}.

(** An update: every sub-record may be missing ([undefined]), and a
    sub-record that is there holds only the keys that were sent. *)
Record UpdateData : Type := mkUpdateData {
  u_baseData : option (gmap string Value);
  u_flightData : option (gmap string Value);
  u_missionData : option (gmap string Value);
  u_formationData : option (gmap string Value);
  u_taskData : option (gmap string Value);
  u_optionsData : option (gmap string Value)
}.

(** The names of the sub-records, to quantify over them. *)
Inductive SubRecord : Type :=
| BaseData | FlightData | MissionData | FormationData | TaskData | OptionsData.

Definition sub (s : SubRecord) (d : UnitData) : gmap string Value :=
  match s with
  | BaseData => baseData d
  | FlightData => flightData d
  | MissionData => missionData d
  | FormationData => formationData d
  | TaskData => taskData d
  | OptionsData => optionsData d
  end.

Definition u_sub (s : SubRecord) (d : UpdateData) : option (gmap string Value) :=
  match s with
  | BaseData => u_baseData d
  | FlightData => u_flightData d
  | MissionData => u_missionData d
  | FormationData => u_formationData d
  | TaskData => u_taskData d
  | OptionsData => u_optionsData d
  end.

(** The field initialiser of [#data]. *)
Definition initialData : UnitData := {|
  baseData := list_to_map
    [("AI", VBool false); ("name", VStr EmptyString); ("unitName", VStr EmptyString);
     ("groupName", VStr EmptyString); ("alive", VBool true); ("category", VStr EmptyString)];
  flightData := list_to_map
    [("latitude", VNum 0); ("longitude", VNum 0); ("altitude", VNum 0);
     ("heading", VNum 0); ("speed", VNum 0)];
  missionData := list_to_map
    [("fuel", VNum 0); ("flags", VObj []); ("ammo", VObj []);
     ("targets", VObj []); ("hasTask", VBool false); ("coalition", VStr EmptyString)];
  formationData := list_to_map [("leaderID", VNum 0)];
  taskData := list_to_map
    [("currentState", VStr "IDLE"); ("currentTask", VStr EmptyString);
     ("activePath", VObj []); ("targetSpeed", VNum 0);
     ("targetAltitude", VNum 0); ("isTanker", VBool false);
     ("isAWACS", VBool false); ("TACANOn", VBool false);
     ("TACANChannel", VNum 0); ("TACANXY", VStr "X");
     ("TACANCallsign", VStr EmptyString); ("radioFrequency", VNum 0);
     ("radioCallsign", VNum 0); ("radioCallsignNumber", VNum 0);
     ("radioAMFM", VStr "AM")];
  optionsData := list_to_map [("ROE", VStr EmptyString); ("reactionToThreat", VStr EmptyString)]
|}.

(** The state of one unit object. [onMap] is [getMap().hasLayer(this)].
    Markers, polylines and the hover flag only feed the rendering and are
    left out. *)
Record Unit : Type := mkUnit {
  ID : N;
  class : UnitClass;
  data : UnitData;
  selectable : bool;
  selected : bool;
  hidden : bool;
  onMap : bool
}.

Definition getData (u : Unit) : UnitData := data u.
Definition getBaseData (u : Unit) := baseData (getData u).
Definition getFlightData (u : Unit) := flightData (getData u).
Definition getTaskData (u : Unit) := taskData (getData u).
Definition getMissionData (u : Unit) := missionData (getData u).
Definition getFormationData (u : Unit) := formationData (getData u).
Definition getOptionsData (u : Unit) := optionsData (getData u).
Definition getSelected (u : Unit) : bool := selected u.
Definition getSelectable (u : Unit) : bool := selectable u.
Definition getHidden (u : Unit) : bool := hidden u.

(** [this.getBaseData().alive] read as a condition. *)
Definition alive (u : Unit) : bool := truthy (getProp (getBaseData u) "alive").

Definition setSelectable (s : bool) (u : Unit) : Unit :=
  {| ID := ID u; class := class u; data := data u; selectable := s;
     selected := selected u; hidden := hidden u; onMap := onMap u |}.

(** Only alive units can be selected; weapons are not selectable. The
    events dispatched on a change are left to the listeners. *)
Definition setSelected (sel : bool) (u : Unit) : Unit :=
  if (alive u || negb sel) && getSelectable u && negb (Bool.eqb (getSelected u) sel)
  then {| ID := ID u; class := class u; data := data u;
          selectable := selectable u; selected := sel;
          hidden := hidden u; onMap := onMap u |}
  else u.

Definition setHidden (h : bool) (u : Unit) : Unit :=
  (* add the marker if not present and shown *)
  let m1 := if negb (onMap u) && negb h then true else onMap u in
  (* remove the marker if present and hidden *)
  let m2 := if m1 && h then false else m1 in
  {| ID := ID u; class := class u; data := data u;
     selectable := selectable u; selected := selected u;
     hidden := h; onMap := m2 |}.

(** What the unit reads from outside: the attributes of [document.body],
    for ground units the first role of the first loadout of the database
    entry of a unit name, and the answer of [!=] between two values of
    different types or two objects. *)
Record Env : Type := mkEnv {
  bodyAttributes : gmap string string;
  groundRole : string -> option string;
  looseNotEqual : Value -> Value -> bool
}.

(** [document.body.getAttribute(name) != null] *)
Definition hasAttribute (env : Env) (name : string) : bool :=
  bool_decide (is_Some (bodyAttributes env !! name)).

Definition getMarkerCategory (env : Env) (u : Unit) : string :=
  match class u with
  | Aircraft => "aircraft"
  | Helicopter => EmptyString   (* not overridden: Helicopter defines getVisibilityCategory *)
  | GroundUnit =>
      match groundRole env (toString (getProp (getBaseData u) "name")) with
      | Some role => if String.eqb role "SAM" then "sam" else "groundunit"
      | None => "groundunit"
      end
  | NavyUnit => "navyunit"
  | Missile => "missile"
  | Bomb => "bomb"
  end.

Definition coalitionHideFlag (env : Env) (u : Unit) : bool :=
  hasAttribute env ("data-hide-" +:+ toString (getProp (getMissionData u) "coalition")).

Definition categoryHideFlag (env : Env) (u : Unit) : bool :=
  hasAttribute env ("data-hide-" +:+ getMarkerCategory env u).

Definition updateVisibility (env : Env) (u : Unit) : Unit :=
  setHidden (coalitionHideFlag env u || categoryHideFlag env u || negb (alive u)) u.

(** [for (let key in cur) if (key in upd) cur[key] = upd[key]] *)
Definition mergeFields (cur upd : gmap string Value) : gmap string Value :=
  map_imap (fun key old => Some (default old (upd !! key))) cur.

(** [if (upd != undefined) { ...merge... }] *)
Definition mergeSub (cur : gmap string Value) (upd : option (gmap string Value)) :
    gmap string Value :=
  match upd with
  | Some o => mergeFields cur o
  | None => cur
  end.

Definition mergeData (cur : UnitData) (d : UpdateData) : UnitData := {|
  baseData := mergeSub (baseData cur) (u_baseData d);
  flightData := mergeSub (flightData cur) (u_flightData d);
  missionData := mergeSub (missionData cur) (u_missionData d);
  formationData := mergeSub (formationData cur) (u_formationData d);
  taskData := mergeSub (taskData cur) (u_taskData d);
  optionsData := mergeSub (optionsData cur) (u_optionsData d)
|}.

Definition withData (d : UnitData) (u : Unit) : Unit :=
  {| ID := ID u; class := class u; data := d; selectable := selectable u;
     selected := selected u; hidden := hidden u; onMap := onMap u |}.

(** [setData]. The change detection at the top reads
    [data.flightData.latitude] and [data.baseData.alive] before any check
    that these sub-records are there: with one of them missing the call
    throws a TypeError before anything is written ([None]). Drawing of
    paths and targets and the [unitUpdated] event do not change the
    state kept here. *)
Definition setData (env : Env) (d : UpdateData) (u : Unit) : option Unit :=
  match u_flightData d with
  | None => None
  | Some fd =>
    let lat := getProp fd "latitude" in
    let lng := getProp fd "longitude" in
    let hdg := getProp fd "heading" in
    let positionChanged :=
      defined lat && defined lng &&
      (loose_neq (looseNotEqual env) (getProp (getFlightData u) "latitude") lat ||
       loose_neq (looseNotEqual env) (getProp (getFlightData u) "longitude") lng) in
    let headingChanged :=
      defined hdg &&
      loose_neq (looseNotEqual env) (getProp (getFlightData u) "heading") hdg in
    match u_baseData d with
    | None => None
    | Some bd =>
      let al := getProp bd "alive" in
      let aliveChanged :=
        defined al &&
        loose_neq (looseNotEqual env) (getProp (getBaseData u) "alive") al in
      let updateMarker :=
        positionChanged || headingChanged || aliveChanged || negb (onMap u) in
      let u1 := withData (mergeData (data u) d) u in
      (* Dead units can't be selected *)
      let u2 := setSelected (getSelected u1 && alive u1 && negb (getHidden u1)) u1 in
      Some (if updateMarker then updateVisibility env u2 else u2)
    end
  end.

(** [new cls(ID, data)]: field initialisers, [setData(data)] in the base
    constructor, then [setSelectable(false)] in the [Weapon] constructor. *)
Definition construct (env : Env) (cls : UnitClass) (id : N) (d : UpdateData) :
    option Unit :=
  let u0 := {| ID := id; class := cls; data := initialData; selectable := true;
               selected := false; hidden := false; onMap := false |} in
  match setData env d u0 with
  | Some u => Some (if isWeapon cls then setSelectable false u else u)
  | None => None
  end.

(** The handler both visibility-toggle listeners run after their timeout. *)
Definition onToggleVisibility (u : Unit) : Unit :=
  setSelected (getSelected u && negb (getHidden u)) u.

(** [clearDestinations] *)
Definition clearDestinations (u : Unit) : Unit :=
  withData {| baseData := baseData (data u); flightData := flightData (data u);
              missionData := missionData (data u);
              formationData := formationData (data u);
              taskData := <["activePath" := VUndefined]> (taskData (data u));
              optionsData := optionsData (data u) |} u.

(** The unit states the class can be in: built by a constructor and then
    driven through its methods. [setSelectable] is called by the [Weapon]
    constructor only. *)
Inductive reachable : Unit -> Prop :=
| r_construct env cls id d u :
    construct env cls id d = Some u -> reachable u
| r_setData env d u u' :
    reachable u -> setData env d u = Some u' -> reachable u'
| r_setSelected b u :
    reachable u -> reachable (setSelected b u)
| r_updateVisibility env u :
    reachable u -> reachable (updateVisibility env u)
| r_setHidden h u :
    reachable u -> reachable (setHidden h u)
| r_onToggleVisibility u :
    reachable u -> reachable (onToggleVisibility u)
| r_clearDestinations u :
    reachable u -> reachable (clearDestinations u).

(** The state invariant of the class: a selected unit is alive and
    selectable. *)
Definition selectionInvariant (u : Unit) : Prop :=
  selected u = true -> alive u = true /\ selectable u = true.

(** The unit object after a call of [setData], whether the call
    returned or threw: an exception leaves the object as it was. *)
Definition afterSetData (env : Env) (u : Unit) (d : UpdateData) : Unit :=
  default u (setData env d u).

(** The updates of a list applied one at a time. *)
Definition afterAll (env : Env) (ds : list UpdateData) (u : Unit) : Unit :=
  foldl (afterSetData env) u ds.

(** The single update that holds the fields of two updates; on a shared
    key the later one wins. *)
Definition joinSub (a b : option (gmap string Value)) : option (gmap string Value) :=
  match a, b with
  | Some x, Some y => Some (y ∪ x)
  | Some x, None => Some x
  | None, y => y
  end.

Definition joinUpdate (a b : UpdateData) : UpdateData := {|
  u_baseData := joinSub (u_baseData a) (u_baseData b);
  u_flightData := joinSub (u_flightData a) (u_flightData b);
  u_missionData := joinSub (u_missionData a) (u_missionData b);
  u_formationData := joinSub (u_formationData a) (u_formationData b);
  u_taskData := joinSub (u_taskData a) (u_taskData b);
  u_optionsData := joinSub (u_optionsData a) (u_optionsData b)
|}.

Definition emptyUpdate : UpdateData :=
  mkUpdateData None None None None None None.

Definition mergedUpdate (ds : list UpdateData) : UpdateData :=
  foldl joinUpdate emptyUpdate ds.

(** An update holds field [k] of sub-record [s]. *)
Definition hasField (d : UpdateData) (s : SubRecord) (k : string) : Prop :=
  exists o, u_sub s d = Some o /\ is_Some (o !! k).

Definition disjointUpdates (a b : UpdateData) : Prop :=
  forall s k, hasField a s k -> hasField b s k -> False.

Fixpoint pairwiseDisjoint (ds : list UpdateData) : Prop :=
  match ds with
  | [] => True
  | d :: ds' => Forall (disjointUpdates d) ds' /\ pairwiseDisjoint ds'
  end.

(** The update carries the two sub-records the change detection reads. *)
Definition carriesBaseAndFlight (d : UpdateData) : Prop :=
  is_Some (u_baseData d) /\ is_Some (u_flightData d).

End Unit.

(** ** The byte cursor *)

Module DataExtractor.

(** Modelled from the spec: the DataExtractor class (spec 4.1 and 6) is
    not among the sources. A cursor over a fixed byte buffer with a read
    offset that starts at 0; every extraction advances the offset by the
    width it consumed and fails ([None], the spec's BufferUnderrun) when
    it would read past the end. Integers are taken little-endian and the
    length prefix of a string as two bytes: the spec fixes neither. *)
Record t : Type := mk {
  buffer : list byte;
  seekPosition : nat
}.

Definition new (buf : list byte) : t := {| buffer := buf; seekPosition := 0 |}.

Definition getSeekPosition (e : t) : nat := seekPosition e.

Definition byteLength (e : t) : nat := length (buffer e).

Definition advance (n : nat) (e : t) : t :=
  {| buffer := buffer e; seekPosition := (seekPosition e + n)%nat |}.

Definition readBytes (n : nat) (e : t) : option (list byte * t) :=
  let bs := take n (drop (seekPosition e) (buffer e)) in
  if decide (length bs = n) then Some (bs, advance n e) else None.

Definition littleEndian (bs : list byte) : N :=
  foldr (fun b acc => (Byte.to_N b + 256 * acc)%N) 0%N bs.

Definition extractUInt (width : nat) (e : t) : option (N * t) :=
  match readBytes width e with
  | Some (bs, e') => Some (littleEndian bs, e')
  | None => None
  end.

Definition extractUInt8 := extractUInt 1.
Definition extractUInt16 := extractUInt 2.
Definition extractUInt32 := extractUInt 4.
Definition extractUInt64 := extractUInt 8.

Definition extractString (e : t) : option (string * t) :=
  match extractUInt16 e with
  | Some (len, e1) =>
      match readBytes (N.to_nat len) e1 with
      | Some (bs, e2) => Some (String.string_of_list_byte bs, e2)
      | None => None
      end
  | None => None
  end.

End DataExtractor.

(** ** The units manager (unitsmanager.ts) *)

Module UnitsManager.

(** [Number(x)] of a 64-bit BigInt: the nearest double, ties to even.
    Below 2^53 the value is kept as it is. *)
Definition Number (x : N) : N :=
  if (x <? 2 ^ 53)%N then x
  else
    let k := (N.log2 x - 52)%N in
    let q := (x / 2 ^ k)%N in
    let r := (x mod 2 ^ k)%N in
    let half := (2 ^ (k - 1))%N in
    let q' := if (half <? r)%N || ((r =? half)%N && N.odd q) then (q + 1)%N else q in
    (q' * 2 ^ k)%N.

(** A detection edge as a unit reports it: the target and the method. *)
Record Contact : Type := mkContact {
  contactID : N;
  detectionMethod : N
}.

(** Modelled from the spec: the Unit class this manager is written
    against takes the byte cursor in [setData] and has the accessors
    [getAlive], [getHotgroup], [getGroupName], [getGroup], [getContacts],
    [belongsToCommandedCoalition] and [setDetectionMethods], none of
    which is in the unit source at hand. The accessors are read as plain
    fields of the entity record of spec 3. [UnitFields] is the part a
    decode may write, [Unit] adds the two fields only the manager and
    the groups write. *)
Record UnitFields : Type := mkFields {
  category : Unit.UnitClass;
  alive : bool;
  selectable : bool;
  selected : bool;
  hotgroup : option N;
  groupName : string;
  coalition : string;
  contacts : list Contact
}.

Record Unit : Type := mkUnit {
  fields : UnitFields;
  group : option string;      (* the Group object, by its key in the groups table *)
  detectionMethods : list N
}.

Definition getAlive (u : Unit) : bool := alive (fields u).
Definition getHotgroup (u : Unit) : option N := hotgroup (fields u).
Definition getGroupName (u : Unit) : string := groupName (fields u).
Definition getGroup (u : Unit) : option string := group u.
Definition getContacts (u : Unit) : list Contact := contacts (fields u).
Definition getSelected (u : Unit) : bool := selected (fields u).

Definition withFields (f : UnitFields) (u : Unit) : Unit :=
  {| fields := f; group := group u; detectionMethods := detectionMethods u |}.

Definition setGroup (g : option string) (u : Unit) : Unit :=
  {| fields := fields u; group := g; detectionMethods := detectionMethods u |}.

(** Modelled from the spec: [setDetectionMethods] stores the list in the
    unit's detected-methods field (spec 4.5, step 4). *)
Definition setDetectionMethods (l : list N) (u : Unit) : Unit :=
  {| fields := fields u; group := group u; detectionMethods := l |}.

(** [Unit.setSelected], on the fields kept here. *)
Definition setSelected (sel : bool) (u : Unit) : Unit :=
  let f := fields u in
  if (alive f || negb sel) && selectable f && negb (Bool.eqb (selected f) sel)
  then withFields {| category := category f; alive := alive f;
                     selectable := selectable f; selected := sel;
                     hotgroup := hotgroup f; groupName := groupName f;
                     coalition := coalition f; contacts := contacts f |} u
  else u.

(** Modelled from the spec: the Group class is not among the sources. A
    named collection of units (spec 3); [addMember] puts the unit in the
    collection and makes the group the unit's group. *)
Record Group : Type := mkGroup {
  name : string;
  members : list N
}.

Definition newGroup (n : string) : Group := {| name := n; members := [] |}.

(** What the manager takes from code that is not at hand: two constants
    of constants.ts and the two entry points of the unit class that
    depend on the wire layout. [setData] gets the unit's fields and the
    cursor and gives back the fields after the decode, whether a
    [contactsUpdated] event was dispatched, and the number of bytes it
    took from the cursor ([None]: it threw). *)
Record Context : Type := mkContext {
  DataIndexes_category : N;
  GAME_MASTER : string;
  newUnit : Unit.UnitClass -> N -> UnitFields;
  setData : UnitFields -> DataExtractor.t -> UnitFields * bool * option nat
}.

(** The application state [update] reads through [getApp()]: the command
    mode, the commanded coalition, and the detection methods of each
    weapon of the weapons manager. *)
Record App : Type := mkApp {
  commandMode : string;
  commandedCoalition : string;
  weapons : gmap N (list N)
}.

(** Modelled from the spec: a unit belongs to the commanded coalition
    when its coalition is the one the local client commands (spec 4.5,
    step 4). *)
Definition belongsToCommandedCoalition (app : App) (u : Unit) : bool :=
  String.eqb (coalition (fields u)) (commandedCoalition app).

(** [#units], [#groups] and [#requestDetectionUpdate]. The two tables
    are plain objects; the maps hold their own keys. The units are keyed
    by number, the groups by name. *)
Record Manager : Type := mkManager {
  units : gmap N Unit;
  groups : gmap string Group;
  requestDetectionUpdate : bool
}.

(** The property names a plain object inherits from [Object.prototype]
    (ECMAScript, with the legacy names of its annex B). The values
    under them are functions, or the prototype itself, and none has a
    property [addMember]. *)
Definition objectPrototypeKeys : list string :=
  ["constructor"; "hasOwnProperty"; "isPrototypeOf"; "propertyIsEnumerable";
   "toLocaleString"; "toString"; "valueOf"; "__proto__";
   "__defineGetter__"; "__defineSetter__"; "__lookupGetter__"; "__lookupSetter__"].

Definition inherited (key : string) : bool := bool_decide (key ∈ objectPrototypeKeys).

(** [key in table] on a table keyed by strings: true of an own key and
    of an inherited one. *)
Definition hasKey {A : Type} (key : string) (table : gmap string A) : bool :=
  bool_decide (is_Some (table !! key)) || inherited key.

Definition emptyManager : Manager :=
  {| units := ∅; groups := ∅; requestDetectionUpdate := false |}.

Definition withUnits (us : gmap N Unit) (m : Manager) : Manager :=
  {| units := us; groups := groups m;
     requestDetectionUpdate := requestDetectionUpdate m |}.

(** [for (let ID in table)]: integer keys come in ascending order. *)
Definition keysAscending {A : Type} (table : gmap N A) : list N :=
  merge_sort N.le (elements (dom table)).

(** [Object.values(this.#units)], each unit with its key. *)
Definition unitEntries (m : Manager) : list (N * Unit) :=
  omap (fun id => pair id <$> units m !! id) (keysAscending (units m)).

Definition getUnitByID (m : Manager) (id : N) : option Unit := units m !! id.

Definition getUnitsByHotgroup (m : Manager) (h : N) : list (N * Unit) :=
  filter (fun p => getAlive p.2 = true /\ getHotgroup p.2 = Some h) (unitEntries m).

Definition addUnit (ctx : Context) (id : N) (cat : string) (m : Manager) : Manager :=
  if negb (String.eqb cat EmptyString) then
    match Unit.getConstructor cat with
    | Some cls =>
        withUnits (<[id := {| fields := newUnit ctx cls id; group := None;
                              detectionMethods := [] |}]> (units m)) m
    | None => m
    end
  else m.

(** One pass of the decode loop. *)
Inductive Step : Type :=
| Continue (m : Manager) (e : DataExtractor.t)   (* back to the loop test *)
| Abort (m : Manager)                            (* the early [return] *)
| Throw (m : Manager)                            (* an extraction or [setData] threw *)
| Finish (m : Manager).                          (* the loop test failed *)

(** [this.#units[ID]?.setData(dataExtractor)] *)
Definition applySetData (ctx : Context) (id : N) (m : Manager) (e : DataExtractor.t) :
    Step :=
  match units m !! id with
  | None => Continue m e
  | Some u =>
      let '(f, contactsUpdated, taken) := setData ctx (fields u) e in
      let m' := {| units := <[id := withFields f u]> (units m);
                   groups := groups m;
                   requestDetectionUpdate :=
                     requestDetectionUpdate m || contactsUpdated |} in
      match taken with
      | Some n => Continue m' (DataExtractor.advance n e)
      | None => Throw m'
      end
  end.

Definition decodeStep (ctx : Context) (m : Manager) (e : DataExtractor.t) : Step :=
  if decide (DataExtractor.getSeekPosition e < DataExtractor.byteLength e)%nat then
    match DataExtractor.extractUInt32 e with
    | None => Throw m
    | Some (id, e1) =>
        if decide (is_Some (units m !! id)) then applySetData ctx id m e1
        else
          match DataExtractor.extractUInt8 e1 with
          | None => Throw m
          | Some (datumIndex, e2) =>
              if (datumIndex =? DataIndexes_category ctx)%N then
                match DataExtractor.extractString e2 with
                | None => Throw m
                | Some (cat, e3) => applySetData ctx id (addUnit ctx id cat m) e3
                end
              else
                (* Inconsistent data, we need to wait for a refresh *)
                Abort m
          end
    end
  else Finish m.

(** How the loop is left. *)
Inductive LoopEnd : Type :=
| Aborted (m : Manager)     (* [return updateTime] inside the loop *)
| Threw (m : Manager)       (* an exception left the loop *)
| Finished (m : Manager).   (* the whole buffer was read *)

(** The [while] loop; [None] when the fuel does not cover it. *)
Fixpoint decodeLoop (ctx : Context) (fuel : nat) (m : Manager) (e : DataExtractor.t) :
    option LoopEnd :=
  match fuel with
  | O => None
  | S fuel' =>
      match decodeStep ctx m e with
      | Continue m' e' => decodeLoop ctx fuel' m' e'
      | Abort m' => Some (Aborted m')
      | Throw m' => Some (Threw m')
      | Finish m' => Some (Finished m')
      end
  end.

Definition endManager (r : LoopEnd) : Manager :=
  match r with
  | Aborted m | Threw m | Finished m => m
  end.

Definition stepManager (st : Step) : Manager :=
  match st with
  | Continue m _ | Abort m | Throw m | Finish m => m
  end.

(** What decoding leaves alone: the groups table, and the group and the
    detection methods of every unit; a unit it adds has neither. *)
Definition decodedFrom (m m' : Manager) : Prop :=
  groups m' = groups m /\
  (forall id u, units m !! id = Some u ->
     exists u', units m' !! id = Some u' /\ group u' = group u /\
                detectionMethods u' = detectionMethods u) /\
  (forall id u', units m' !! id = Some u' -> units m !! id = None ->
     group u' = None /\ detectionMethods u' = []).

(** The loop, started at [(m, e)], is back at its test with [(m', e')]
    after some complete passes. *)
Inductive reaches (ctx : Context) :
    Manager -> DataExtractor.t -> Manager -> DataExtractor.t -> Prop :=
| reaches_here m e : reaches ctx m e m e
| reaches_pass m e m1 e1 m' e' :
    decodeStep ctx m e = Continue m1 e1 ->
    reaches ctx m1 e1 m' e' ->
    reaches ctx m e m' e'.

(** Modelled from the spec: [Group.addMember] on the group under key
    [g]. The unit joins the collection and the group becomes the unit's
    group (spec 3: a unit joins at most one group). *)
Definition addMember (g : string) (id : N) (m : Manager) : Manager :=
  {| units := alter (setGroup (Some g)) id (units m);
     groups := alter (fun G => {| name := name G; members := members G ++ [id] |})
                     g (groups m);
     requestDetectionUpdate := requestDetectionUpdate m |}.

(** How a pass of the group loop, and the loop, is left. *)
Inductive GroupStep : Type :=
| Grouped (m : Manager)       (* on to the next key *)
| GroupThrew (m : Manager).   (* a TypeError left the loop *)

Definition groupManager (st : GroupStep) : Manager :=
  match st with
  | Grouped m | GroupThrew m => m
  end.

(** The body of the group loop for one key. When the group name is a
    name the groups table inherits and not a group, [groupName in
    this.#groups] holds, no group is created, [this.#groups[groupName]]
    is a value of [Object.prototype] and the call of its [addMember],
    which is undefined, throws. *)
Definition groupStep (m : Manager) (id : N) : GroupStep :=
  match units m !! id with
  | None => Grouped m
  | Some unit =>
      let groupName := getGroupName unit in
      if negb (String.eqb groupName EmptyString) then
        (* If the group does not yet exist, create it *)
        let m1 :=
          if hasKey groupName (groups m) then m
          else {| units := units m;
                  groups := <[groupName := newGroup groupName]> (groups m);
                  requestDetectionUpdate := requestDetectionUpdate m |} in
        (* If the unit was not assigned to a group yet, assign it *)
        match getGroup unit with
        | None =>
            match groups m1 !! groupName with
            | Some _ => Grouped (addMember groupName id m1)
            | None => GroupThrew m1
            end
        | Some _ => Grouped m1
        end
      else Grouped m
  end.

(** What the group loop does to one unit. *)
Definition assigned (u : Unit) : Unit :=
  if negb (String.eqb (getGroupName u) EmptyString) && bool_decide (getGroup u = None)
  then setGroup (Some (getGroupName u)) u
  else u.

(** Unit [id] is a member of the group under key [g]. *)
Definition memberOf (m : Manager) (g : string) (id : N) : Prop :=
  exists G, groups m !! g = Some G /\ id ∈ members G.

(** Unit [id] is due to join the group under key [g]: it has that name
    for a group, the name is not empty, and it has no group yet. *)
Definition joins (m : Manager) (g : string) (id : N) : Prop :=
  exists u, units m !! id = Some u /\ getGroupName u = g /\
            g <> EmptyString /\ getGroup u = None.

(** The pass for unit [id] throws: the unit has a group name and no
    group, and the name is one the groups table inherits and does not
    have as a group. *)
Definition throwsAt (m : Manager) (id : N) : Prop :=
  exists u, units m !! id = Some u /\ getGroupName u <> EmptyString /\
            getGroup u = None /\ groups m !! getGroupName u = None /\
            inherited (getGroupName u) = true.

Definition groupLoopThrows (m : Manager) : Prop := exists id, throwsAt m id.

(** The group loop over the keys [ids]; it ends at the first pass that
    throws. *)
Fixpoint groupLoop (m : Manager) (ids : list N) : GroupStep :=
  match ids with
  | [] => Grouped m
  | id :: ids' =>
      match groupStep m id with
      | Grouped m' => groupLoop m' ids'
      | GroupThrew m' => GroupThrew m'
      end
  end.

Definition assignGroups (m : Manager) : GroupStep :=
  groupLoop m (keysAscending (units m)).

(** What passes of the group loop leave alone, and the little they do:
    the dirty flag stays, a unit is as it was or has been assigned, no
    member leaves a group, and a new member is a unit that was due to
    join the group. *)
Definition groupedFrom (m m' : Manager) : Prop :=
  requestDetectionUpdate m' = requestDetectionUpdate m /\
  (forall j, units m' !! j = units m !! j \/ units m' !! j = assigned <$> units m !! j) /\
  (forall g x, memberOf m g x -> memberOf m' g x) /\
  (forall g x, memberOf m' g x -> memberOf m g x \/ joins m g x).

(** [contacts.forEach] of one observer over the dictionary of lists. *)
Definition recordContact (dm : gmap N (list N)) (c : Contact) : gmap N (list N) :=
  match dm !! contactID c with
  | Some l =>
      if decide (detectionMethod c ∈ l) then dm
      else <[contactID c := l ++ [detectionMethod c]]> dm
  | None => dm
  end.

Definition recordObserver (app : App) (m : Manager) (dm : gmap N (list N)) (id : N) :
    gmap N (list N) :=
  match units m !! id with
  | Some unit =>
      if getAlive unit && belongsToCommandedCoalition app unit
      then foldl recordContact dm (getContacts unit)
      else dm
  | None => dm
  end.

Definition emptyLists (ids : list N) (dm : gmap N (list N)) : gmap N (list N) :=
  foldl (fun acc id => <[id := []]> acc) dm ids.

Definition collectDetectionMethods (app : App) (m : Manager) : gmap N (list N) :=
  let dm0 := emptyLists (keysAscending (weapons app))
               (emptyLists (keysAscending (units m)) ∅) in
  foldl (recordObserver app m) dm0 (keysAscending (units m)).

(** The guard of the detection block. *)
Definition detectionGate (ctx : Context) (app : App) (m : Manager) : bool :=
  requestDetectionUpdate m && negb (String.eqb (commandMode app) (GAME_MASTER ctx)).

(** The detection block of [update], guard included. *)
Definition deriveDetection (ctx : Context) (app : App) (m : Manager) : Manager * App :=
  if detectionGate ctx app m
  then
    let dm := collectDetectionMethods app m in
    ({| units := map_imap (fun id u => Some (setDetectionMethods (default [] (dm !! id)) u))
                          (units m);
        groups := groups m;
        requestDetectionUpdate := false |},
     {| commandMode := commandMode app;
        commandedCoalition := commandedCoalition app;
        weapons := map_imap (fun id _ => Some (default [] (dm !! id))) (weapons app) |})
  else (m, app).

(** The unit under key [oid] reports a contact on [id] with method [x],
    and is alive and of the commanded coalition. *)
Definition observes (app : App) (m : Manager) (oid id x : N) : Prop :=
  exists o c,
    units m !! oid = Some o /\ getAlive o = true /\
    belongsToCommandedCoalition app o = true /\
    c ∈ getContacts o /\ contactID c = id /\ detectionMethod c = x.

(** Unit [id] is detected with method [x]. *)
Definition detectedBy (app : App) (m : Manager) (id x : N) : Prop :=
  exists oid, observes app m oid id x.

(** How a call of [update] ends: with the decoded time, or by an
    exception that leaves the function. *)
Inductive Outcome : Type :=
| Returned (updateTime : N)
| Thrown.

Record Result : Type := mkResult {
  outcome : option Outcome;   (* [None]: the loop outran its fuel *)
  manager : Manager;
  app : App
}.

(** [update]. An exception in the group loop leaves the function like
    one in the decode loop. Drawing the lines of the selected units at
    the end does not change the state kept here. *)
Definition update (ctx : Context) (a : App) (buf : list byte) (m : Manager) : Result :=
  match DataExtractor.extractUInt64 (DataExtractor.new buf) with
  | None => {| outcome := Some Thrown; manager := m; app := a |}
  | Some (t, e) =>
      let updateTime := Number t in
      match decodeLoop ctx (S (length buf)) m e with
      | None => {| outcome := None; manager := m; app := a |}
      | Some (Threw m1) => {| outcome := Some Thrown; manager := m1; app := a |}
      | Some (Aborted m1) =>
          {| outcome := Some (Returned updateTime); manager := m1; app := a |}
      | Some (Finished m1) =>
          match assignGroups m1 with
          | GroupThrew m2 => {| outcome := Some Thrown; manager := m2; app := a |}
          | Grouped m2 =>
              let '(m3, a3) := deriveDetection ctx a m2 in
              {| outcome := Some (Returned updateTime); manager := m3; app := a3 |}
          end
      end
  end.

(** One call of [update] after another, each on the state the one
    before left. *)
Definition updateAll (ctx : Context) (bufs : list (list byte)) (s : Manager * App) :
    Manager * App :=
  foldl (fun s buf => let r := update ctx s.2 buf s.1 in (manager r, app r)) s bufs.

(** The calls of [setSelected] a manager method makes, in order. *)
Definition Calls : Type := list (N * bool).

Definition callSetSelected (sel : bool) (s : Manager * Calls) (id : N) : Manager * Calls :=
  (withUnits (alter (setSelected sel) id (units s.1)) s.1, s.2 ++ [(id, sel)]).

Definition deselectAllUnits (s : Manager * Calls) : Manager * Calls :=
  foldl (callSetSelected false) s (keysAscending (units s.1)).

Definition selectUnitsByHotgroup (h : N) (deselectAll : bool) (m : Manager) :
    Manager * Calls :=
  let s := if deselectAll then deselectAllUnits (m, []) else (m, []) in
  foldl (callSetSelected true) s (getUnitsByHotgroup s.1 h).*1.

End UnitsManager.

(** ** A concrete wire layout to run the manager on *)

Module Sample.
Import UnitsManager.

(** Encoders for test buffers, the inverse of the cursor's reads. *)
Definition byteOf (n : N) : byte := default x00 (Byte.of_N (n mod 256)%N).

Fixpoint uint (width : nat) (n : N) : list byte :=
  match width with
  | O => []
  | S w => byteOf n :: uint w (n / 256)%N
  end.

Definition str (s : string) : list byte :=
  uint 2 (N.of_nat (String.length s)) ++ String.list_byte_of_string s.

(** Field tags. The numbers are placeholders: the DataIndexes table is
    not among the sources. *)
Definition tagCategory : N := 1.
Definition tagAlive : N := 2.
Definition tagGroupName : N := 3.
Definition tagCoalition : N := 4.
Definition tagContacts : N := 5.

Definition withAlive (b : bool) (f : UnitFields) : UnitFields :=
  {| category := category f; alive := b; selectable := selectable f;
     selected := selected f && b; hotgroup := hotgroup f;
     groupName := groupName f; coalition := coalition f; contacts := contacts f |}.

Definition withGroupName (g : string) (f : UnitFields) : UnitFields :=
  {| category := category f; alive := alive f; selectable := selectable f;
     selected := selected f; hotgroup := hotgroup f;
     groupName := g; coalition := coalition f; contacts := contacts f |}.

Definition withCoalition (c : string) (f : UnitFields) : UnitFields :=
  {| category := category f; alive := alive f; selectable := selectable f;
     selected := selected f; hotgroup := hotgroup f;
     groupName := groupName f; coalition := c; contacts := contacts f |}.

Definition withContacts (cs : list Contact) (f : UnitFields) : UnitFields :=
  {| category := category f; alive := alive f; selectable := selectable f;
     selected := selected f; hotgroup := hotgroup f;
     groupName := groupName f; coalition := coalition f; contacts := cs |}.

Fixpoint extractContacts (n : nat) (e : DataExtractor.t) :
    option (list Contact * DataExtractor.t) :=
  match n with
  | O => Some ([], e)
  | S n' =>
      match DataExtractor.extractUInt32 e with
      | Some (id, e1) =>
          match DataExtractor.extractUInt8 e1 with
          | Some (method, e2) =>
              match extractContacts n' e2 with
              | Some (cs, e3) => Some (mkContact id method :: cs, e3)
              | None => None
              end
          | None => None
          end
      | None => None
      end
  end.

Definition taken (e e' : DataExtractor.t) : option nat :=
  Some (DataExtractor.seekPosition e' - DataExtractor.seekPosition e)%nat.

(** Modelled from the spec: the entity decoder of spec 4.3 reads one
    field, a tag byte and then the value the tag calls for, and writes it
    to the entity; a tag it does not know is a protocol error. A dead
    unit loses its selection (spec 4.4). *)
Definition decodeField (f : UnitFields) (e : DataExtractor.t) :
    UnitFields * bool * option nat :=
  match DataExtractor.extractUInt8 e with
  | None => (f, false, None)
  | Some (tag, e1) =>
      if (tag =? tagAlive)%N then
        match DataExtractor.extractUInt8 e1 with
        | Some (v, e2) => (withAlive (negb (v =? 0)%N) f, false, taken e e2)
        | None => (f, false, None)
        end
      else if (tag =? tagGroupName)%N then
        match DataExtractor.extractString e1 with
        | Some (g, e2) => (withGroupName g f, false, taken e e2)
        | None => (f, false, None)
        end
      else if (tag =? tagCoalition)%N then
        match DataExtractor.extractString e1 with
        | Some (c, e2) => (withCoalition c f, false, taken e e2)
        | None => (f, false, None)
        end
      else if (tag =? tagContacts)%N then
        match DataExtractor.extractUInt8 e1 with
        | Some (n, e2) =>
            match extractContacts (N.to_nat n) e2 with
            | Some (cs, e3) => (withContacts cs f, true, taken e e3)
            | None => (f, false, None)
            end
        | None => (f, false, None)
        end
      else (f, false, None)
  end.

Definition freshFields (cls : Unit.UnitClass) (id : N) : UnitFields :=
  {| category := cls; alive := true; selectable := negb (Unit.isWeapon cls);
     selected := false; hotgroup := None; groupName := EmptyString;
     coalition := EmptyString; contacts := [] |}.

Definition context : Context :=
  {| DataIndexes_category := tagCategory;
     GAME_MASTER := "Game master";
     newUnit := freshFields;
     setData := decodeField |}.

Definition blueCommander : App :=
  {| commandMode := "Blue commander"; commandedCoalition := "blue"; weapons := ∅ |}.


End Sample.

(** ** Concrete units and updates *)

Module Examples.
Import Unit.

Definition noEnv : Env :=
  {| bodyAttributes := ∅; groundRole := fun _ => None;
     looseNotEqual := fun _ _ => true |}.

(** [{missionData: {fuel: v}}] *)
Definition fuelOnly (v : Z) : UpdateData :=
  {| u_baseData := None; u_flightData := None;
     u_missionData := Some {[ "fuel" := VNum v ]};
     u_formationData := None; u_taskData := None; u_optionsData := None |}.

(** [{baseData: {}, flightData: {}, missionData: {fuel: v}}] *)
Definition fuelWithEmptyBaseAndFlight (v : Z) : UpdateData :=
  {| u_baseData := Some ∅; u_flightData := Some ∅;
     u_missionData := Some {[ "fuel" := VNum v ]};
     u_formationData := None; u_taskData := None; u_optionsData := None |}.

(** [{taskData: {targetSpeed: v}}] *)
Definition targetSpeedOnly (v : Z) : UpdateData :=
  {| u_baseData := None; u_flightData := None; u_missionData := None;
     u_formationData := None;
     u_taskData := Some {[ "targetSpeed" := VNum v ]};
     u_optionsData := None |}.

(** [{baseData: {alive: b}, flightData: {}}] *)
Definition aliveUpdate (b : bool) : UpdateData :=
  {| u_baseData := Some {[ "alive" := VBool b ]}; u_flightData := Some ∅;
     u_missionData := None; u_formationData := None; u_taskData := None;
     u_optionsData := None |}.

(** [{baseData: {}, flightData: {}}] *)
Definition emptyBaseAndFlight : UpdateData :=
  {| u_baseData := Some ∅; u_flightData := Some ∅;
     u_missionData := None; u_formationData := None; u_taskData := None;
     u_optionsData := None |}.

(** The object [new cls(id, {baseData: {}, flightData: {}})] builds. *)
Definition fresh (cls : UnitClass) (id : N) : Unit :=
  {| ID := id; class := cls; data := initialData;
     selectable := negb (isWeapon cls); selected := false;
     hidden := false; onMap := true |}.

(** A selected aircraft, a dead aircraft and a bomb. *)
Definition selectedAircraft : Unit := setSelected true (fresh Aircraft 5).

Definition deadAircraft : Unit :=
  afterSetData noEnv (fresh Aircraft 3) (aliveUpdate false).

Definition bomb : Unit := fresh Bomb 4.

End Examples.

(** ** Update buffers in the sample layout *)

Module Buffers.
Import UnitsManager Sample.

(** Time 100; unit 1 is created as an aircraft with group name A; then
    ID 2, which is new, comes with the alive tag. *)
Definition aborting : list byte :=
  uint 8 100 ++
  uint 4 1 ++ uint 1 tagCategory ++ str "Aircraft" ++ uint 1 tagGroupName ++ str "A" ++
  uint 4 2 ++ uint 1 tagAlive ++ uint 1 1.

(** Time 100; units 1 and 2 are created with group name A; unit 1
    reports two contacts on unit 2 with method 7 and is blue. *)
Definition contactsOnTwo : list byte :=
  uint 8 100 ++
  uint 4 1 ++ uint 1 tagCategory ++ str "Aircraft" ++ uint 1 tagGroupName ++ str "A" ++
  uint 4 2 ++ uint 1 tagCategory ++ str "Bomb" ++ uint 1 tagGroupName ++ str "A" ++
  uint 4 1 ++ uint 1 tagContacts ++ uint 1 2 ++
    uint 4 2 ++ uint 1 7 ++ uint 4 2 ++ uint 1 7 ++
  uint 4 1 ++ uint 1 tagCoalition ++ str "blue".

(** Time 100; ID 1 comes with a category no class has; then unit 2 is
    created as an aircraft with group name A. *)
Definition unknownCategory : list byte :=
  uint 8 100 ++
  uint 4 1 ++ uint 1 tagCategory ++ str "Ufo" ++
  uint 4 2 ++ uint 1 tagCategory ++ str "Aircraft" ++ uint 1 tagGroupName ++ str "A".





(** Time 100; ID 1 comes with a category no class has and with its alive
    field; then unit 2 is to be created as an aircraft with group name
    A. *)
Definition unknownCategoryWithField : list byte :=
  uint 8 100 ++
  uint 4 1 ++ uint 1 tagCategory ++ str "Ufo" ++ uint 1 tagAlive ++ uint 1 1 ++
  uint 4 2 ++ uint 1 tagCategory ++ str "Aircraft" ++ uint 1 tagGroupName ++ str "A".

(** The same without the entity of the unknown category. *)
Definition knownCategoryOnly : list byte :=
  uint 8 100 ++
  uint 4 2 ++ uint 1 tagCategory ++ str "Aircraft" ++ uint 1 tagGroupName ++ str "A".

(** The cursor over [buf] at offset [n]. *)
Definition at_ (buf : list byte) (n : nat) : DataExtractor.t :=
  {| DataExtractor.buffer := buf; DataExtractor.seekPosition := n |}.

(** The manager after the decode loop over [buf], from an empty manager. *)
Definition decoded (buf : list byte) : Manager :=
  match decodeLoop context (S (length buf)) emptyManager (at_ buf 8) with
  | Some r => endManager r
  | None => emptyManager
  end.

End Buffers.

(** ** More of the unit class *)

Module UnitOps.
Import Unit.

(** The value an update holds for key [k] of sub-record [s], if any. *)
Definition fieldOf (d : UpdateData) (s : SubRecord) (k : string) : option Value :=
  u_sub s d ≫= fun o => o !! k.

(** What [updateVisibility] passes to [setHidden]. *)
Definition hideReasons (env : Env) (u : Unit) : bool :=
  coalitionHideFlag env u || categoryHideFlag env u || negb (alive u).

(** Objects are kept as the list of their properties, each key once.
    [o[k]] as a read: *)
Fixpoint property (k : string) (o : list (string * Value)) : option Value :=
  match o with
  | [] => None
  | (k', v) :: o' => if String.eqb k' k then Some v else property k o'
  end.

(** [o[k] = v]: an existing property is overwritten where it is, a new
    one comes last. *)
Definition setProperty (k : string) (v : Value) (o : list (string * Value)) :
    list (string * Value) :=
  if decide (k ∈ o.*1)
  then (fun p : string * Value => if String.eqb p.1 k then (k, v) else p) <$> o
  else o ++ [(k, v)].

Definition withActivePath (v : Value) (u : Unit) : Unit :=
  withData {| baseData := baseData (data u); flightData := flightData (data u);
              missionData := missionData (data u);
              formationData := formationData (data u);
              taskData := <["activePath" := v]> (taskData (data u));
              optionsData := optionsData (data u) |} u.

(** [addDestination]. The result is the unit afterwards and the
    arguments of the server call [addDestination(this.ID, path)]. When
    the unit has an active path, [path] is that very object, so the new
    waypoint is written into the unit's own task data as well. On an
    active path that is a primitive value the assignment throws a
    TypeError ([None]): a class body is strict code. *)
Definition addDestination (latlng : Value) (u : Unit) : option (Unit * (N * Value)) :=
  match getProp (getTaskData u) "activePath" with
  | VObj path =>
      let path' := setProperty (pretty (length path + 1)%nat) latlng path in
      Some (withActivePath (VObj path') u, (ID u, VObj path'))
  | VUndefined | VNull => Some (u, (ID u, VObj [("1", latlng)]))
  | _ => None
  end.

(** The keys "1", ..., "n". *)
Definition waypointKeys (n : nat) : list string :=
  (fun i : nat => pretty (S i)) <$> seq 0 n.

(** [addDestination] called once for each point of a list, on the unit
    the call before left; the paths sent to the server, in order. *)
Fixpoint addDestinations (latlngs : list Value) (u : Unit) :
    option (Unit * list Value) :=
  match latlngs with
  | [] => Some (u, [])
  | latlng :: rest =>
      match addDestination latlng u with
      | Some (u1, (_, path)) =>
          match addDestinations rest u1 with
          | Some (u2, paths) => Some (u2, path :: paths)
          | None => None
          end
      | None => None
      end
  end.

End UnitOps.

Module UnitOpsExamples.
Import Unit UnitOps Examples.

(** The body carries [data-hide-aircraft]. *)
Definition hideAircraft : Env :=
  {| bodyAttributes := {[ "data-hide-aircraft" := EmptyString ]};
     groundRole := fun _ => None;
     looseNotEqual := fun _ _ => true |}.

(** [{lat: ..., lng: ...}] *)
Definition latlng (lat lng : Z) : Value :=
  VObj [("lat", VNum lat); ("lng", VNum lng)].

(** An aircraft with a path of two points, as a server update leaves it. *)
Definition enRoute : Unit :=
  withActivePath (VObj [("1", latlng 41 12); ("2", latlng 42 13)]) (fresh Aircraft 3).

Definition revived : Unit := afterSetData noEnv deadAircraft (aliveUpdate true).

End UnitOpsExamples.

(** ** More of the units manager *)

Module UnitsManagerOps.
Import UnitsManager.

(** A unit object as the manager's methods hand it around: its ID and
    its state. *)
Definition Entry : Type := N * Unit.

(** The accessors of the unit class and of the map that the methods
    below call and that are not among the sources. *)
Record Accessors : Type := mkAccessors {
  getHuman : Entry -> bool;
  isControlledByOlympus : Entry -> bool;
  getIsLeader : Entry -> bool;
  getIsUnitProtected : Entry -> bool;     (* getApp().getMap().getIsUnitProtected(unit) *)
  getCategory : Entry -> string;
  getUnitName : Entry -> string
}.

(** The object [segregateUnits] returns. *)
Record Segregated : Type := mkSegregated {
  controllable : list Entry;
  dcsProtected : list Entry;
  dcsUnprotected : list Entry;
  human : list Entry;
  olympus : list Entry
}.

(** The body of [units.forEach] in [segregateUnits]. *)
Definition segregateStep (acc : Accessors) (data : Segregated) (unit : Entry) :
    Segregated :=
  if getHuman acc unit then
    {| controllable := controllable data; dcsProtected := dcsProtected data;
       dcsUnprotected := dcsUnprotected data; human := human data ++ [unit];
       olympus := olympus data |}
  else if isControlledByOlympus acc unit then
    {| controllable := controllable data; dcsProtected := dcsProtected data;
       dcsUnprotected := dcsUnprotected data; human := human data;
       olympus := olympus data ++ [unit] |}
  else if getIsUnitProtected acc unit then
    {| controllable := controllable data; dcsProtected := dcsProtected data ++ [unit];
       dcsUnprotected := dcsUnprotected data; human := human data;
       olympus := olympus data |}
  else
    {| controllable := controllable data; dcsProtected := dcsProtected data;
       dcsUnprotected := dcsUnprotected data ++ [unit]; human := human data;
       olympus := olympus data |}.

Definition segregateUnits (acc : Accessors) (units : list Entry) : Segregated :=
  let data := foldl (segregateStep acc) (mkSegregated [] [] [] [] []) units in
  {| controllable := dcsUnprotected data ++ human data ++ olympus data;
     dcsProtected := dcsProtected data; dcsUnprotected := dcsUnprotected data;
     human := human data; olympus := olympus data |}.

(** [showProtectedUnitsPopup]: the text the info popup is given, if any. *)
Definition showProtectedUnitsPopup (numOfProtectedUnits : nat) : option string :=
  if (numOfProtectedUnits <? 1)%nat then None
  else Some (if (numOfProtectedUnits =? 1)%nat then "Unit is protected"
             else "All selected units are protected").

(** The options of [getSelectedUnits]; a field that is left out reads as
    [false]. *)
Record SelectionOptions : Type := mkOptions {
  excludeHumans : bool;
  excludeProtected : bool;
  onlyOnePerGroup : bool;
  showProtectionReminder : bool
}.

(** The body of the first loop of [getSelectedUnits], on the pair
    [(selectedUnits, numProtectedUnits)]. *)
Definition selectStep (acc : Accessors) (options : option SelectionOptions)
    (s : list Entry * nat) (unit : Entry) : list Entry * nat :=
  if getSelected unit.2 then
    match options with
    | Some o =>
        if excludeHumans o && getHuman acc unit then s
        else if excludeProtected o && getIsUnitProtected acc unit then (s.1, S s.2)
        else (s.1 ++ [unit], s.2)
    | None => (s.1 ++ [unit], s.2)
    end
  else s.

(** The loop under [options.onlyOnePerGroup], and its body. *)
Definition onePerGroupStep (temp : list Entry) (unit : Entry) : list Entry :=
  if existsb (fun otherUnit : Entry =>
                String.eqb (getGroupName unit.2) (getGroupName otherUnit.2)) temp
  then temp else temp ++ [unit].

Definition onePerGroup (selectedUnits : list Entry) : list Entry :=
  foldl onePerGroupStep [] selectedUnits.

(** [getSelectedUnits]: the array it returns and the text it gives the
    info popup, if any. *)
Definition getSelectedUnits (acc : Accessors) (options : option SelectionOptions)
    (m : Manager) : list Entry * option string :=
  let '(selectedUnits, numProtectedUnits) :=
    foldl (selectStep acc options) ([], O) (unitEntries m) in
  match options with
  | Some o =>
      (if onlyOnePerGroup o then onePerGroup selectedUnits else selectedUnits,
       if showProtectionReminder o && (length selectedUnits <? numProtectedUnits)%nat
          && (length selectedUnits =? 0)%nat
       then showProtectedUnitsPopup numProtectedUnits else None)
  | None => (selectedUnits, None)
  end.

(** The lines every command method opens with: the selected units when
    no units are given, [segregateUnits], and the early return with the
    protected-units popup when none is controllable. The result is the
    units the command goes to ([None] after the early return) and the
    texts given to the info popup, in order. *)
Definition commandedUnits (acc : Accessors) (options : SelectionOptions)
    (units : option (list Entry)) (m : Manager) : option (list Entry) * list string :=
  let '(units, reminder) :=
    match units with
    | Some us => (us, None)
    | None => getSelectedUnits acc (Some options) m
    end in
  let segregatedUnits := segregateUnits acc units in
  if (length (controllable segregatedUnits) =? 0)%nat then
    (None, option_list reminder ++
           option_list (showProtectedUnitsPopup (length (dcsProtected segregatedUnits))))
  else (Some (controllable segregatedUnits), option_list reminder).

(** The options most commands select with. *)
Definition commandOptions : SelectionOptions :=
  {| excludeHumans := true; excludeProtected := true; onlyOnePerGroup := true;
     showProtectionReminder := true |}.

(** [changeSpeed]: the calls [unit.changeSpeed(speedChange)] it makes, by
    unit ID, and the popup texts. *)
Definition changeSpeed (acc : Accessors) (speedChange : string)
    (units : option (list Entry)) (m : Manager) : list (N * string) * list string :=
  match commandedUnits acc commandOptions units m with
  | (Some us, popups) => ((fun unit : Entry => (unit.1, speedChange)) <$> us, popups)
  | (None, popups) => ([], popups)
  end.

(** [getUnitsCategories]: [array.indexOf(value) === index] keeps the
    first occurrence of each category. *)
Definition indexOf `{EqDecision A} (value : A) (array : list A) : option nat :=
  fst <$> list_find (fun x => x = value) array.

Definition getUnitsCategories (acc : Accessors) (units : list Entry) : list string :=
  if (length units =? 0)%nat then []
  else
    let array := getCategory acc <$> units in
    omap id (imap (fun index value =>
                     if decide (indexOf value array = Some index) then Some value else None)
                  array).

(** [#showActionMessage] *)
Definition showActionMessage (acc : Accessors) (units : list Entry) (message : string) :
    list string :=
  match units with
  | [] => []
  | [unit] => [getUnitName acc unit +:+ " " +:+ message]
  | unit :: others =>
      [getUnitName acc unit +:+ " and " +:+ pretty (length others) +:+
       " other units " +:+ message]
  end.

(** [createGroup]: the IDs in the [cloneUnits] call it makes, if it
    makes one, and the popup texts. The positions in the call are left
    out. *)
Definition createGroup (acc : Accessors) (units : option (list Entry)) (m : Manager) :
    option (list N) * list string :=
  match commandedUnits acc
          {| excludeHumans := true; excludeProtected := true; onlyOnePerGroup := false;
             showProtectionReminder := true |} units m with
  | (Some us, popups) =>
      if (length (getUnitsCategories acc us) =? 1)%nat
      then (Some us.*1, popups ++ showActionMessage acc us "created a group")
      else (None, popups ++ ["Groups can only be created from units of the same category"])
  | (None, popups) => (None, popups)
  end.

(** [getUnitsVariable]. [None] stands for [undefined], as a value of the
    getter and as the result; values compare with [!==], taken as
    inequality (no NaN among them). *)
Definition getUnitsVariable `{EqDecision A} (variableGetter : Entry -> option A)
    (units : list Entry) : option A :=
  match units with
  | [] => None
  | first :: _ =>
      foldl (fun value unit =>
               if decide (variableGetter unit <> value) then None else value)
            (variableGetter first) units
  end.

(** [getUnitDetectedMethods] *)
Definition detectedStep (unit : Entry) (detectionMethods : list N) (contact : Contact) :
    list N :=
  if decide (contactID contact = unit.1 /\ detectionMethod contact ∉ detectionMethods)
  then detectionMethods ++ [detectionMethod contact]
  else detectionMethods.

Definition getCoalition (u : Unit) : string := coalition (fields u).

(** The guard on the observing unit in [getUnitDetectedMethods]. *)
Definition detects (acc : Accessors) (unit other : Entry) : bool :=
  getAlive other.2 && getIsLeader acc other &&
  negb (String.eqb (getCoalition other.2) "neutral") &&
  negb (String.eqb (getCoalition other.2) (getCoalition unit.2)).

Definition getUnitDetectedMethods (acc : Accessors) (m : Manager) (unit : Entry) :
    list N :=
  foldl (fun detectionMethods other =>
           if detects acc unit other
           then foldl (detectedStep unit) detectionMethods (getContacts other.2)
           else detectionMethods)
        [] (unitEntries m).

(** [this.#units[ID]?.setSelected(sel)]: no call when the table has no
    such unit. *)
Definition callSetSelectedIfPresent (sel : bool) (s : Manager * Calls) (id : N) :
    Manager * Calls :=
  if decide (is_Some (units s.1 !! id)) then callSetSelected sel s id else s.

(** [selectUnit] *)
Definition selectUnit (acc : Accessors) (ID : N) (deselectAllUnits : bool) (m : Manager) :
    Manager * Calls :=
  let s :=
    if deselectAllUnits
    then foldl (callSetSelected false) (m, [])
               (filter (fun unit : Entry => unit.1 <> ID) (getSelectedUnits acc None m).1).*1
    else (m, []) in
  callSetSelectedIfPresent true s ID.

(** [deselectUnit] *)
Definition deselectUnit (ID : N) (m : Manager) : Manager * Calls :=
  callSetSelectedIfPresent false (m, []) ID.

(** Modelled from the spec: [Unit.setHotgroup] is not among the sources;
    the hotgroup is a field stored on the entity (spec, glossary). *)
Definition unitSetHotgroup (h : option N) (u : Unit) : Unit :=
  let f := fields u in
  withFields {| category := category f; alive := alive f; selectable := selectable f;
                selected := selected f; hotgroup := h; groupName := groupName f;
                coalition := coalition f; contacts := contacts f |} u.

(** [units.forEach(unit => unit.setHotgroup(h))] on units of the table. *)
Definition setHotgroupOf (h : option N) (m : Manager) (us : list Entry) : Manager :=
  foldl (fun m id => withUnits (alter (unitSetHotgroup h) id (units m)) m) m us.*1.

(** [addToHotgroup]. The action message and the refresh of the hotgroup
    panel do not change the state kept here. *)
Definition addToHotgroup (acc : Accessors) (hotgroup : N) (units : option (list Entry))
    (m : Manager) : Manager :=
  let units :=
    match units with
    | Some us => us
    | None => (getSelectedUnits acc None m).1
    end in
  setHotgroupOf (Some hotgroup) m units.

(** [setHotgroup]. Its [units] argument is not used: [addToHotgroup] is
    called without it. *)
Definition setHotgroup (acc : Accessors) (hotgroup : N) (units : option (list Entry))
    (m : Manager) : Manager :=
  addToHotgroup acc hotgroup None (setHotgroupOf None m (getUnitsByHotgroup m hotgroup)).

(** The offset a follower is sent: three numbers, or the slot of the
    diamond the numbers are computed from with [Math.cos] and [Math.sin]
    (x = -yl * 50, y = zr * 10, z = xl * 50, where (xl, yl) is (xr, yr)
    turned by a quarter of pi). *)
Inductive Offset : Type :=
| Fixed (x y z : Z)
| DiamondSlot (xr yr zr : Z).

(** The simple formations with fixed offsets. *)
Definition formationOffset (formation : option string) : option (Z * Z * Z) :=
  match formation with
  | Some f =>
      if String.eqb f "trail" then Some (-50, -30, 0)
      else if String.eqb f "echelon-lh" then Some (-50, -10, -50)
      else if String.eqb f "echelon-rh" then Some (-50, -10, 50)
      else if String.eqb f "line-abreast-lh" then Some (0, 0, -50)
      else if String.eqb f "line-abreast-rh" then Some (0, 0, 50)
      else if String.eqb f "front" then Some (100, 0, 0)
      else None
  | None => None
  end.

(** The variables of the loop of [followUnit]. *)
Record FollowState : Type := mkFollowState {
  count : Z;
  xr : Z;
  yr : Z;
  zr : Z;
  layer : Z
}.

Definition nextSlot (s : FollowState) : FollowState :=
  if (yr s =? 0) then
    {| count := count s; xr := 0; yr := layer s + 1; zr := - (layer s + 1);
       layer := layer s + 1 |}
  else if (xr s <? layer s) then
    {| count := count s; xr := xr s + 1; yr := yr s; zr := zr s - 1; layer := layer s |}
  else
    {| count := count s; xr := xr s; yr := yr s - 1; zr := zr s + 1; layer := layer s |}.

Definition countUp (s : FollowState) : FollowState :=
  {| count := count s + 1; xr := xr s; yr := yr s; zr := zr s; layer := layer s |}.

(** The calls [unit.followUnit(ID, offset)], as (follower, offset). *)
Definition followStep (ID : N) (offset : option (Z * Z * Z)) (formation : option string)
    (s : FollowState * list (N * Offset)) (unit : Entry) :
    FollowState * list (N * Offset) :=
  if decide (unit.1 <> ID) then
    match offset with
    | Some (x, y, z) =>
        (* Offset is set, apply it *)
        (countUp s.1, s.2 ++ [(unit.1, Fixed (x * count s.1) (y * count s.1) (z * count s.1))])
    | None =>
        (* More complex formations with variable offsets *)
        if bool_decide (formation = Some "diamond")
        then (countUp (nextSlot s.1),
              s.2 ++ [(unit.1, DiamondSlot (xr s.1) (yr s.1) (zr s.1))])
        else (countUp s.1, s.2)
    end
  else s.

(** [followUnit]: the calls it makes and the popup texts. An offset
    given by the caller is taken as three integers. *)
Definition followUnit (acc : Accessors) (ID : N) (offset : option (Z * Z * Z))
    (formation : option string) (units : option (list Entry)) (m : Manager) :
    list (N * Offset) * list string :=
  match commandedUnits acc commandOptions units m with
  | (Some us, popups) =>
      let offset :=
        match offset with
        | Some o => Some o
        | None => formationOffset formation
        end in
      let start := {| count := 1; xr := 0; yr := 1; zr := -1; layer := 1 |} in
      ((foldl (followStep ID offset formation) (start, []) us).2,
       popups ++
       showActionMessage acc us
         ("following unit " +:+
          from_option (fun u => getUnitName acc (ID, u)) "undefined" (getUnitByID m ID)))
  | (None, popups) => ([], popups)
  end.

(** What [spawnUnits] reads from the mission manager and the unit
    databases, none of which is among the sources; spawn points are
    taken as integers. *)
Record SpawnContext : Type := mkSpawnContext {
  restrictSpawns : bool;
  remainingSetupTime : Z;
  spawnCommandMode : string;
  availableSpawnPoints : Z;
  getSpawnPointsByName : Unit.UnitClass -> string -> Z   (* by database *)
}.

(** What a call of [spawnUnits] does: the value it returns, the argument
    of [setSpentSpawnPoints] and the server command (category and spawn
    points) if it comes to them, and the popup text. *)
Record SpawnResult : Type := mkSpawnResult {
  returned : bool;
  spent : option Z;
  command : option (Unit.UnitClass * Z);
  popup : option string
}.

Definition refused (text : string) : SpawnResult :=
  {| returned := false; spent := None; command := None; popup := Some text |}.

Definition spawnPointsOf (sc : SpawnContext) (db : Unit.UnitClass) (unitTypes : list string) :
    Z :=
  foldl (fun points unitType => points + getSpawnPointsByName sc db unitType) 0 unitTypes.

(** The end of [spawnUnits], after the cases on the category: [spawn] is
    the server command [spawnFunction] makes, if a case has set one, and
    its points are [spawnPoints] (0 when no case has set them). *)
Definition finishSpawn (sc : SpawnContext) (spawn : option (Unit.UnitClass * Z)) :
    SpawnResult :=
  let spawnPoints := from_option snd 0 spawn in
  if (spawnPoints <=? availableSpawnPoints sc)
  then {| returned := true; spent := Some spawnPoints; command := spawn; popup := None |}
  else refused "Not enough spawn points available!".

(** [spawnUnits], on the unit types of its unit tables. *)
Definition spawnUnits (ctx : Context) (sc : SpawnContext) (category : string)
    (unitTypes : list string) (airbase : string) : SpawnResult :=
  let spawnsRestricted :=
    restrictSpawns sc && (remainingSetupTime sc <? 0) &&
    negb (String.eqb (spawnCommandMode sc) (GAME_MASTER ctx)) in
  if String.eqb category "Aircraft" then
    if String.eqb airbase EmptyString && spawnsRestricted
    then refused "Aircrafts can be air spawned during the SETUP phase only"
    else finishSpawn sc (Some (Unit.Aircraft, spawnPointsOf sc Unit.Aircraft unitTypes))
  else if String.eqb category "Helicopter" then
    if String.eqb airbase EmptyString && spawnsRestricted
    then refused "Helicopters can be air spawned during the SETUP phase only"
    else finishSpawn sc (Some (Unit.Helicopter, spawnPointsOf sc Unit.Helicopter unitTypes))
  else if String.eqb category "GroundUnit" then
    if spawnsRestricted
    then refused "Ground units can be spawned during the SETUP phase only"
    else finishSpawn sc (Some (Unit.GroundUnit, spawnPointsOf sc Unit.GroundUnit unitTypes))
  else if String.eqb category "NavyUnit" then
    if spawnsRestricted
    then refused "Navy units can be spawned during the SETUP phase only"
    else finishSpawn sc (Some (Unit.NavyUnit, spawnPointsOf sc Unit.NavyUnit unitTypes))
  else finishSpawn sc None.

(** What holds of every way [spawnUnits] ends. *)
Definition spawnOutcome (sc : SpawnContext) (category : string)
    (unitTypes : list string) (r : SpawnResult) : Prop :=
  (returned r = false ->
   spent r = None /\ command r = None /\ is_Some (popup r)) /\
  (returned r = true ->
   popup r = None /\
   exists points, spent r = Some points /\ points <= availableSpawnPoints sc /\
     (command r = None /\ points = 0 \/
      exists cls, command r = Some (cls, points) /\
                  Unit.getConstructor category = Some cls /\
                  points = foldr Z.add 0 (getSpawnPointsByName sc cls <$> unitTypes))).

(** A selected unit that the options of [getSelectedUnits] let through,
    and one they hold back as protected. *)
Definition passes (acc : Accessors) (options : option SelectionOptions) (unit : Entry) :
    bool :=
  getSelected unit.2 &&
  match options with
  | Some o => negb (excludeHumans o && getHuman acc unit) &&
              negb (excludeProtected o && getIsUnitProtected acc unit)
  | None => true
  end.

Definition heldBack (acc : Accessors) (options : option SelectionOptions) (unit : Entry) :
    bool :=
  getSelected unit.2 &&
  match options with
  | Some o => negb (excludeHumans o && getHuman acc unit) &&
              (excludeProtected o && getIsUnitProtected acc unit)
  | None => false
  end.

(** A unit the segregation counts as controllable: flown by a human,
    controlled by Olympus, or not protected. *)
Definition isControllable (acc : Accessors) (unit : Entry) : bool :=
  getHuman acc unit || isControlledByOlympus acc unit || negb (getIsUnitProtected acc unit).

(** The place of a slot of the diamond in the order in which the loop of
    [followUnit] hands the slots out, and what the loop keeps true of
    its variables. *)
Definition slotRank (xr yr : Z) : Z := (Z.max xr yr + 1) * (Z.max xr yr + 1) + xr - yr.

Definition slotInvariant (s : FollowState) : Prop :=
  1 <= layer s /\ 0 <= xr s <= layer s /\ 0 <= yr s <= layer s /\
  (xr s = layer s \/ yr s = layer s) /\ zr s = - (xr s + yr s).

(** Every member of a group is a unit whose group is that group, and the
    other way round. *)
Definition groupsConsistent (m : Manager) : Prop :=
  forall id g,
    memberOf m g id <-> exists u, units m !! id = Some u /\ getGroup u = Some g.

End UnitsManagerOps.

(** ** The instances of the manager (dcsinstance.js) *)

Module DCSInstance.

(** The fields of an instance the port checks read and write. *)
Record Instance : Type := mkInstance {
  installed : bool;
  clientPort : Z;
  backendPort : Z
}.

(** The callback of [some] in [checkClientPort], for the instance at
    place [i] of [DCSInstance.getInstances()]; [this] is the place of the
    instance the method is called on. *)
Definition clashesWithClientPort (this : nat) (port : Z) (i : nat) (instance : Instance) :
    bool :=
  if negb (i =? this)%nat && installed instance
  then (clientPort instance =? port) || (backendPort instance =? port)
  else (backendPort instance =? port).

(** The callback of [some] in [checkBackendPort]. *)
Definition clashesWithBackendPort (this : nat) (port : Z) (i : nat) (instance : Instance) :
    bool :=
  if negb (i =? this)%nat && installed instance
  then (clientPort instance =? port) || (backendPort instance =? port)
  else (clientPort instance =? port).

(** [array.some(callback)], the callback getting the place as well. *)
Definition some {A} (callback : nat -> A -> bool) (array : list A) : bool :=
  existsb (fun p : nat * A => callback p.1 p.2) (imap pair array).

(** [checkClientPort] and [checkBackendPort]; [checkPort] is the probe
    of the operating system, which is not among the sources. *)
Definition checkClientPort (checkPort : Z -> bool) (instances : list Instance)
    (this : nat) (port : Z) : bool :=
  if checkPort port then negb (some (clashesWithClientPort this port) instances)
  else false.

Definition checkBackendPort (checkPort : Z -> bool) (instances : list Instance)
    (this : nat) (port : Z) : bool :=
  if checkPort port then negb (some (clashesWithBackendPort this port) instances)
  else false.

(** [setClientPort] and [setBackendPort]: the value returned and the
    instances afterwards. A call runs to its end before the next one
    starts. *)
Definition setClientPort (checkPort : Z -> bool) (instances : list Instance)
    (this : nat) (newPort : Z) : bool * list Instance :=
  if checkClientPort checkPort instances this newPort
  then (true, alter (fun instance => {| installed := installed instance;
                                         clientPort := newPort;
                                         backendPort := backendPort instance |})
                    this instances)
  else (false, instances).

Definition setBackendPort (checkPort : Z -> bool) (instances : list Instance)
    (this : nat) (newPort : Z) : bool * list Instance :=
  if checkBackendPort checkPort instances this newPort
  then (true, alter (fun instance => {| installed := installed instance;
                                         clientPort := clientPort instance;
                                         backendPort := newPort |})
                    this instances)
  else (false, instances).

(** No instance has one port for client and backend, and no two
    installed instances share a port. *)
Definition portsApart (instances : list Instance) : Prop :=
  (forall i a, instances !! i = Some a -> clientPort a <> backendPort a) /\
  (forall i j a b, i <> j -> instances !! i = Some a -> instances !! j = Some b ->
     installed a = true -> installed b = true ->
     clientPort a <> clientPort b /\ clientPort a <> backendPort b /\
     backendPort a <> clientPort b /\ backendPort a <> backendPort b).

End DCSInstance.

(** ** Concrete managers and instances *)

Module ManagerExamples.
Import UnitsManager UnitsManagerOps Sample.

(** An alive, selectable aircraft. *)
Definition unitOf (sel : bool) (g : string) (co : string) : Unit :=
  {| fields := {| category := Unit.Aircraft; alive := true; selectable := true;
                  selected := sel; hotgroup := None; groupName := g;
                  coalition := co; contacts := [] |};
     group := None; detectionMethods := [] |}.

(** Units 1, 2 and 3 are selected, 4 is not; 1 and 2 are of group A. *)
Definition fourUnits : Manager :=
  {| units := list_to_map [(1%N, unitOf true "A" "blue"); (2%N, unitOf true "A" "blue");
                           (3%N, unitOf true "B" "blue"); (4%N, unitOf false "C" "red")];
     groups := ∅; requestDetectionUpdate := false |}.

(** No unit is human, unit 3 is controlled by Olympus, unit 4 is
    protected. *)
Definition accessors : Accessors :=
  {| getHuman := fun _ => false;
     isControlledByOlympus := fun e => (e.1 =? 3)%N;
     getIsLeader := fun _ => true;
     getIsUnitProtected := fun e => (e.1 =? 4)%N;
     getCategory := fun _ => "Aircraft";
     getUnitName := fun e => pretty e.1 |}.

(** A blue commander whose weapons manager holds a weapon with ID 2. *)
Definition blueCommanderWithWeapon : App :=
  {| commandMode := "Blue commander"; commandedCoalition := "blue";
     weapons := {[ 2%N := [] ]} |}.

End ManagerExamples.

Module InstanceExamples.
Import DCSInstance.

(** Two installed instances on ports 3000/3001 and 3002/3003. *)
Definition twoInstances : list Instance :=
  [ {| installed := true; clientPort := 3000; backendPort := 3001 |};
    {| installed := true; clientPort := 3002; backendPort := 3003 |} ].

(** Every port is free for the operating system. *)
Definition allFree : Z -> bool := fun _ => true.

End InstanceExamples.

(** * Properties of the unit class *)

Section UnitProperties.
Import Unit.

Implicit Types (u : Unit) (d : UpdateData) (env : Env) (s : SubRecord).

Lemma lookup_mergeFields (cur upd : gmap string Value) (k : string) :
  mergeFields cur upd !! k = (fun old => default old (upd !! k)) <$> cur !! k.
Proof.
  unfold mergeFields. rewrite map_lookup_imap.
  by destruct (cur !! k).
Qed.

Lemma lookup_mergeSub (cur : gmap string Value) upd (k : string) :
  mergeSub cur upd !! k =
  (fun old => default old (upd ≫= fun o => o !! k)) <$> cur !! k.
Proof.
  destruct upd as [o|]; simpl.
  - apply lookup_mergeFields.
  - by destruct (cur !! k).
Qed.

Lemma sub_mergeData s (cur : UnitData) d :
  sub s (mergeData cur d) = mergeSub (sub s cur) (u_sub s d).
Proof. by destruct s. Qed.

(** The methods that do not write [#data]. *)
Lemma data_setSelected b u : data (setSelected b u) = data u.
Proof. unfold setSelected. by case_match. Qed.

Lemma data_setHidden h u : data (setHidden h u) = data u.
Proof. done. Qed.

Lemma data_updateVisibility env u : data (updateVisibility env u) = data u.
Proof. done. Qed.

Lemma alive_data u u' : data u' = data u -> alive u' = alive u.
Proof. unfold alive, getBaseData, getData. by intros ->. Qed.

(** [setData], when it returns, leaves in [#data] the key-wise merge. *)
Lemma setData_data env d u u' :
  setData env d u = Some u' -> data u' = mergeData (data u) d.
Proof.
  unfold setData. intros H.
  destruct (u_flightData d); [|done]. destruct (u_baseData d); [|done].
  simplify_eq. case_match.
  - by rewrite data_updateVisibility, data_setSelected.
  - by rewrite data_setSelected.
Qed.

Lemma setData_returns env d u :
  carriesBaseAndFlight d -> is_Some (setData env d u).
Proof.
  intros [[bd Hb] [fd Hf]]. unfold setData. rewrite Hf, Hb. eauto.
Qed.

Lemma setData_throws env d u :
  ~ carriesBaseAndFlight d -> setData env d u = None.
Proof.
  intros H. unfold setData.
  destruct (u_flightData d) eqn:Hf; [|done].
  destruct (u_baseData d) eqn:Hb; [|done].
  destruct H. split; eauto.
Qed.

(** Frame: a key of a sub-record keeps its value unless the update holds
    that key in that sub-record, and a key the update holds takes the
    value sent. *)
Lemma setData_frame env d u u' s (k : string) :
  setData env d u = Some u' ->
  ~ hasField d s k ->
  sub s (data u') !! k = sub s (data u) !! k.
Proof.
  intros Hset Hno. rewrite (setData_data _ _ _ _ Hset), sub_mergeData, lookup_mergeSub.
  destruct (sub s (data u) !! k) as [old|] eqn:Hold; [|done]. simpl. f_equal.
  destruct (u_sub s d) as [o|] eqn:Ho; [|done]. simpl.
  destruct (o !! k) eqn:Hk; [|done].
  destruct Hno. exists o. eauto.
Qed.

Lemma setData_written env d u u' s o (k : string) v :
  setData env d u = Some u' ->
  u_sub s d = Some o -> o !! k = Some v ->
  is_Some (sub s (data u) !! k) ->
  sub s (data u') !! k = Some v.
Proof.
  intros Hset Ho Hk [old Hold].
  rewrite (setData_data _ _ _ _ Hset), sub_mergeData, lookup_mergeSub, Hold, Ho.
  simpl. by rewrite Hk.
Qed.

Lemma setSelected_cases b u :
  (setSelected b u = u) \/
  ((alive u = true \/ b = false) /\ selectable u = true /\
   selected (setSelected b u) = b /\ data (setSelected b u) = data u /\
   selectable (setSelected b u) = selectable u /\
   class (setSelected b u) = class u).
Proof.
  unfold setSelected, getSelectable, getSelected.
  destruct ((alive u || negb b) && selectable u && negb (Bool.eqb (selected u) b))
    eqn:Hc; [right|by left].
  apply andb_prop in Hc as [Hc _]. apply andb_prop in Hc as [Ha Hsel].
  repeat split; try done.
  apply orb_prop in Ha as [Ha|Ha]; [by left|right]. by destruct b.
Qed.

Lemma invariant_setSelected b u :
  selectionInvariant u -> selectionInvariant (setSelected b u).
Proof.
  intros Hs. destruct (setSelected_cases b u) as [->|(Ha & Hsl & Hb & Hd & Hsl' & _)];
    [done|].
  intros Hsel. rewrite Hb in Hsel. subst b.
  rewrite (alive_data _ _ Hd), Hsl'. by destruct Ha.
Qed.

Lemma invariant_setHidden h u :
  selectionInvariant u -> selectionInvariant (setHidden h u).
Proof. done. Qed.

(** The selection [setData] leaves: the old one, cleared when the unit
    is dead or hidden after the merge. *)
Lemma setData_selected env d u u' :
  selectionInvariant u ->
  setData env d u = Some u' ->
  selected u' = selected u && alive u' && negb (hidden u) /\
  selectable u' = selectable u /\ class u' = class u.
Proof.
  intros Hs H. unfold setData in H.
  destruct (u_flightData d); [|done]. destruct (u_baseData d); [|done].
  simplify_eq.
  set (u1 := withData (mergeData (data u) d) u).
  set (u2 := setSelected (getSelected u1 && alive u1 && negb (getHidden u1)) u1).
  assert (selected u2 = selected u && alive u1 && negb (hidden u) /\
          selectable u2 = selectable u /\ class u2 = class u /\
          alive u2 = alive u1) as (H2 & H2' & H2'' & Ha2).
  { subst u2. unfold setSelected, getSelectable, getSelected, getHidden.
    replace (selected u1) with (selected u) by done.
    replace (selectable u1) with (selectable u) by done.
    replace (hidden u1) with (hidden u) by done.
    destruct (selected u) eqn:Hsel; simpl.
    - destruct (Hs Hsel) as [_ Hsl]. rewrite Hsl.
      destruct (alive u1) eqn:Ha1, (hidden u) eqn:Hh; simpl;
        rewrite ?Hsel, ?Ha1, ?Hh; done.
    - rewrite andb_false_r. simpl. by rewrite Hsel. }
  assert (alive (updateVisibility env u2) = alive u2) as Hav by done.
  case_match; simpl; rewrite ?Hav, ?Ha2; done.
Qed.

Lemma invariant_setData env d u u' :
  selectionInvariant u -> setData env d u = Some u' -> selectionInvariant u'.
Proof.
  intros Hs H. destruct (setData_selected _ _ _ _ Hs H) as (Hsel & Hsl & _).
  intros Hu'. rewrite Hsel in Hu'.
  apply andb_prop in Hu' as [Hu' _]. apply andb_prop in Hu' as [Hu Ha].
  split; [done|]. rewrite Hsl. by apply Hs.
Qed.

Lemma construct_selected env cls id d u :
  construct env cls id d = Some u ->
  selected u = false /\ class u = cls /\
  selectable u = negb (isWeapon cls).
Proof.
  unfold construct. intros H.
  destruct (setData env d _) as [u1|] eqn:Hset; [|done]. simplify_eq.
  apply setData_selected in Hset as (Hsel & Hsl & Hc); [|done].
  simpl in *. by destruct (isWeapon cls).
Qed.

Lemma reachable_invariant u :
  reachable u ->
  selectionInvariant u /\ (isWeapon (class u) = true -> selectable u = false).
Proof.
  induction 1 as [env cls id d u Hc|env d u u' _ [IH IHw] Hset|b u _ [IH IHw]
                 |env u _ IH|h u _ IH|u _ [IH IHw]|u _ IH].
  - apply construct_selected in Hc as (Hsel & -> & Hsl).
    split; [intros ?; congruence|]. intros Hw. by rewrite Hsl, Hw.
  - split; [by eapply invariant_setData|].
    destruct (setData_selected _ _ _ _ IH Hset) as (_ & -> & ->). done.
  - split; [by apply invariant_setSelected|].
    destruct (setSelected_cases b u) as [->|(_ & _ & _ & _ & -> & ->)]; done.
  - done.
  - done.
  - split; [by apply invariant_setSelected|]. unfold onToggleVisibility.
    destruct (setSelected_cases (getSelected u && negb (getHidden u)) u)
      as [->|(_ & _ & _ & _ & -> & ->)]; done.
  - done.
Qed.

(** C5. A dead or non-selectable unit is never selected. For every state
    [u] a unit object can be in: [setSelected(true)] on a unit that is
    not alive, or on a Missile or Bomb, leaves [getSelected()] false; and
    when [setData] makes a selected, alive unit not alive, [getSelected()]
    is false afterwards. *)
Theorem dead_or_unselectable_never_selected u :
  reachable u ->
  (alive u = false -> getSelected (setSelected true u) = false) /\
  (isWeapon (class u) = true -> getSelected (setSelected true u) = false) /\
  (forall env d u',
     getSelected u = true -> alive u = true ->
     setData env d u = Some u' -> alive u' = false ->
     getSelected u' = false).
Proof.
  intros Hr. destruct (reachable_invariant u Hr) as [Hinv Hw].
  assert (selected u = true -> alive u = true /\ selectable u = true) as Hs by done.
  split; [|split].
  - intros Hdead. unfold getSelected, setSelected, getSelectable. rewrite Hdead. simpl.
    destruct (selected u) eqn:Hsel; [|done].
    destruct (Hs eq_refl). congruence.
  - intros Hweapon. unfold getSelected, setSelected, getSelectable.
    rewrite (Hw Hweapon), andb_false_r. simpl.
    destruct (selected u) eqn:Hsel; [|done].
    destruct (Hs eq_refl) as [_ Hsl]. rewrite (Hw Hweapon) in Hsl. done.
  - intros env d u' _ _ Hset Hdead. unfold getSelected.
    destruct (setData_selected _ _ _ _ Hinv Hset) as (-> & _).
    by rewrite Hdead, andb_false_r.
Qed.

(** C9. [updateVisibility] hides the unit exactly when [document.body]
    has the hide attribute of the unit's coalition, or the hide attribute
    of its marker category, or the unit is not alive. *)
Theorem updateVisibility_hidden env u :
  getHidden (updateVisibility env u) = true <->
  is_Some (bodyAttributes env !!
             ("data-hide-" +:+ toString (getProp (getMissionData u) "coalition"))) \/
  is_Some (bodyAttributes env !! ("data-hide-" +:+ getMarkerCategory env u)) \/
  alive u = false.
Proof.
  unfold updateVisibility, getHidden, setHidden. simpl.
  unfold coalitionHideFlag, categoryHideFlag, hasAttribute.
  rewrite !orb_true_iff, !bool_decide_eq_true, negb_true_iff. tauto.
Qed.

End UnitProperties.

(** * Partial updates of one unit *)

Section PartialUpdates.
Import Unit Examples.

Implicit Types (u : Unit) (d : UpdateData) (env : Env) (s : SubRecord).

Lemma UnitData_eq (a b : UnitData) :
  (forall s, sub s a = sub s b) -> a = b.
Proof.
  intros H. destruct a, b.
  pose proof (H BaseData). pose proof (H FlightData). pose proof (H MissionData).
  pose proof (H FormationData). pose proof (H TaskData). pose proof (H OptionsData).
  simpl in *. congruence.
Qed.

Lemma u_sub_joinUpdate s a b :
  u_sub s (joinUpdate a b) = joinSub (u_sub s a) (u_sub s b).
Proof. by destruct s. Qed.

(** Two calls in a row write what one call with the joined update
    writes. *)
Lemma mergeSub_join (cur : gmap string Value) a b :
  mergeSub (mergeSub cur a) b = mergeSub cur (joinSub a b).
Proof.
  apply map_eq. intros k. rewrite !lookup_mergeSub.
  destruct (cur !! k) as [old|]; [simpl; f_equal|done].
  destruct a as [x|], b as [y|]; simpl; try done.
  rewrite lookup_union. by destruct (y !! k), (x !! k).
Qed.

Lemma mergeData_join (cur : UnitData) a b :
  mergeData (mergeData cur a) b = mergeData cur (joinUpdate a b).
Proof.
  apply UnitData_eq. intros s.
  by rewrite !sub_mergeData, u_sub_joinUpdate, mergeSub_join.
Qed.

Lemma mergeData_empty (cur : UnitData) : mergeData cur emptyUpdate = cur.
Proof. by destruct cur. Qed.

Lemma foldl_mergeData_joined (cur : UnitData) acc ds :
  foldl mergeData (mergeData cur acc) ds = mergeData cur (foldl joinUpdate acc ds).
Proof.
  revert acc. induction ds as [|d ds IH]; intros acc; simpl; [done|].
  by rewrite mergeData_join, IH.
Qed.

Lemma foldl_mergeData_merged (cur : UnitData) ds :
  foldl mergeData cur ds = mergeData cur (mergedUpdate ds).
Proof.
  unfold mergedUpdate. rewrite <- foldl_mergeData_joined. by rewrite mergeData_empty.
Qed.

(** Disjoint updates commute. *)
Lemma mergeData_comm (cur : UnitData) a b :
  disjointUpdates a b ->
  mergeData (mergeData cur a) b = mergeData (mergeData cur b) a.
Proof.
  intros Hd. apply UnitData_eq. intros s. rewrite !sub_mergeData.
  apply map_eq. intros k. rewrite !lookup_mergeSub.
  destruct (sub s cur !! k) as [old|]; [simpl; f_equal|done].
  destruct (u_sub s a) as [x|] eqn:Ha, (u_sub s b) as [y|] eqn:Hb; simpl; try done.
  destruct (x !! k) eqn:Hx, (y !! k) eqn:Hy; simpl; try done.
  destruct (Hd s k); [exists x|exists y]; eauto.
Qed.

Lemma disjointUpdates_sym a b : disjointUpdates a b -> disjointUpdates b a.
Proof. intros H s k ??. by apply (H s k). Qed.

Lemma pairwiseDisjoint_Permutation ds ds' :
  ds ≡ₚ ds' -> pairwiseDisjoint ds -> pairwiseDisjoint ds'.
Proof.
  induction 1 as [|x l1 l2 Hp IH|x y l|l1 l2 l3 _ IH1 _ IH2]; simpl.
  - done.
  - intros [Hx Hl]. split; [by rewrite <- Hp|auto].
  - intros [Hy [Hx Hl]]. apply Forall_cons in Hy as [Hyx Hy].
    repeat split; try done. constructor; [by apply disjointUpdates_sym|done].
  - auto.
Qed.

Lemma foldl_mergeData_Permutation ds ds' :
  ds ≡ₚ ds' -> pairwiseDisjoint ds ->
  forall cur : UnitData, foldl mergeData cur ds = foldl mergeData cur ds'.
Proof.
  induction 1 as [|x l1 l2 Hp IH|x y l|l1 l2 l3 Hp1 IH1 _ IH2]; simpl.
  - done.
  - intros [_ Hl] cur. by apply IH.
  - intros [Hy _] cur. apply Forall_cons in Hy as [Hyx _].
    by rewrite (mergeData_comm cur y x).
  - intros Hl cur. rewrite IH1 by done. apply IH2.
    by eapply pairwiseDisjoint_Permutation.
Qed.

Lemma afterSetData_data env d u :
  carriesBaseAndFlight d ->
  data (afterSetData env u d) = mergeData (data u) d.
Proof.
  intros Hc. unfold afterSetData.
  destruct (setData_returns env d u Hc) as [u' Hu']. rewrite Hu'. simpl.
  by eapply setData_data.
Qed.

Lemma afterAll_data env ds u :
  Forall carriesBaseAndFlight ds ->
  data (afterAll env ds u) = foldl mergeData (data u) ds.
Proof.
  unfold afterAll. revert u. induction ds as [|d ds IH]; intros u Hc; simpl; [done|].
  apply Forall_cons in Hc as [Hd Hc].
  by rewrite IH, afterSetData_data.
Qed.

Lemma joinSub_is_Some a b : is_Some b -> is_Some (joinSub a b).
Proof. intros [y ->]. destruct a; simpl; eauto. Qed.

Lemma joinSub_is_Some_l a b : is_Some a -> is_Some (joinSub a b).
Proof. intros [x ->]. destruct b; simpl; eauto. Qed.

Lemma foldl_joinUpdate_carries acc ds :
  carriesBaseAndFlight acc ->
  carriesBaseAndFlight (foldl joinUpdate acc ds).
Proof.
  revert acc. induction ds as [|d ds IH]; intros acc Ha; simpl; [done|].
  apply IH. destruct Ha as [??]. split; simpl; by apply joinSub_is_Some_l.
Qed.

Lemma mergedUpdate_carries ds :
  Forall carriesBaseAndFlight ds -> ds <> [] ->
  carriesBaseAndFlight (mergedUpdate ds).
Proof.
  unfold mergedUpdate. intros Hc Hne.
  destruct ds as [|d ds]; [done|]. simpl.
  apply Forall_cons in Hc as [[Hb Hf] Hc].
  apply foldl_joinUpdate_carries. by split.
Qed.

(** For updates that all carry the base and flight sub-records and whose
    field sets are pairwise disjoint, applying them one at a time in any
    order leaves the same [#data] as the one merged update. *)
Lemma disjoint_updates_order_independent env u ds ds' :
  Forall carriesBaseAndFlight ds -> ds <> [] ->
  pairwiseDisjoint ds -> ds ≡ₚ ds' ->
  data (afterAll env ds' u) = data (afterSetData env u (mergedUpdate ds)).
Proof.
  intros Hc Hne Hd Hp.
  rewrite afterAll_data by (by rewrite <- Hp).
  rewrite afterSetData_data by (by apply mergedUpdate_carries).
  rewrite <- (foldl_mergeData_Permutation ds ds') by done.
  apply foldl_mergeData_merged.
Qed.

(** With the two sub-records there, an update that holds only a fuel
    value sets the fuel and leaves every other field as it was. *)
Lemma fuel_update_with_base_and_flight env u v :
  is_Some (getMissionData u !! "fuel") ->
  exists u', setData env (fuelWithEmptyBaseAndFlight v) u = Some u' /\
    getMissionData u' !! "fuel" = Some (VNum v) /\
    forall s (k : string), (s, k) <> (MissionData, "fuel") ->
      sub s (data u') !! k = sub s (data u) !! k.
Proof.
  intros Hfuel.
  destruct (setData_returns env (fuelWithEmptyBaseAndFlight v) u) as [u' Hu'].
  { split; simpl; eauto. }
  exists u'. split; [done|]. split.
  - apply (setData_written env _ u u' MissionData {[ "fuel" := VNum v ]} "fuel" _ Hu');
      [done| |done].
    by rewrite lookup_singleton_eq.
  - intros s k Hne. apply (setData_frame _ _ _ _ _ _ Hu').
    intros (o & Ho & [w Hw]). destruct s; simpl in Ho; simplify_eq;
      try by rewrite lookup_empty in Hw.
    apply lookup_singleton_Some in Hw as [<- _]. done.
Qed.

(** C3, at the update [{missionData: {fuel: 10}}] on a unit with fuel
    50: the change detection of [setData] reads [data.flightData.latitude]
    with no [flightData] in the update, the call throws before the merge,
    and the fuel is still 50. *)
Theorem fuel_only_update_throws :
  exists u5,
    construct noEnv Aircraft 5 (fuelWithEmptyBaseAndFlight 50) = Some u5 /\
    getProp (getMissionData u5) "fuel" = VNum 50 /\
    setData noEnv (fuelOnly 10) u5 = None /\
    getProp (getMissionData (afterSetData noEnv u5 (fuelOnly 10))) "fuel" = VNum 50.
Proof.
  eexists. split; [reflexivity|]. split; [by vm_compute|]. split; [done|by vm_compute].
Qed.

(** C4, at the disjoint updates [{baseData: {}, flightData: {},
    missionData: {fuel: 10}}] and [{taskData: {targetSpeed: 5}}] on a
    fresh unit: the second call throws when the two are applied one at a
    time, so the target speed stays 0, while the merged update sets it
    to 5. *)
Theorem disjoint_updates_differ_from_merged :
  let a := fuelWithEmptyBaseAndFlight 10 in
  let b := targetSpeedOnly 5 in
  let u := fresh Aircraft 7 in
  pairwiseDisjoint [a; b] /\
  setData noEnv b (afterSetData noEnv u a) = None /\
  getProp (getTaskData (afterAll noEnv [a; b] u)) "targetSpeed" = VNum 0 /\
  getProp (getTaskData (afterSetData noEnv u (mergedUpdate [a; b]))) "targetSpeed"
    = VNum 5 /\
  data (afterAll noEnv [a; b] u) <> data (afterSetData noEnv u (mergedUpdate [a; b])).
Proof.
  simpl. split; [|split; [|split; [|split]]].
  - repeat split; try done. constructor; [|done].
    intros s k (o1 & H1 & [v1 Hv1]) (o2 & H2 & [v2 Hv2]).
    destruct s; simpl in *; simplify_eq.
  - done.
  - by vm_compute.
  - by vm_compute.
  - intros Heq.
    apply (f_equal (fun x => getProp (taskData x) "targetSpeed")) in Heq.
    vm_compute in Heq. discriminate.
Qed.

End PartialUpdates.

(** * The decode loop of the units manager *)

Section DecodeLoop.
Import UnitsManager.

Implicit Types (ctx : Context) (m : Manager) (e : DataExtractor.t) (id : N).

Lemma readBytes_advances n e bs e' :
  DataExtractor.readBytes n e = Some (bs, e') ->
  e' = DataExtractor.advance n e /\ length bs = n.
Proof.
  unfold DataExtractor.readBytes. case_decide; [|done]. by intros [= <- <-].
Qed.

Lemma extractUInt_advances w e v e' :
  DataExtractor.extractUInt w e = Some (v, e') -> e' = DataExtractor.advance w e.
Proof.
  unfold DataExtractor.extractUInt.
  destruct (DataExtractor.readBytes w e) as [[bs e1]|] eqn:Hr; [|done].
  intros [= <- <-]. by apply readBytes_advances in Hr as [-> _].
Qed.

Lemma extractString_advances e str e' :
  DataExtractor.extractString e = Some (str, e') ->
  DataExtractor.buffer e' = DataExtractor.buffer e /\
  (DataExtractor.seekPosition e + 2 <= DataExtractor.seekPosition e')%nat.
Proof.
  unfold DataExtractor.extractString, DataExtractor.extractUInt16.
  destruct (DataExtractor.extractUInt 2 e) as [[len e1]|] eqn:H1; [|done].
  destruct (DataExtractor.readBytes _ e1) as [[bs e2]|] eqn:H2; [|done].
  intros [= <- <-]. apply extractUInt_advances in H1 as ->.
  apply readBytes_advances in H2 as [-> _]. simpl. split; [done|lia].
Qed.

Lemma applySetData_advances ctx id m e m' e' :
  applySetData ctx id m e = Continue m' e' ->
  DataExtractor.buffer e' = DataExtractor.buffer e /\
  (DataExtractor.seekPosition e <= DataExtractor.seekPosition e')%nat.
Proof.
  unfold applySetData. destruct (units m !! id) as [u|].
  - destruct (setData ctx (fields u) e) as [[f ev] [n|]]; [|done].
    intros [= <- <-]. simpl. split; [done|lia].
  - by intros [= <- <-].
Qed.

(** A pass that goes back to the loop test has read at least the four
    bytes of a unit ID. *)
Lemma decodeStep_advances ctx m e m' e' :
  decodeStep ctx m e = Continue m' e' ->
  DataExtractor.buffer e' = DataExtractor.buffer e /\
  (DataExtractor.seekPosition e + 4 <= DataExtractor.seekPosition e')%nat.
Proof.
  unfold decodeStep. case_decide; [|done].
  destruct (DataExtractor.extractUInt32 e) as [[id e1]|] eqn:H1; [|done].
  apply extractUInt_advances in H1 as ->.
  case_decide.
  - intros [Hb Hs]%applySetData_advances. simpl in *. split; [done|lia].
  - destruct (DataExtractor.extractUInt8 _) as [[tag e2]|] eqn:H2; [|done].
    apply extractUInt_advances in H2 as ->.
    case_match; [|done].
    destruct (DataExtractor.extractString _) as [[cat e3]|] eqn:H3; [|done].
    apply extractString_advances in H3 as [Hb3 Hs3].
    intros [Hb Hs]%applySetData_advances. simpl in *. split; [congruence|lia].
Qed.

(** The loop ends: fuel above the number of unread bytes covers it. *)
Lemma decodeLoop_total ctx fuel m e :
  (DataExtractor.byteLength e - DataExtractor.seekPosition e < fuel)%nat ->
  is_Some (decodeLoop ctx fuel m e).
Proof.
  revert m e. induction fuel as [|fuel IH]; intros m e Hf; [lia|]. simpl.
  destruct (decodeStep ctx m e) as [m' e'| | |] eqn:Hs; eauto.
  apply IH. pose proof Hs as [Hb Hp]%decodeStep_advances.
  unfold decodeStep in Hs. case_decide; [|done].
  unfold DataExtractor.byteLength, DataExtractor.getSeekPosition in *.
  rewrite Hb. lia.
Qed.

Lemma decodeLoop_more_fuel ctx fuel fuel' m e r :
  decodeLoop ctx fuel m e = Some r -> (fuel <= fuel')%nat ->
  decodeLoop ctx fuel' m e = Some r.
Proof.
  revert fuel' m e. induction fuel as [|fuel IH]; intros fuel' m e H Hle; [done|].
  destruct fuel' as [|fuel']; [lia|]. simpl in *.
  destruct (decodeStep ctx m e); try done. apply IH; [done|lia].
Qed.

Lemma reaches_buffer ctx m e m' e' :
  reaches ctx m e m' e' -> DataExtractor.buffer e' = DataExtractor.buffer e.
Proof.
  induction 1 as [|m e m1 e1 m' e' Hs _ IH]; [done|].
  apply decodeStep_advances in Hs as [Hb _]. congruence.
Qed.

(** The loop run from a state it reaches ends as the loop run from the
    start. *)
Lemma reaches_decodeLoop ctx m e m' e' fuel r :
  reaches ctx m e m' e' ->
  decodeLoop ctx fuel m' e' = Some r ->
  exists fuel0, decodeLoop ctx fuel0 m e = Some r.
Proof.
  induction 1 as [|m e m1 e1 m' e' Hs _ IH]; intros Hl; [eauto|].
  destruct (IH Hl) as [fuel0 H0]. exists (S fuel0). simpl. by rewrite Hs.
Qed.

Lemma decodeLoop_from_reached ctx m e m' e' fuel r :
  reaches ctx m e m' e' ->
  decodeLoop ctx 1 m' e' = Some r ->
  (DataExtractor.byteLength e - DataExtractor.seekPosition e < fuel)%nat ->
  decodeLoop ctx fuel m e = Some r.
Proof.
  intros Hr Hl Hf.
  destruct (reaches_decodeLoop _ _ _ _ _ _ _ Hr Hl) as [fuel0 H0].
  destruct (decodeLoop_total ctx fuel m e Hf) as [r' Hr'].
  destruct (decide (fuel <= fuel0)%nat).
  - rewrite (decodeLoop_more_fuel _ _ _ _ _ _ Hr') in H0 by done. congruence.
  - apply (decodeLoop_more_fuel _ fuel0); [done|lia].
Qed.

Lemma extractUInt64_new buf t e :
  DataExtractor.extractUInt64 (DataExtractor.new buf) = Some (t, e) ->
  DataExtractor.buffer e = buf /\ DataExtractor.seekPosition e = 8%nat.
Proof. intros ->%extractUInt_advances. done. Qed.

(** [update] always comes to an end: the outcome is a return or a
    throw. *)
Lemma update_terminates ctx a buf m : is_Some (outcome (update ctx a buf m)).
Proof.
  unfold update.
  destruct (DataExtractor.extractUInt64 _) as [[t e]|] eqn:Ht; [|by eauto].
  apply extractUInt64_new in Ht as [Hb Hs].
  destruct (decodeLoop_total ctx (S (length buf)) m e) as [r Hr].
  { unfold DataExtractor.byteLength. rewrite Hb, Hs. lia. }
  rewrite Hr. destruct r as [m1|m1|m1]; simpl; eauto.
  destruct (assignGroups m1) as [m2|m2]; simpl; eauto.
  destruct (deriveDetection ctx a m2). simpl. eauto.
Qed.

(** C1. When the decode loop, after any number of complete passes, reads
    an ID that is not in the units table and the field tag that follows
    is not the category tag, [update] returns at once with the time read
    at the start; the manager is left as those passes made it: no unit
    under the new ID, no group assignment, no detection pass. *)
Theorem abort_on_unknown_id_without_category
    ctx a buf m t e0 m1 e1 id e2 tag e3 :
  DataExtractor.extractUInt64 (DataExtractor.new buf) = Some (t, e0) ->
  reaches ctx m e0 m1 e1 ->
  (DataExtractor.getSeekPosition e1 < DataExtractor.byteLength e1)%nat ->
  DataExtractor.extractUInt32 e1 = Some (id, e2) ->
  units m1 !! id = None ->
  DataExtractor.extractUInt8 e2 = Some (tag, e3) ->
  tag <> DataIndexes_category ctx ->
  update ctx a buf m =
    {| outcome := Some (Returned (Number t)); manager := m1; app := a |} /\
  units (manager (update ctx a buf m)) !! id = None.
Proof.
  intros Ht Hr Hlt Hid Hnew Htag Hne.
  assert (decodeStep ctx m1 e1 = Abort m1) as Hstep.
  { unfold decodeStep. rewrite decide_True by done. rewrite Hid.
    rewrite decide_False by (rewrite Hnew; by intros [??]).
    rewrite Htag. by apply N.eqb_neq in Hne as ->. }
  assert (update ctx a buf m =
            {| outcome := Some (Returned (Number t)); manager := m1; app := a |}) as Hu.
  { unfold update. rewrite Ht.
    rewrite (decodeLoop_from_reached ctx m e0 m1 e1 _ (Aborted m1)); [done|done| |].
    - simpl. by rewrite Hstep.
    - apply extractUInt64_new in Ht as [Hb Hs].
      unfold DataExtractor.byteLength. rewrite Hb, Hs. lia. }
  split; [done|]. by rewrite Hu.
Qed.

(** When the loop reads a new ID followed by the category tag and a
    category string no constructor exists for, no unit is created and
    [setData] is not called: the pass leaves the manager as it was, and
    the loop goes on from the byte after the category string, whatever
    that byte belongs to. *)
Lemma unknown_category_skipped ctx m e id e1 tag e2 cat e3 fuel :
  (DataExtractor.getSeekPosition e < DataExtractor.byteLength e)%nat ->
  DataExtractor.extractUInt32 e = Some (id, e1) ->
  units m !! id = None ->
  DataExtractor.extractUInt8 e1 = Some (tag, e2) ->
  tag = DataIndexes_category ctx ->
  DataExtractor.extractString e2 = Some (cat, e3) ->
  Unit.getConstructor cat = None ->
  addUnit ctx id cat m = m /\
  decodeStep ctx m e = Continue m e3 /\
  reaches ctx m e m e3 /\
  decodeLoop ctx (S fuel) m e = decodeLoop ctx fuel m e3.
Proof.
  intros Hlt Hid Hnew Htag -> Hcat Hctor.
  assert (addUnit ctx id cat m = m) as Hadd.
  { unfold addUnit. rewrite Hctor. by case_match. }
  assert (decodeStep ctx m e = Continue m e3) as Hstep.
  { unfold decodeStep. rewrite decide_True by done. rewrite Hid.
    rewrite decide_False by (rewrite Hnew; by intros [??]).
    rewrite Htag, N.eqb_refl, Hcat, Hadd.
    unfold applySetData. by rewrite Hnew. }
  repeat split; try done.
  - eapply reaches_pass; [done|constructor].
  - simpl. by rewrite Hstep.
Qed.

End DecodeLoop.

(** * Group assignment *)

Section Groups.
Import UnitsManager.

Implicit Types (ctx : Context) (m : Manager) (e : DataExtractor.t) (id : N).

Lemma decodedFrom_refl m : decodedFrom m m.
Proof. repeat split; [eauto|congruence|congruence]. Qed.

Lemma decodedFrom_trans m1 m2 m3 :
  decodedFrom m1 m2 -> decodedFrom m2 m3 -> decodedFrom m1 m3.
Proof.
  intros (Hg1 & Hold1 & Hnew1) (Hg2 & Hold2 & Hnew2). split; [congruence|]. split.
  - intros id u Hu. destruct (Hold1 _ _ Hu) as (u' & Hu' & Hgr & Hdm).
    destruct (Hold2 _ _ Hu') as (u'' & Hu'' & Hgr' & Hdm').
    exists u''. repeat split; congruence.
  - intros id u3 Hu3 Hnone. destruct (units m2 !! id) as [u2|] eqn:Hu2.
    + destruct (Hnew1 _ _ Hu2 Hnone) as [Hgr Hdm].
      destruct (Hold2 _ _ Hu2) as (u' & Hu' & Hgr' & Hdm').
      simplify_eq. split; congruence.
    + by apply (Hnew2 id).
Qed.

Lemma addUnit_decodedFrom ctx id cat m :
  units m !! id = None -> decodedFrom m (addUnit ctx id cat m).
Proof.
  intros Hnone. unfold addUnit.
  case_match; [|apply decodedFrom_refl].
  destruct (Unit.getConstructor cat) as [cls|]; [|apply decodedFrom_refl].
  split; [done|]. split; simpl.
  - intros j u Hu. exists u. rewrite lookup_insert_ne; [done|congruence].
  - intros j u' Hu' Hj. destruct (decide (id = j)) as [->|Hne].
    + rewrite lookup_insert_eq in Hu'. by simplify_eq.
    + rewrite lookup_insert_ne in Hu' by done. congruence.
Qed.

Lemma applySetData_decodedFrom ctx id m e :
  decodedFrom m (stepManager (applySetData ctx id m e)).
Proof.
  unfold applySetData. destruct (units m !! id) as [u|] eqn:Hu;
    [|apply decodedFrom_refl].
  destruct (setData ctx (fields u) e) as [[f ev] taken].
  assert (decodedFrom m
            {| units := <[id := withFields f u]> (units m); groups := groups m;
               requestDetectionUpdate := requestDetectionUpdate m || ev |}) as H.
  { split; [done|]. split; simpl.
    - intros j u0 Hu0. destruct (decide (id = j)) as [->|Hne].
      + rewrite lookup_insert_eq. simplify_eq. eexists. by split.
      + rewrite lookup_insert_ne by done. by exists u0.
    - intros j u' Hu' Hj. destruct (decide (id = j)) as [->|Hne]; [congruence|].
      rewrite lookup_insert_ne in Hu' by done. congruence. }
  by destruct taken.
Qed.

Lemma decodeStep_decodedFrom ctx m e :
  decodedFrom m (stepManager (decodeStep ctx m e)).
Proof.
  unfold decodeStep. case_decide; [|apply decodedFrom_refl].
  destruct (DataExtractor.extractUInt32 e) as [[id e1]|]; [|apply decodedFrom_refl].
  case_decide as Hin; [apply applySetData_decodedFrom|].
  destruct (DataExtractor.extractUInt8 e1) as [[tag e2]|]; [|apply decodedFrom_refl].
  case_match; [|apply decodedFrom_refl].
  destruct (DataExtractor.extractString e2) as [[cat e3]|]; [|apply decodedFrom_refl].
  eapply decodedFrom_trans; [|apply applySetData_decodedFrom].
  apply addUnit_decodedFrom. destruct (units m !! id) eqn:Hu; [|done].
  destruct Hin. eauto.
Qed.

Lemma decodeLoop_decodedFrom ctx fuel m e r :
  decodeLoop ctx fuel m e = Some r -> decodedFrom m (endManager r).
Proof.
  revert m e. induction fuel as [|fuel IH]; intros m e H; [done|]. simpl in H.
  pose proof (decodeStep_decodedFrom ctx m e) as Hd.
  destruct (decodeStep ctx m e) as [m' e'|m'|m'|m']; simpl in Hd; simplify_eq;
    try done.
  eapply decodedFrom_trans; [done|]. by eapply IH.
Qed.

(** The group loop, unit by unit. *)
Lemma assigned_fields u : fields (assigned u) = fields u.
Proof. unfold assigned. by case_match. Qed.


Lemma assigned_idemp u : assigned (assigned u) = assigned u.
Proof.
  unfold assigned at 2 3.
  destruct (negb _ && bool_decide _) eqn:Hc; [|unfold assigned; by rewrite Hc].
  unfold assigned, getGroupName, getGroup. simpl.
  by rewrite andb_false_r.
Qed.

Lemma assigned_group u :
  getGroup (assigned u) =
  match getGroup u with
  | Some g => Some g
  | None => if String.eqb (getGroupName u) EmptyString then None
            else Some (getGroupName u)
  end.
Proof.
  unfold assigned, getGroup. destruct (group u) as [g|] eqn:Hg; simpl.
  - by rewrite andb_false_r.
  - rewrite andb_true_r. by destruct (String.eqb _ _).
Qed.

Lemma inherited_not_hasKey {A} (k : string) (table : gmap string A) :
  hasKey k table = false -> table !! k = None /\ inherited k = false.
Proof.
  unfold hasKey. intros [Hown Hinh]%orb_false_iff. split; [|done].
  apply bool_decide_eq_false in Hown. by apply eq_None_not_Some.
Qed.

Lemma memberOf_insert_new m g0 g x us rq :
  groups m !! g0 = None ->
  memberOf {| units := us; groups := <[g0 := newGroup g0]> (groups m);
              requestDetectionUpdate := rq |} g x <-> memberOf m g x.
Proof.
  intros Hnone. unfold memberOf. simpl. split; intros (G & HG & Hx).
  - destruct (decide (g0 = g)) as [->|Hne].
    + rewrite lookup_insert_eq in HG. simplify_eq. simpl in Hx.
      by apply elem_of_nil in Hx.
    + rewrite lookup_insert_ne in HG by done. eauto.
  - exists G. split; [|done]. rewrite lookup_insert_ne; [done|congruence].
Qed.

Lemma memberOf_addMember m g0 id g x :
  is_Some (groups m !! g0) ->
  memberOf (addMember g0 id m) g x <-> memberOf m g x \/ (g = g0 /\ x = id).
Proof.
  intros [G0 HG0]. unfold memberOf, addMember. simpl. split.
  - intros (G & HG & Hx). rewrite lookup_alter in HG.
    destruct (decide (g0 = g)) as [->|Hne].
    + rewrite HG0 in HG. simpl in HG. simplify_eq. simpl in Hx.
      apply elem_of_app in Hx as [Hx|Hx%list_elem_of_singleton]; [left|right]; eauto.
    + left. eauto.
  - intros [(G & HG & Hx)|[-> ->]].
    + rewrite lookup_alter. destruct (decide (g0 = g)) as [->|Hne].
      * rewrite HG. simpl. eexists. split; [done|]. simpl.
        apply elem_of_app. by left.
      * eauto.
    + rewrite lookup_alter, decide_True by done. rewrite HG0. simpl.
      eexists. split; [done|]. simpl. apply elem_of_app. right.
      by apply list_elem_of_singleton.
Qed.

(** One pass of the group loop: it throws exactly for a unit that
    [throwsAt] describes, and leaves the manager as it was; otherwise
    the unit is assigned. *)
Lemma assigned_grouped u gr : getGroup u = Some gr -> assigned u = u.
Proof.
  intros Hgr. unfold assigned. rewrite Hgr, bool_decide_eq_false_2 by done.
  by rewrite andb_false_r.
Qed.

Lemma assigned_unnamed u : getGroupName u = EmptyString -> assigned u = u.
Proof. intros Hn. unfold assigned. by rewrite Hn. Qed.

Lemma alter_assigned_same m id u :
  units m !! id = Some u -> assigned u = u -> units m = alter assigned id (units m).
Proof.
  intros Hu Ha. symmetry. apply alter_id. intros u' Hu'. rewrite Hu in Hu'.
  by injection Hu' as <-.
Qed.

Lemma groupStep_spec m id :
  (throwsAt m id /\ groupStep m id = GroupThrew m) \/
  (~ throwsAt m id /\
   exists m', groupStep m id = Grouped m' /\
     units m' = alter assigned id (units m) /\
     requestDetectionUpdate m' = requestDetectionUpdate m /\
     (forall g x, memberOf m' g x <-> memberOf m g x \/ (x = id /\ joins m g id)) /\
     (forall k : string, inherited k = true ->
        (groups m' !! k = None <-> groups m !! k = None))).
Proof.
  unfold groupStep, throwsAt, joins. destruct (units m !! id) as [u|] eqn:Hu.
  2:{ right. split; [by intros (u & ? & _)|]. exists m. split; [done|].
      split; [symmetry; apply alter_id; congruence|]. split; [done|].
      split; [|done]. intros g x. split; [by left|].
      intros [?|[_ (u & ? & _)]]; [done|congruence]. }
  destruct (String.eqb (getGroupName u) EmptyString) eqn:Hn; simpl.
  { apply String.eqb_eq in Hn. right.
    split; [intros (u' & ? & Hne & _); by simplify_eq|].
    exists m. split; [done|].
    split; [by apply (alter_assigned_same m id u), assigned_unnamed|].
    split; [done|]. split; [|done]. intros g x. split; [by left|].
    intros [?|[_ (u' & ? & <- & Hne & _)]]; [done|]. simplify_eq. }
  pose proof Hn as Hn'. apply String.eqb_neq in Hn.
  destruct (hasKey (getGroupName u) (groups m)) eqn:Hkey.
  - (* the name is in the table: no group is created *)
    destruct (getGroup u) as [gr|] eqn:Hgr.
    + right. split; [intros (u' & ? & _ & ? & _); simplify_eq; congruence|].
      exists m. split; [done|].
      split; [apply (alter_assigned_same m id u Hu), (assigned_grouped u gr Hgr)|].
      split; [done|]. split; [|done]. intros g x. split; [by left|].
      intros [?|[_ (u' & ? & _ & _ & ?)]]; [done|]. simplify_eq; congruence.
    + destruct (groups m !! getGroupName u) as [G|] eqn:HG.
      * right. split; [intros (u' & ? & _ & _ & ? & _); simplify_eq; congruence|].
        eexists. split; [done|]. split.
        { simpl. apply map_eq. intros j. rewrite !lookup_alter.
          destruct (decide (id = j)) as [->|]; [|done]. rewrite Hu. simpl.
          unfold assigned. by rewrite Hn', Hgr. }
        split; [done|]. split.
        { intros g x. rewrite memberOf_addMember by eauto.
          split; (intros [?|H]; [by left|right]).
          - destruct H as [-> ->]. split; [done|]. by exists u.
          - destruct H as [-> (u' & ? & <- & _)]. by simplify_eq. }
        intros k _. unfold addMember. simpl. rewrite lookup_alter.
        destruct (decide (getGroupName u = k)) as [<-|]; [|done].
        rewrite HG. done.
      * left. split; [|done]. exists u. do 4 (split; [done|]).
        unfold hasKey in Hkey. rewrite HG in Hkey.
        rewrite bool_decide_eq_false_2 in Hkey by (by intros [? ?]). done.
  - (* the group is created *)
    apply inherited_not_hasKey in Hkey as [HG Hinh].
    right. split; [intros (u' & ? & _ & _ & _ & ?); simplify_eq; congruence|].
    destruct (getGroup u) as [gr|] eqn:Hgr.
    + eexists. split; [done|].
      split; [apply (alter_assigned_same m id u Hu), (assigned_grouped u gr Hgr)|].
      split; [done|]. split.
      * intros g x. rewrite memberOf_insert_new by done. split; [by left|].
        intros [?|[_ (u' & ? & _ & _ & ?)]]; [done|]. simplify_eq; congruence.
      * intros k Hk. simpl. rewrite lookup_insert_ne; [done|]. congruence.
    + simpl. rewrite lookup_insert_eq. eexists. split; [done|]. split.
      { simpl. apply map_eq. intros j. rewrite !lookup_alter.
        destruct (decide (id = j)) as [->|]; [|done]. rewrite Hu. simpl.
        unfold assigned. by rewrite Hn', Hgr. }
      split; [done|]. split.
      { intros g x. rewrite memberOf_addMember by (simpl; rewrite lookup_insert_eq; eauto).
        rewrite memberOf_insert_new by done.
        split; (intros [?|H]; [by left|right]).
        - destruct H as [-> ->]. split; [done|]. by exists u.
        - destruct H as [-> (u' & ? & <- & _)]. by simplify_eq. }
      intros k Hk. unfold addMember. simpl. rewrite lookup_alter_ne by congruence.
      rewrite lookup_insert_ne; [done|]. congruence.
Qed.

Lemma groupedFrom_refl m : groupedFrom m m.
Proof. split; [done|]. split; [by left|]. split; [done|]. by left. Qed.

Lemma groupedFrom_trans m1 m2 m3 :
  groupedFrom m1 m2 -> groupedFrom m2 m3 -> groupedFrom m1 m3.
Proof.
  intros (Hr1 & Hu1 & Hk1 & Hn1) (Hr2 & Hu2 & Hk2 & Hn2).
  split; [congruence|]. split; [|split].
  - intros j. destruct (Hu1 j) as [E1|E1], (Hu2 j) as [E2|E2]; rewrite E2, E1.
    + by left.
    + by right.
    + by right.
    + right. destruct (units m1 !! j); simpl; [|done]. by rewrite assigned_idemp.
  - intros g x Hm. by apply Hk2, Hk1.
  - intros g x [Hm|Hj]%Hn2; [by apply Hn1|]. right.
    destruct Hj as (u2 & Hu & Hname & Hne & Hgr).
    destruct (Hu1 x) as [E|E]; rewrite E in Hu.
    + by exists u2.
    + destruct (units m1 !! x) as [u1|]; [|done]. simpl in Hu. simplify_eq.
      exfalso. rewrite assigned_group in Hgr. unfold getGroupName in Hne.
      rewrite assigned_fields in Hne.
      destruct (getGroup u1); [done|].
      destruct (String.eqb (getGroupName u1) EmptyString) eqn:E0; [|done].
      by apply String.eqb_eq in E0.
Qed.

Lemma groupStep_groupedFrom m id : groupedFrom m (groupManager (groupStep m id)).
Proof.
  destruct (groupStep_spec m id) as [[_ ->]|(_ & m' & -> & Hu & Hr & Hm & _)];
    [apply groupedFrom_refl|]. simpl.
  split; [done|]. split; [|split].
  - intros j. rewrite Hu, lookup_alter.
    destruct (decide (id = j)) as [->|]; [by right|by left].
  - intros g x ?. apply Hm. by left.
  - intros g x [?|[-> ?]]%Hm; [by left|by right].
Qed.

Lemma groupLoop_groupedFrom ids m : groupedFrom m (groupManager (groupLoop m ids)).
Proof.
  revert m. induction ids as [|id ids IH]; intros m; [apply groupedFrom_refl|].
  simpl. pose proof (groupStep_groupedFrom m id) as Hs.
  destruct (groupStep m id) as [m'|m']; [|done].
  eapply groupedFrom_trans; [exact Hs|apply IH].
Qed.

Lemma throwsAt_step m m' id x :
  x <> id ->
  units m' = alter assigned id (units m) ->
  (forall k : string, inherited k = true ->
     (groups m' !! k = None <-> groups m !! k = None)) ->
  throwsAt m' x <-> throwsAt m x.
Proof.
  intros Hne Hu Hk. unfold throwsAt. rewrite Hu, lookup_alter_ne by done.
  split; intros (u & ? & ? & ? & HG & Hi); exists u; do 3 (split; [done|]);
    (split; [|done]); by apply (Hk _ Hi).
Qed.

Lemma joins_step m m' id g x :
  x <> id -> units m' = alter assigned id (units m) ->
  joins m' g x <-> joins m g x.
Proof. intros Hne Hu. unfold joins. by rewrite Hu, lookup_alter_ne. Qed.

(** The group loop over keys without repetition: it throws exactly when
    one of the units throws, and otherwise assigns every unit. *)
Lemma groupLoop_spec ids m :
  NoDup ids ->
  ((exists x, x ∈ ids /\ throwsAt m x) /\ exists m', groupLoop m ids = GroupThrew m') \/
  ((forall x, x ∈ ids -> ~ throwsAt m x) /\
   exists m', groupLoop m ids = Grouped m' /\
     (forall j, units m' !! j =
                if decide (j ∈ ids) then assigned <$> units m !! j else units m !! j) /\
     (forall g x, memberOf m' g x <-> memberOf m g x \/ (x ∈ ids /\ joins m g x))).
Proof.
  revert m. induction ids as [|id ids IH]; intros m Hnd.
  { right. split; [by intros x ?%elem_of_nil|]. exists m. split; [done|].
    split; [done|]. intros g x. split; [by left|].
    intros [?|[?%elem_of_nil _]]; done. }
  apply NoDup_cons in Hnd as [Hid Hnd]. simpl.
  destruct (groupStep_spec m id) as [[Hthr ->]|(Hok & m1 & -> & Hu & _ & Hm & Hk)].
  { left. split; [|eauto]. exists id. split; [apply list_elem_of_here|done]. }
  assert (forall x, x ∈ ids -> x <> id) as Hne by (intros x Hx ->; done).
  destruct (IH m1 Hnd) as [[(x & Hx & Hthr) Hex]|(Hall & m' & -> & Hu' & Hm')].
  - left. split; [|done]. exists x. split; [by apply elem_of_cons; right|].
    by apply (proj1 (throwsAt_step m m1 id x (Hne x Hx) Hu Hk)).
  - right. split.
    { intros x [->|Hx]%elem_of_cons; [done|]. intros Hthr. apply (Hall x Hx).
      by apply (proj2 (throwsAt_step m m1 id x (Hne x Hx) Hu Hk)). }
    exists m'. split; [done|]. split.
    + intros j. rewrite Hu', Hu, lookup_alter.
      destruct (decide (id = j)) as [->|Hnej].
      * rewrite (decide_True (P := j ∈ j :: ids)) by left.
        by rewrite (decide_False (P := j ∈ ids)) by done.
      * destruct (decide (j ∈ ids)) as [Hin|Hnin].
        -- rewrite (decide_True (P := j ∈ id :: ids)); [done|by right].
        -- rewrite (decide_False (P := j ∈ id :: ids)); [done|].
           intros [?|?]%elem_of_cons; congruence.
    + intros g x. rewrite Hm', Hm. split.
      * intros [[?|[-> ?]]|[Hin Hj]]; [by left|right; split; [left|done]|].
        right. split; [by right|].
        by apply (proj1 (joins_step m m1 id g x (Hne x Hin) Hu)).
      * intros [?|[[->|Hin]%elem_of_cons Hj]]; [by left; left|by left; right|].
        right. split; [done|].
        by apply (proj2 (joins_step m m1 id g x (Hne x Hin) Hu)).
Qed.

Lemma elem_of_keysAscending {A} (table : gmap N A) j :
  j ∈ keysAscending table <-> is_Some (table !! j).
Proof.
  unfold keysAscending. rewrite merge_sort_Permutation, elem_of_elements.
  apply elem_of_dom.
Qed.

Lemma NoDup_keysAscending {A} (table : gmap N A) : NoDup (keysAscending table).
Proof.
  unfold keysAscending. rewrite merge_sort_Permutation. apply NoDup_elements.
Qed.

(** The group loop of [update]. *)
Lemma assignGroups_spec m :
  (groupLoopThrows m /\ exists m', assignGroups m = GroupThrew m' /\ groupedFrom m m') \/
  (~ groupLoopThrows m /\
   exists m', assignGroups m = Grouped m' /\ groupedFrom m m' /\
     (forall j, units m' !! j = assigned <$> units m !! j) /\
     (forall g x, memberOf m' g x <-> memberOf m g x \/ joins m g x)).
Proof.
  pose proof (groupLoop_groupedFrom (keysAscending (units m)) m) as Hfrom.
  unfold assignGroups in *.
  destruct (groupLoop_spec (keysAscending (units m)) m (NoDup_keysAscending _))
    as [[(x & _ & Hthr) (m' & Hm')]|(Hall & m' & Hm' & Hu & Hmem)];
    rewrite Hm' in *; simpl in Hfrom.
  - left. split; [by exists x|eauto].
  - right. split.
    { intros (x & Hthr). apply (Hall x); [|done].
      destruct Hthr as (u & Hux & _). apply elem_of_keysAscending. eauto. }
    exists m'. split; [done|]. split; [done|]. split.
    + intros j. rewrite Hu. case_decide as Hin; [done|].
      destruct (units m !! j) eqn:Huj; [|done].
      destruct Hin. apply elem_of_keysAscending. eauto.
    + intros g x. rewrite Hmem.
      split; (intros [?|H]; [by left|right]); [by destruct H|].
      split; [|done]. destruct H as (u & Hux & _). apply elem_of_keysAscending. eauto.
Qed.

(** The detection block writes the detection methods only. *)
Lemma deriveDetection_units ctx a m j :
  exists l, units (deriveDetection ctx a m).1 !! j =
            (fun u => setDetectionMethods (l u) u) <$> units m !! j.
Proof.
  unfold deriveDetection. case_match; simpl.
  - eexists (fun _ => _). rewrite map_lookup_imap.
    by destruct (units m !! j).
  - exists detectionMethods. destruct (units m !! j) as [[]|]; done.
Qed.

Lemma deriveDetection_groups ctx a m :
  groups (deriveDetection ctx a m).1 = groups m.
Proof. unfold deriveDetection. by case_match. Qed.

Lemma deriveDetection_memberOf ctx a m g x :
  memberOf (deriveDetection ctx a m).1 g x <-> memberOf m g x.
Proof. unfold memberOf. by rewrite deriveDetection_groups. Qed.


(** The group loop throws exactly when a unit makes it throw, so that
    whether it does can be read off a run. *)
Lemma assignGroups_Grouped m m' : assignGroups m = Grouped m' -> ~ groupLoopThrows m.
Proof.
  intros Hm. destruct (assignGroups_spec m) as [(_ & m2 & E & _)|[Hok _]]; [|done].
  congruence.
Qed.


(** The result of [update], by the way the decode loop and the group
    loop ended. *)
Lemma update_result ctx a buf m t e r :
  DataExtractor.extractUInt64 (DataExtractor.new buf) = Some (t, e) ->
  decodeLoop ctx (S (length buf)) m e = Some r ->
  update ctx a buf m =
  match r with
  | Threw m1 => {| outcome := Some Thrown; manager := m1; app := a |}
  | Aborted m1 => {| outcome := Some (Returned (Number t)); manager := m1; app := a |}
  | Finished m1 =>
      match assignGroups m1 with
      | GroupThrew m2 => {| outcome := Some Thrown; manager := m2; app := a |}
      | Grouped m2 =>
          {| outcome := Some (Returned (Number t));
             manager := (deriveDetection ctx a m2).1;
             app := (deriveDetection ctx a m2).2 |}
      end
  end.
Proof.
  intros Ht Hr. unfold update. rewrite Ht, Hr.
  destruct r as [m1|m1|m1]; try done.
  destruct (assignGroups m1) as [m2|m2]; [|done]. by destruct (deriveDetection _ _ _).
Qed.

Lemma update_loop_end ctx a buf m :
  (DataExtractor.extractUInt64 (DataExtractor.new buf) = None /\
   update ctx a buf m = {| outcome := Some Thrown; manager := m; app := a |}) \/
  (exists t e r,
     DataExtractor.extractUInt64 (DataExtractor.new buf) = Some (t, e) /\
     decodeLoop ctx (S (length buf)) m e = Some r).
Proof.
  destruct (DataExtractor.extractUInt64 _) as [[t e]|] eqn:Ht.
  - right. exists t, e.
    destruct (decodeLoop_total ctx (S (length buf)) m e) as [r Hr]; [|eauto].
    apply extractUInt64_new in Ht as [Hb Hs].
    unfold DataExtractor.byteLength. rewrite Hb, Hs. lia.
  - left. split; [done|]. unfold update. by rewrite Ht.
Qed.

(** A call that reads its buffer to the end and whose group loop does
    not throw. *)
Lemma update_grouped ctx a buf m t e m1 :
  DataExtractor.extractUInt64 (DataExtractor.new buf) = Some (t, e) ->
  decodeLoop ctx (S (length buf)) m e = Some (Finished m1) ->
  ~ groupLoopThrows m1 ->
  exists m2,
    update ctx a buf m =
      {| outcome := Some (Returned (Number t));
         manager := (deriveDetection ctx a m2).1;
         app := (deriveDetection ctx a m2).2 |} /\
    requestDetectionUpdate m2 = requestDetectionUpdate m1 /\
    (forall j, units m2 !! j = assigned <$> units m1 !! j) /\
    (forall g x, memberOf m2 g x <-> memberOf m1 g x \/ joins m1 g x).
Proof.
  intros Ht Hr Hok. rewrite (update_result ctx a buf m t e _ Ht Hr).
  destruct (assignGroups_spec m1) as [[Hthr _]|(_ & m2 & -> & (Hreq & _) & Hu & Hm)];
    [done|].
  exists m2. done.
Qed.


(** Every call: the manager it leaves comes from the one the decode
    loop left by passes of the group loop and then, at most, a rewrite
    of the detection methods. *)
Lemma update_shape ctx a buf m t e r :
  DataExtractor.extractUInt64 (DataExtractor.new buf) = Some (t, e) ->
  decodeLoop ctx (S (length buf)) m e = Some r ->
  exists m2,
    groupedFrom (endManager r) m2 /\
    (forall j, exists l, units (manager (update ctx a buf m)) !! j =
                         (fun u => setDetectionMethods (l u) u) <$> units m2 !! j) /\
    (forall g x, memberOf (manager (update ctx a buf m)) g x <-> memberOf m2 g x).
Proof.
  intros Ht Hr. rewrite (update_result ctx a buf m t e _ Ht Hr).
  assert (forall m2 j, exists l : Unit -> list N,
            units m2 !! j = (fun u => setDetectionMethods (l u) u) <$> units m2 !! j)
    as Hsame.
  { intros m2 j. exists detectionMethods. destruct (units m2 !! j) as [[]|]; done. }
  destruct r as [m1|m1|m1]; simpl.
  - exists m1. split; [apply groupedFrom_refl|]. split; [apply Hsame|done].
  - exists m1. split; [apply groupedFrom_refl|]. split; [apply Hsame|done].
  - destruct (assignGroups_spec m1) as [(_ & m2 & -> & Hfrom)|(_ & m2 & -> & Hfrom & _)];
      simpl.
    + exists m2. split; [done|]. split; [apply Hsame|done].
    + exists m2. split; [done|]. split; [apply deriveDetection_units|].
      apply deriveDetection_memberOf.
Qed.








End Groups.

(** * Detection methods *)

Section Detection.
Import UnitsManager.

Implicit Types (ctx : Context) (a : App) (m : Manager) (id oid x : N).
Implicit Types (dm : gmap N (list N)) (c : Contact).

Lemma recordContact_lookup dm c id l0 :
  dm !! id = Some l0 ->
  exists l1, recordContact dm c !! id = Some l1 /\
    (NoDup l0 -> NoDup l1) /\
    forall x, x ∈ l1 <-> x ∈ l0 \/ (contactID c = id /\ detectionMethod c = x).
Proof.
  intros Hid. unfold recordContact.
  destruct (dm !! contactID c) as [l|] eqn:Hc.
  - case_decide as Hin.
    + exists l0. repeat split; [done|done|by left|].
      intros [?|[<- <-]]; [done|]. by simplify_eq.
    + destruct (decide (contactID c = id)) as [<-|Hne].
      * simplify_eq. exists (l0 ++ [detectionMethod c]).
        rewrite lookup_insert_eq. split; [done|]. split.
        -- intros Hnd. apply NoDup_app. repeat split; [done| |apply NoDup_singleton].
           intros y Hy ->%list_elem_of_singleton. done.
        -- intros y. rewrite elem_of_app, list_elem_of_singleton.
           split; (intros [?|H]; [by left|right]); [done|by destruct H].
      * exists l0. rewrite lookup_insert_ne by done.
        repeat split; [done|done|by left|]. intros [?|[? _]]; done.
  - exists l0. repeat split; [done|done|by left|].
    intros [?|[Heq _]]; [done|]. congruence.
Qed.

Lemma foldl_recordContact_lookup (cs : list Contact) dm id l0 :
  dm !! id = Some l0 ->
  exists l1, foldl recordContact dm cs !! id = Some l1 /\
    (NoDup l0 -> NoDup l1) /\
    forall x, x ∈ l1 <->
      x ∈ l0 \/ exists c, c ∈ cs /\ contactID c = id /\ detectionMethod c = x.
Proof.
  revert dm l0. induction cs as [|c cs IH]; intros dm l0 Hid; simpl.
  - exists l0. repeat split; [done|done|by left|].
    intros [?|(c & ?%elem_of_nil & _)]; done.
  - destruct (recordContact_lookup dm c id l0 Hid) as (l1 & H1 & Hnd1 & Hx1).
    destruct (IH _ _ H1) as (l2 & H2 & Hnd2 & Hx2).
    exists l2. split; [done|]. split; [auto|].
    intros y. rewrite Hx2, Hx1. split.
    + intros [[?|[??]]|(c' & ? & ? & ?)]; [by left|right..].
      * exists c. split; [left|done].
      * exists c'. split; [by right|done].
    + intros [?|(c' & [->|?]%elem_of_cons & ? & ?)];
        [by left; left|by left; right|right; eauto].
Qed.

Lemma recordObserver_lookup a m dm oid id l0 :
  dm !! id = Some l0 ->
  exists l1, recordObserver a m dm oid !! id = Some l1 /\
    (NoDup l0 -> NoDup l1) /\
    forall x, x ∈ l1 <-> x ∈ l0 \/ observes a m oid id x.
Proof.
  intros Hid. unfold recordObserver, observes.
  destruct (units m !! oid) as [o|] eqn:Ho.
  - destruct (getAlive o && belongsToCommandedCoalition a o) eqn:Hg.
    + apply andb_prop in Hg as [Hal Hbe].
      destruct (foldl_recordContact_lookup (getContacts o) dm id l0 Hid)
        as (l1 & H1 & Hnd & Hx).
      exists l1. split; [done|]. split; [done|]. intros y. rewrite Hx.
      split; (intros [?|H]; [by left|right]).
      * destruct H as (c & ? & ? & ?). by exists o, c.
      * destruct H as (o' & c & ? & _ & _ & ? & ? & ?). simplify_eq. eauto.
    + exists l0. repeat split; [done|done|by left|].
      intros [?|(o' & c & ? & Hal & Hbe & _)]; [done|]. simplify_eq.
      by rewrite Hal, Hbe in Hg.
  - exists l0. repeat split; [done|done|by left|].
    intros [?|(o' & c & ? & _)]; [done|congruence].
Qed.

Lemma foldl_recordObserver_lookup a m (ids : list N) dm id l0 :
  dm !! id = Some l0 ->
  exists l1, foldl (recordObserver a m) dm ids !! id = Some l1 /\
    (NoDup l0 -> NoDup l1) /\
    forall x, x ∈ l1 <-> x ∈ l0 \/ exists oid, oid ∈ ids /\ observes a m oid id x.
Proof.
  revert dm l0. induction ids as [|i ids IH]; intros dm l0 Hid; simpl.
  - exists l0. repeat split; [done|done|by left|].
    intros [?|(i & ?%elem_of_nil & _)]; done.
  - destruct (recordObserver_lookup a m dm i id l0 Hid) as (l1 & H1 & Hnd1 & Hx1).
    destruct (IH _ _ H1) as (l2 & H2 & Hnd2 & Hx2).
    exists l2. split; [done|]. split; [auto|].
    intros y. rewrite Hx2, Hx1. split.
    + intros [[?|?]|(i' & ? & ?)]; [by left|right..].
      * exists i. split; [left|done].
      * exists i'. split; [by right|done].
    + intros [?|(i' & [->|?]%elem_of_cons & ?)];
        [by left; left|by left; right|right; eauto].
Qed.

Lemma emptyLists_lookup (ids : list N) dm id :
  emptyLists ids dm !! id = if decide (id ∈ ids) then Some [] else dm !! id.
Proof.
  unfold emptyLists. revert dm. induction ids as [|i ids IH]; intros dm; simpl.
  - done.
  - rewrite IH. destruct (decide (id ∈ ids)) as [Hin|Hnin].
    + rewrite (decide_True (P := id ∈ i :: ids)); [done|by right].
    + destruct (decide (i = id)) as [->|Hne].
      * rewrite (decide_True (P := id ∈ id :: ids)) by left.
        by rewrite lookup_insert_eq.
      * rewrite (decide_False (P := id ∈ i :: ids)).
        -- by rewrite lookup_insert_ne.
        -- intros [?|?]%elem_of_cons; congruence.
Qed.


(** Who observes whom depends on the decoded fields of the units only. *)
Lemma detectedBy_fields a m m' id x :
  (forall j, exists f, units m' !! j = f <$> units m !! j /\
                       forall u, fields (f u) = fields u) ->
  detectedBy a m' id x <-> detectedBy a m id x.
Proof.
  intros Hf. unfold detectedBy, observes,
    getAlive, belongsToCommandedCoalition, getContacts.
  split; intros (oid & o & c & Ho & H); destruct (Hf oid) as (f & Hl & Hff).
  - rewrite Hl in Ho. destruct (units m !! oid) as [o0|] eqn:Ho0; [|done].
    simpl in Ho. simplify_eq. rewrite Hff in H. eauto 6.
  - exists oid, (f o), c. rewrite Hl, Ho. split; [done|]. by rewrite Hff.
Qed.

Lemma detectionGate_true ctx a m :
  detectionGate ctx a m = true <->
  requestDetectionUpdate m = true /\ commandMode a <> GAME_MASTER ctx.
Proof.
  unfold detectionGate. rewrite andb_true_iff, negb_true_iff.
  by rewrite String.eqb_neq.
Qed.


Lemma deriveDetection_closed ctx a m :
  detectionGate ctx a m = false -> deriveDetection ctx a m = (m, a).
Proof. intros Hg. unfold deriveDetection. by rewrite Hg. Qed.



End Detection.

(** * Selection by hotgroup *)

Section Hotgroups.
Import UnitsManager.

Implicit Types (m : Manager) (id h : N) (s : Manager * Calls).

Lemma elem_of_unitEntries m id u :
  (id, u) ∈ unitEntries m <-> units m !! id = Some u.
Proof.
  unfold unitEntries. rewrite list_elem_of_omap. split.
  - intros (j & _ & Hj). destruct (units m !! j) eqn:Hu; simpl in Hj; by simplify_eq.
  - intros Hu. exists id. split; [apply elem_of_keysAscending; eauto|].
    by rewrite Hu.
Qed.

Lemma setSelected_keeps b (u : Unit) :
  getAlive (setSelected b u) = getAlive u /\
  getHotgroup (setSelected b u) = getHotgroup u.
Proof. unfold setSelected. by case_match. Qed.

Lemma foldl_callSetSelected b (ids : list N) s :
  (foldl (callSetSelected b) s ids).2 = s.2 ++ ((fun id => (id, b)) <$> ids) /\
  forall id u', units (foldl (callSetSelected b) s ids).1 !! id = Some u' ->
    exists u, units s.1 !! id = Some u /\
              getAlive u' = getAlive u /\ getHotgroup u' = getHotgroup u.
Proof.
  revert s. induction ids as [|i ids IH]; intros s; simpl.
  - split; [by rewrite app_nil_r|eauto].
  - destruct (IH (callSetSelected b s i)) as [Hc Hu]. split.
    + rewrite Hc. simpl. by rewrite <- app_assoc.
    + intros id u' Hu'. destruct (Hu _ _ Hu') as (u1 & Hu1 & Ha & Hh).
      simpl in Hu1. rewrite lookup_alter in Hu1.
      destruct (decide (i = id)) as [->|]; [|eauto].
      destruct (units s.1 !! id) as [u0|]; [|done]. simpl in Hu1. simplify_eq.
      exists u0. destruct (setSelected_keeps b u0) as [Hka Hkh].
      split; [done|]. split; congruence.
Qed.

(** C10. [getUnitsByHotgroup(h)] returns exactly the units that are
    alive and whose hotgroup is [h], and [selectUnitsByHotgroup(h)] calls
    [setSelected(true)] on no unit that is dead or of another hotgroup. *)
Theorem hotgroup_selection_only_alive_members m h :
  (forall id u,
     (id, u) ∈ getUnitsByHotgroup m h <->
     units m !! id = Some u /\ getAlive u = true /\ getHotgroup u = Some h) /\
  (forall deselectAll id,
     (id, true) ∈ (selectUnitsByHotgroup h deselectAll m).2 ->
     exists u, units m !! id = Some u /\
               getAlive u = true /\ getHotgroup u = Some h).
Proof.
  assert (forall m' id u,
     (id, u) ∈ getUnitsByHotgroup m' h <->
     units m' !! id = Some u /\ getAlive u = true /\ getHotgroup u = Some h) as Hget.
  { intros m' id u. unfold getUnitsByHotgroup.
    rewrite list_elem_of_filter, elem_of_unitEntries. simpl. tauto. }
  split; [apply Hget|].
  intros deselectAll id. unfold selectUnitsByHotgroup.
  set (s := if deselectAll then deselectAllUnits (m, []) else (m, [])).
  assert ((forall c, c ∈ s.2 -> c.2 = false) /\
          forall j u', units s.1 !! j = Some u' ->
            exists u, units m !! j = Some u /\
                      getAlive u' = getAlive u /\ getHotgroup u' = getHotgroup u)
    as [Hcalls Hunits].
  { subst s. destruct deselectAll.
    - unfold deselectAllUnits.
      destruct (foldl_callSetSelected false
                  (keysAscending (units (m, [] : Calls).1)) (m, [])) as [Hc Hu].
      split; [|exact Hu]. intros c Hin.
      unfold Calls in *. rewrite Hc in Hin. simpl in Hin.
      by apply list_elem_of_fmap in Hin as (j & -> & _).
    - split; [by intros c ?%elem_of_nil|eauto]. }
  destruct (foldl_callSetSelected true (getUnitsByHotgroup s.1 h).*1 s) as [-> _].
  intros [Hin|Hin]%elem_of_app.
  - by apply Hcalls in Hin.
  - apply list_elem_of_fmap in Hin as (j & [= <-] & Hj).
    apply list_elem_of_fmap in Hj as ([j u1] & -> & Hj). simpl.
    apply Hget in Hj as (Hu1 & Hal & Hh).
    destruct (Hunits _ _ Hu1) as (u & Hu & Ha' & Hh'). exists u. split; [done|].
    split; congruence.
Qed.

End Hotgroups.

(** * The theorems at concrete inputs *)

Section Instances.
Import Unit Examples.

Lemma construct_fresh cls id :
  construct noEnv cls id emptyBaseAndFlight = Some (fresh cls id).
Proof. destruct cls; vm_compute; reflexivity. Qed.

Lemma reachable_fresh cls id : reachable (fresh cls id).
Proof. eapply r_construct, construct_fresh. Qed.

Lemma reachable_selectedAircraft : reachable selectedAircraft.
Proof. apply r_setSelected, reachable_fresh. Qed.

Lemma reachable_deadAircraft : reachable deadAircraft.
Proof.
  apply (r_setData noEnv (aliveUpdate false) (fresh Aircraft 3));
    [apply reachable_fresh|]. vm_compute. reflexivity.
Qed.

(** C5 at a dead aircraft, at a bomb, and at a selected aircraft that an
    update declares dead. *)
Lemma dead_or_unselectable_never_selected_witness :
  (reachable deadAircraft /\ alive deadAircraft = false /\
   getSelected (setSelected true deadAircraft) = false) /\
  (reachable bomb /\ isWeapon (class bomb) = true /\
   getSelected (setSelected true bomb) = false) /\
  (reachable selectedAircraft /\
   getSelected selectedAircraft = true /\ alive selectedAircraft = true /\
   alive (afterSetData noEnv selectedAircraft (aliveUpdate false)) = false /\
   getSelected (afterSetData noEnv selectedAircraft (aliveUpdate false)) = false).
Proof.
  split; [|split].
  - split; [apply reachable_deadAircraft|].
    assert (alive deadAircraft = false) as Hdead by (vm_compute; reflexivity).
    split; [exact Hdead|].
    exact (proj1 (dead_or_unselectable_never_selected deadAircraft
                    reachable_deadAircraft) Hdead).
  - split; [apply reachable_fresh|]. split; [reflexivity|].
    exact (proj1 (proj2 (dead_or_unselectable_never_selected bomb
                           (reachable_fresh Bomb 4))) eq_refl).
  - split; [apply reachable_selectedAircraft|].
    assert (getSelected selectedAircraft = true) as Hsel by (vm_compute; reflexivity).
    assert (alive selectedAircraft = true) as Hal by (vm_compute; reflexivity).
    assert (setData noEnv (aliveUpdate false) selectedAircraft =
            Some (afterSetData noEnv selectedAircraft (aliveUpdate false))) as Hset
      by (vm_compute; reflexivity).
    assert (alive (afterSetData noEnv selectedAircraft (aliveUpdate false)) = false)
      as Hdead by (vm_compute; reflexivity).
    split; [exact Hsel|]. split; [exact Hal|]. split; [exact Hdead|].
    exact (proj2 (proj2 (dead_or_unselectable_never_selected selectedAircraft
                           reachable_selectedAircraft))
             noEnv (aliveUpdate false) _ Hsel Hal Hset Hdead).
Defined.

End Instances.

Section ManagerInstances.
Import UnitsManager Sample Buffers.

Ltac run := vm_compute; reflexivity.

(** C1 at the buffer [aborting]: unit 1 is decoded, then the new ID 2
    comes with the alive tag and [update] returns 100 with unit 1 only. *)
Lemma abort_on_unknown_id_without_category_witness :
  DataExtractor.extractUInt64 (DataExtractor.new aborting)
    = Some (100%N, at_ aborting 8) /\
  reaches context emptyManager (at_ aborting 8) (decoded aborting) (at_ aborting 27) /\
  (DataExtractor.getSeekPosition (at_ aborting 27)
     < DataExtractor.byteLength (at_ aborting 27))%nat /\
  DataExtractor.extractUInt32 (at_ aborting 27) = Some (2%N, at_ aborting 31) /\
  units (decoded aborting) !! 2%N = None /\
  DataExtractor.extractUInt8 (at_ aborting 31) = Some (tagAlive, at_ aborting 32) /\
  tagAlive <> DataIndexes_category context /\
  (update context blueCommander aborting emptyManager =
     {| outcome := Some (Returned (Number 100)); manager := decoded aborting;
        app := blueCommander |} /\
   units (manager (update context blueCommander aborting emptyManager)) !! 2%N = None).
Proof.
  assert (DataExtractor.extractUInt64 (DataExtractor.new aborting)
            = Some (100%N, at_ aborting 8)) as Ht by run.
  assert (reaches context emptyManager (at_ aborting 8)
            (decoded aborting) (at_ aborting 27)) as Hr.
  { apply (reaches_pass context emptyManager (at_ aborting 8)
             (decoded aborting) (at_ aborting 27)); [run|apply reaches_here]. }
  assert (DataExtractor.getSeekPosition (at_ aborting 27)
            < DataExtractor.byteLength (at_ aborting 27))%nat as Hlt
    by (vm_compute; lia).
  assert (DataExtractor.extractUInt32 (at_ aborting 27)
            = Some (2%N, at_ aborting 31)) as Hid by run.
  assert (units (decoded aborting) !! 2%N = None) as Hnew by run.
  assert (DataExtractor.extractUInt8 (at_ aborting 31)
            = Some (tagAlive, at_ aborting 32)) as Htag by run.
  assert (tagAlive <> DataIndexes_category context) as Hne by (by vm_compute).
  repeat (split; [assumption|]).
  exact (abort_on_unknown_id_without_category context blueCommander aborting
           emptyManager _ _ _ _ _ _ _ _ Ht Hr Hlt Hid Hnew Htag Hne).
Defined.

(** At the buffer [unknownCategory], ID 1 comes with the category Ufo
    and with no field; the pass changes nothing and the loop goes on at
    offset 18, where unit 2 is then created. *)
Lemma unknown_category_without_field :
  (DataExtractor.getSeekPosition (at_ unknownCategory 8)
     < DataExtractor.byteLength (at_ unknownCategory 8))%nat /\
  DataExtractor.extractUInt32 (at_ unknownCategory 8)
    = Some (1%N, at_ unknownCategory 12) /\
  units emptyManager !! 1%N = None /\
  DataExtractor.extractUInt8 (at_ unknownCategory 12)
    = Some (tagCategory, at_ unknownCategory 13) /\
  DataExtractor.extractString (at_ unknownCategory 13)
    = Some ("Ufo", at_ unknownCategory 18) /\
  Unit.getConstructor "Ufo" = None /\
  (addUnit context 1 "Ufo" emptyManager = emptyManager /\
   decodeStep context emptyManager (at_ unknownCategory 8)
     = Continue emptyManager (at_ unknownCategory 18) /\
   reaches context emptyManager (at_ unknownCategory 8)
     emptyManager (at_ unknownCategory 18) /\
   decodeLoop context (S (length unknownCategory)) emptyManager (at_ unknownCategory 8)
     = decodeLoop context (length unknownCategory) emptyManager
         (at_ unknownCategory 18)) /\
  units (manager (update context blueCommander unknownCategory emptyManager)) !! 1%N
    = None /\
  is_Some (units (manager (update context blueCommander unknownCategory emptyManager))
             !! 2%N).
Proof.
  assert (DataExtractor.getSeekPosition (at_ unknownCategory 8)
            < DataExtractor.byteLength (at_ unknownCategory 8))%nat as Hlt
    by (vm_compute; lia).
  assert (DataExtractor.extractUInt32 (at_ unknownCategory 8)
            = Some (1%N, at_ unknownCategory 12)) as Hid by run.
  assert (units emptyManager !! 1%N = None) as Hnew by run.
  assert (DataExtractor.extractUInt8 (at_ unknownCategory 12)
            = Some (tagCategory, at_ unknownCategory 13)) as Htag by run.
  assert (DataExtractor.extractString (at_ unknownCategory 13)
            = Some ("Ufo", at_ unknownCategory 18)) as Hcat by run.
  assert (Unit.getConstructor "Ufo" = None) as Hctor by run.
  repeat (split; [assumption|]).
  split.
  - exact (unknown_category_skipped context emptyManager _ _ _ _ _ _ _
             (length unknownCategory) Hlt Hid Hnew Htag eq_refl Hcat Hctor).
  - split; [run|]. vm_compute. eauto.
Defined.

(** C8. A new ID with a category no class has creates no unit, and
    [setData] is then not called, so that nothing reads the fields that
    entity came with: the loop takes them for the next ID. In the buffer
    [unknownCategoryWithField] the entity of category Ufo carries its
    alive field, and unit 2 follows. After the pass over ID 1, at offset
    18, the loop reads the alive field and the first bytes of the next
    entity as the ID 131330; that ID is new and the byte after it is not
    the category tag, so [update] returns the time with no unit at all:
    unit 2 is never created. Without the Ufo entity, in
    [knownCategoryOnly], unit 2 is created and put in group A. *)
Theorem unknown_category_fields_read_as_id :
  Unit.getConstructor "Ufo" = None /\
  decodeStep context emptyManager (at_ unknownCategoryWithField 8)
    = Continue emptyManager (at_ unknownCategoryWithField 18) /\
  DataExtractor.extractUInt8 (at_ unknownCategoryWithField 18)
    = Some (tagAlive, at_ unknownCategoryWithField 19) /\
  DataExtractor.extractUInt32 (at_ unknownCategoryWithField 18)
    = Some (131330%N, at_ unknownCategoryWithField 22) /\
  decodeStep context emptyManager (at_ unknownCategoryWithField 18) = Abort emptyManager /\
  update context blueCommander unknownCategoryWithField emptyManager
    = {| outcome := Some (Returned (Number 100)); manager := emptyManager;
         app := blueCommander |} /\
  units (manager (update context blueCommander unknownCategoryWithField emptyManager))
    !! 2%N = None /\
  (outcome (update context blueCommander knownCategoryOnly emptyManager)
     = Some (Returned (Number 100)) /\
   exists u,
     units (manager (update context blueCommander knownCategoryOnly emptyManager))
       !! 2%N = Some u /\
     getGroup u = Some "A").
Proof.
  split; [run|]. split; [run|]. split; [run|]. split; [run|]. split; [run|].
  split; [run|]. split; [run|]. split; [run|].
  eexists. split; [run|reflexivity].
Qed.

Lemma decodeLoop_contactsOnTwo :
  decodeLoop context (S (length contactsOnTwo)) emptyManager (at_ contactsOnTwo 8)
  = Some (Finished (decoded contactsOnTwo)).
Proof. run. Qed.

Lemma timestamp_contactsOnTwo :
  DataExtractor.extractUInt64 (DataExtractor.new contactsOnTwo)
  = Some (100%N, at_ contactsOnTwo 8).
Proof. run. Qed.

Lemma groupLoop_contactsOnTwo : ~ groupLoopThrows (decoded contactsOnTwo).
Proof. eapply assignGroups_Grouped. run. Qed.








(** C10 on the two units of [contactsOnTwo], both in no hotgroup: no
    unit is returned for hotgroup 1, and selecting hotgroup 1 does not
    call [setSelected(true)] on unit 1. *)
Lemma hotgroup_selection_only_alive_members_witness :
  getUnitsByHotgroup
    (manager (update context blueCommander contactsOnTwo emptyManager)) 1 = [] /\
  (1%N, true) ∉
    (selectUnitsByHotgroup 1 true
       (manager (update context blueCommander contactsOnTwo emptyManager))).2.
Proof.
  split; [run|]. intros Hin.
  destruct (proj2 (hotgroup_selection_only_alive_members
                     (manager (update context blueCommander contactsOnTwo emptyManager))
                     1) true 1%N Hin) as (u & Hu & _ & Hh).
  vm_compute in Hu. injection Hu as <-. discriminate Hh.
Defined.

End ManagerInstances.

(** * More properties of the unit class *)

Section UnitOpsProperties.
Import Unit UnitOps Examples.

Implicit Types (u : Unit) (d : UpdateData) (env : Env) (s : SubRecord).

Lemma afterSetData_cases env u d :
  (setData env d u = None /\ afterSetData env u d = u) \/
  (exists u', setData env d u = Some u' /\ afterSetData env u d = u').
Proof.
  unfold afterSetData. destruct (setData env d u) as [u'|]; [right|left]; eauto.
Qed.

(** X1. [setData] never adds or removes a key of a sub-record: whatever
    the update holds, each sub-record of the unit has the same keys after
    the call, so a key of the update that the unit does not have is
    dropped. *)
Theorem setData_keeps_keys env u d s :
  dom (sub s (data (afterSetData env u d))) = dom (sub s (data u)) /\
  forall k : string,
    sub s (data u) !! k = None ->
    sub s (data (afterSetData env u d)) !! k = None.
Proof.
  assert (forall k : string,
            is_Some (sub s (data (afterSetData env u d)) !! k) <->
            is_Some (sub s (data u) !! k)) as H.
  { intros k. destruct (afterSetData_cases env u d) as [[_ ->]|(u' & Hu' & ->)]; [done|].
    rewrite (setData_data _ _ _ _ Hu'), sub_mergeData, lookup_mergeSub.
    by rewrite fmap_is_Some. }
  split.
  - apply set_eq. intros k. rewrite !elem_of_dom. apply H.
  - intros k Hk. apply eq_None_not_Some. rewrite H, Hk. by intros [??].
Qed.

(** X2. Two updates in a row, both carrying the base and flight
    sub-records: every field ends with the value of the second update if
    that holds the field, else with the value of the first if that holds
    it, else with its old value. *)
Theorem setData_later_update_wins env u a b s (k : string) :
  carriesBaseAndFlight a -> carriesBaseAndFlight b ->
  sub s (data (afterAll env [a; b] u)) !! k =
  (fun old => default (default old (fieldOf a s k)) (fieldOf b s k))
    <$> sub s (data u) !! k.
Proof.
  intros Ha Hb. rewrite afterAll_data by (by apply Forall_cons_2; [|apply Forall_singleton]).
  simpl. rewrite !sub_mergeData, !lookup_mergeSub.
  by destruct (sub s (data u) !! k).
Qed.

(** X3. Applying the same update twice leaves the same data as applying
    it once. *)
Theorem setData_idempotent_on_data env u d :
  data (afterAll env [d; d] u) = data (afterSetData env u d).
Proof.
  unfold afterAll. simpl.
  destruct (afterSetData_cases env u d) as [[Hn ->]|(u' & Hu' & ->)].
  - unfold afterSetData. by rewrite Hn.
  - assert (carriesBaseAndFlight d) as Hc.
    { unfold setData in Hu'. unfold carriesBaseAndFlight.
      destruct (u_flightData d); [|done]. destruct (u_baseData d); [|done]. eauto. }
    rewrite afterSetData_data by done. rewrite (setData_data _ _ _ _ Hu').
    rewrite mergeData_join. apply UnitData_eq. intros s.
    rewrite !sub_mergeData, u_sub_joinUpdate. apply map_eq. intros k.
    rewrite !lookup_mergeSub. destruct (sub s (data u) !! k); [simpl; f_equal|done].
    destruct (u_sub s d) as [o|]; simpl; [|done].
    rewrite lookup_union. by destruct (o !! k).
Qed.

(** X4. [setData] never selects a unit, and it keeps a selection only
    when the unit is alive after the merge and was not hidden before the
    call: in every state of a unit object, the selection after a call
    that returns is the old selection, and alive afterwards, and not
    hidden before. *)
Theorem setData_selection env d u u' :
  reachable u ->
  setData env d u = Some u' ->
  getSelected u' = getSelected u && alive u' && negb (getHidden u).
Proof.
  intros Hr Hset. destruct (reachable_invariant u Hr) as [Hinv _].
  destruct (setData_selected _ _ _ _ Hinv Hset) as [H _]. exact H.
Qed.

Lemma onMap_setHidden h u : onMap (setHidden h u) = negb h.
Proof. unfold setHidden. simpl. by destruct (onMap u), h. Qed.

Lemma setSelected_marker b u :
  onMap (setSelected b u) = onMap u /\ hidden (setSelected b u) = hidden u.
Proof. unfold setSelected. by case_match. Qed.

Lemma setData_marker env d u u' :
  setData env d u = Some u' ->
  (hidden u' = hideReasons env u' /\ onMap u' = negb (hidden u')) \/
  (onMap u = true /\ onMap u' = onMap u /\ hidden u' = hidden u).
Proof.
  unfold setData. intros H.
  destruct (u_flightData d) as [fd|]; [|done]. destruct (u_baseData d) as [bd|]; [|done].
  simplify_eq.
  set (u1 := withData (mergeData (data u) d) u).
  set (u2 := setSelected (getSelected u1 && alive u1 && negb (getHidden u1)) u1).
  destruct (setSelected_marker (getSelected u1 && alive u1 && negb (getHidden u1)) u1)
    as [Hm Hh]. fold u2 in Hm, Hh.
  case_match eqn:Hupd.
  - left. split; [done|]. unfold updateVisibility. by rewrite onMap_setHidden.
  - right. rewrite !orb_false_iff, negb_false_iff in Hupd.
    destruct Hupd as [_ Hon]. rewrite Hm, Hh. done.
Qed.

Lemma reachable_onMap u : reachable u -> onMap u = negb (hidden u).
Proof.
  induction 1 as [env cls id d u Hc|env d u u' _ IH Hset|b u _ IH
                 |env u _ IH|h u _ IH|u _ IH|u _ IH].
  - unfold construct in Hc.
    destruct (setData env d _) as [u1|] eqn:Hset; [|done].
    assert (onMap u1 = negb (hidden u1)) as H1.
    { destruct (setData_marker _ _ _ _ Hset) as [[_ ?]|[Hon _]]; [done|]. done. }
    simplify_eq. by destruct (isWeapon cls).
  - destruct (setData_marker _ _ _ _ Hset) as [[_ ?]|(_ & -> & ->)]; done.
  - by destruct (setSelected_marker b u) as [-> ->].
  - unfold updateVisibility. by rewrite onMap_setHidden.
  - by rewrite onMap_setHidden.
  - unfold onToggleVisibility.
    by destruct (setSelected_marker (getSelected u && negb (getHidden u)) u) as [-> ->].
  - done.
Qed.

(** X5. The marker of a unit is on the map exactly when the unit is not
    hidden, in every state of a unit object. *)
Theorem marker_on_map_iff_not_hidden u :
  reachable u -> onMap u = negb (getHidden u).
Proof. apply reachable_onMap. Qed.

(** X6. When [setData] refreshes the visibility. A hidden unit has its
    visibility recomputed by every call that returns. A unit that is
    shown keeps being shown by an update that holds no latitude, no
    heading and no alive field, whatever the hide attributes of the body
    are by then. *)
Theorem setData_visibility_refresh env d u u' :
  reachable u ->
  setData env d u = Some u' ->
  (getHidden u = true -> getHidden u' = hideReasons env u') /\
  (getHidden u = false ->
   fieldOf d FlightData "latitude" = None ->
   fieldOf d FlightData "heading" = None ->
   fieldOf d BaseData "alive" = None ->
   getHidden u' = false).
Proof.
  intros Hr Hset. pose proof (reachable_onMap u Hr) as Hmap.
  unfold getHidden in *. split.
  - intros Hh. destruct (setData_marker _ _ _ _ Hset) as [[? _]|[Hon _]]; [done|].
    rewrite Hh in Hmap. simpl in Hmap. congruence.
  - intros Hh Hlat Hhdg Hal. unfold fieldOf in *. unfold setData in Hset.
    destruct (u_flightData d) as [fd|] eqn:Hfd; [|done].
    destruct (u_baseData d) as [bd|] eqn:Hbd; [|done].
    unfold u_sub in Hlat, Hhdg, Hal. rewrite Hfd in Hlat, Hhdg. rewrite Hbd in Hal.
    simpl in Hlat, Hhdg, Hal.
    assert (getProp fd "latitude" = VUndefined) as Elat by (unfold getProp; by rewrite Hlat).
    assert (getProp fd "heading" = VUndefined) as Ehdg by (unfold getProp; by rewrite Hhdg).
    assert (getProp bd "alive" = VUndefined) as Eal by (unfold getProp; by rewrite Hal).
    rewrite Elat, Ehdg, Eal in Hset. simpl in Hset.
    rewrite Hmap, Hh in Hset. simpl in Hset. simplify_eq.
    match goal with |- hidden (setSelected ?b ?x) = _ =>
      destruct (setSelected_marker b x) as [_ ->] end.
    done.
Qed.

Lemma property_None (k : string) o : k ∉ o.*1 -> property k o = None.
Proof.
  induction o as [|[k0 v0] o IH]; [done|]. simpl.
  intros [Hk0 Hin]%not_elem_of_cons.
  destruct (String.eqb k0 k) eqn:E; [|by apply IH].
  apply String.eqb_eq in E. congruence.
Qed.

Lemma property_app (k : string) o o' :
  property k (o ++ o') = from_option Some (property k o') (property k o).
Proof.
  induction o as [|[k0 v0] o IH]; simpl; [done|].
  by destruct (String.eqb k0 k).
Qed.

Lemma property_overwrite_ne (k k' : string) v o :
  k' <> k ->
  property k' ((fun p : string * Value => if String.eqb p.1 k then (k, v) else p) <$> o) =
  property k' o.
Proof.
  intros Hne. induction o as [|[k0 v0] o IH]; [done|]. simpl.
  destruct (String.eqb k0 k) eqn:E0; simpl.
  - apply String.eqb_eq in E0 as ->.
    destruct (String.eqb k k') eqn:E; [|done].
    apply String.eqb_eq in E. congruence.
  - by destruct (String.eqb k0 k').
Qed.

Lemma property_overwrite_eq (k : string) v o :
  k ∈ o.*1 ->
  property k ((fun p : string * Value => if String.eqb p.1 k then (k, v) else p) <$> o) =
  Some v.
Proof.
  induction o as [|[k0 v0] o IH]; [by intros ?%elem_of_nil|]. simpl.
  intros Hin. destruct (String.eqb k0 k) eqn:E0; simpl.
  - by rewrite String.eqb_refl.
  - rewrite E0. apply IH. apply elem_of_cons in Hin as [->|?]; [|done].
    by rewrite String.eqb_refl in E0.
Qed.

Lemma property_setProperty (k k' : string) v o :
  property k' (setProperty k v o) = if decide (k' = k) then Some v else property k' o.
Proof.
  unfold setProperty. destruct (decide (k ∈ o.*1)) as [Hin|Hin].
  - destruct (decide (k' = k)) as [->|Hne].
    + by apply property_overwrite_eq.
    + by apply property_overwrite_ne.
  - rewrite property_app. simpl. destruct (decide (k' = k)) as [->|Hne].
    + by rewrite (property_None _ _ Hin), String.eqb_refl.
    + destruct (String.eqb k k') eqn:E.
      * apply String.eqb_eq in E. congruence.
      * by destruct (property k' o).
Qed.

Lemma length_setProperty (k : string) v o :
  length (setProperty k v o) =
  if decide (k ∈ o.*1) then length o else S (length o).
Proof.
  unfold setProperty. case_decide.
  - by rewrite length_fmap.
  - rewrite length_app. simpl. lia.
Qed.

Lemma activePath_withActivePath v u :
  getProp (getTaskData (withActivePath v u)) "activePath" = v.
Proof. unfold getProp, getTaskData, getData. simpl. by rewrite lookup_insert_eq. Qed.

(** X7. [addDestination] on a unit that has an active path writes the
    new waypoint into that path object itself, so that the unit's own
    task data and the server call hold the same path; the waypoint goes
    under the key (number of keys + 1) and every other key keeps its
    value. When that key is already taken (the keys are not 1..n), the
    waypoint under it is replaced and the path does not grow. Nothing but
    the task data is written. *)
Theorem addDestination_shared_path latlng u path :
  getProp (getTaskData u) "activePath" = VObj path ->
  exists u' path',
    addDestination latlng u = Some (u', (ID u, VObj path')) /\
    getProp (getTaskData u') "activePath" = VObj path' /\
    property (pretty (length path + 1)%nat) path' = Some latlng /\
    (forall k : string,
       k <> pretty (length path + 1)%nat -> property k path' = property k path) /\
    length path' =
      (if decide (pretty (length path + 1)%nat ∈ path.*1)
       then length path else S (length path)) /\
    (forall s, s <> TaskData -> sub s (data u') = sub s (data u)) /\
    getSelected u' = getSelected u /\ getHidden u' = getHidden u.
Proof.
  intros Hp. unfold addDestination. rewrite Hp.
  eexists _, _. split; [done|].
  split; [apply activePath_withActivePath|].
  split; [by rewrite property_setProperty, decide_True|].
  split; [intros k Hk; by rewrite property_setProperty, decide_False|].
  split; [apply length_setProperty|].
  split; [|done]. intros s Hs. by destruct s.
Qed.

Lemma waypointKeys_S n : waypointKeys (S n) = waypointKeys n ++ [pretty (S n)].
Proof. unfold waypointKeys. by rewrite seq_S, fmap_app. Qed.

Lemma not_elem_of_waypointKeys n : pretty (S n) ∉ waypointKeys n.
Proof.
  unfold waypointKeys. intros (i & Hi & Hin)%list_elem_of_fmap.
  apply (inj pretty) in Hi. apply elem_of_seq in Hin. lia.
Qed.

Lemma addDestination_numbered latlng u path n :
  getProp (getTaskData u) "activePath" = VObj path ->
  path.*1 = waypointKeys n ->
  addDestination latlng u =
  Some (withActivePath (VObj (path ++ [(pretty (S n), latlng)])) u,
        (ID u, VObj (path ++ [(pretty (S n), latlng)]))).
Proof.
  intros Hp Hk. unfold addDestination. rewrite Hp.
  assert (length path = n) as Hn.
  { rewrite <- (length_fmap fst), Hk. unfold waypointKeys.
    by rewrite length_fmap, length_seq. }
  rewrite Hn, Nat.add_1_r. unfold setProperty. rewrite Hk.
  by rewrite decide_False by apply not_elem_of_waypointKeys.
Qed.

(** X8. Destinations added one after another to a path whose keys are
    "1", ..., "n" (as sent by the server) are appended in order: after
    adding a list of points the unit's path has the keys "1", ...,
    "n + number of points" and holds the old points followed by the new
    ones, and one server call was made per point. *)
Theorem addDestinations_appends latlngs u path n :
  getProp (getTaskData u) "activePath" = VObj path ->
  path.*1 = waypointKeys n ->
  exists u' paths path',
    addDestinations latlngs u = Some (u', paths) /\
    length paths = length latlngs /\
    getProp (getTaskData u') "activePath" = VObj path' /\
    path'.*1 = waypointKeys (n + length latlngs) /\
    path'.*2 = path.*2 ++ latlngs.
Proof.
  revert u path n. induction latlngs as [|latlng rest IH]; intros u path n Hp Hk.
  - exists u, [], path. simpl. rewrite Nat.add_0_r, app_nil_r. done.
  - simpl. rewrite (addDestination_numbered _ _ _ _ Hp Hk).
    destruct (IH (withActivePath (VObj (path ++ [(pretty (S n), latlng)])) u)
                 (path ++ [(pretty (S n), latlng)]) (S n))
      as (u' & paths & path' & -> & Hlen & Hact & Hkeys & Hvals).
    { apply activePath_withActivePath. }
    { by rewrite fmap_app, Hk, waypointKeys_S. }
    eexists _, _, path'. split; [done|]. simpl. rewrite Hlen. split; [done|].
    split; [done|]. rewrite Nat.add_succ_r. split; [done|].
    rewrite Hvals, fmap_app. simpl. by rewrite <- app_assoc.
Qed.

(** X9. After [clearDestinations] the unit has no path object to extend:
    each destination added then is sent to the server as a one-point
    path under key "1", and the unit's own path stays undefined, so a
    second destination does not extend the first. *)
Theorem addDestinations_after_clear a b u :
  addDestinations [a; b] (clearDestinations u) =
  Some (clearDestinations u, [VObj [("1", a)]; VObj [("1", b)]]).
Proof.
  assert (getProp (getTaskData (clearDestinations u)) "activePath" = VUndefined) as H.
  { unfold getProp, getTaskData, getData. simpl. by rewrite lookup_insert_eq. }
  assert (forall x, addDestination x (clearDestinations u) =
                    Some (clearDestinations u, (ID u, VObj [("1", x)]))) as Hadd.
  { intros x. unfold addDestination. by rewrite H. }
  simpl. by rewrite !Hadd.
Qed.

End UnitOpsProperties.

Section UnitOpsInstances.
Import Unit UnitOps Examples UnitOpsExamples.

Lemma carries_fuelWithEmptyBaseAndFlight v :
  carriesBaseAndFlight (fuelWithEmptyBaseAndFlight v).
Proof. split; eexists; reflexivity. Qed.

(** X2 at two fuel updates of a fresh aircraft, read at the fuel (both
    updates hold it: the second wins) and at the coalition (neither
    holds it: the old value stays). *)
Lemma setData_later_update_wins_witness :
  carriesBaseAndFlight (fuelWithEmptyBaseAndFlight 10) /\
  carriesBaseAndFlight (fuelWithEmptyBaseAndFlight 20) /\
  sub MissionData
      (data (afterAll noEnv [fuelWithEmptyBaseAndFlight 10; fuelWithEmptyBaseAndFlight 20]
                      (fresh Aircraft 3))) !! "fuel" = Some (VNum 20) /\
  sub MissionData
      (data (afterAll noEnv [fuelWithEmptyBaseAndFlight 10; fuelWithEmptyBaseAndFlight 20]
                      (fresh Aircraft 3))) !! "coalition" = Some (VStr EmptyString).
Proof.
  split; [apply carries_fuelWithEmptyBaseAndFlight|].
  split; [apply carries_fuelWithEmptyBaseAndFlight|].
  split.
  - rewrite (setData_later_update_wins noEnv (fresh Aircraft 3)
               (fuelWithEmptyBaseAndFlight 10) (fuelWithEmptyBaseAndFlight 20)
               MissionData "fuel" (carries_fuelWithEmptyBaseAndFlight 10)
               (carries_fuelWithEmptyBaseAndFlight 20)).
    vm_compute. reflexivity.
  - rewrite (setData_later_update_wins noEnv (fresh Aircraft 3)
               (fuelWithEmptyBaseAndFlight 10) (fuelWithEmptyBaseAndFlight 20)
               MissionData "coalition" (carries_fuelWithEmptyBaseAndFlight 10)
               (carries_fuelWithEmptyBaseAndFlight 20)).
    vm_compute. reflexivity.
Defined.

Lemma setData_selectedAircraft_dies :
  setData noEnv (aliveUpdate false) selectedAircraft =
  Some (afterSetData noEnv selectedAircraft (aliveUpdate false)).
Proof. vm_compute. reflexivity. Qed.

(** X4 at a selected aircraft that an update declares dead. *)
Lemma setData_selection_witness :
  reachable selectedAircraft /\
  setData noEnv (aliveUpdate false) selectedAircraft =
    Some (afterSetData noEnv selectedAircraft (aliveUpdate false)) /\
  getSelected (afterSetData noEnv selectedAircraft (aliveUpdate false)) =
    getSelected selectedAircraft &&
    alive (afterSetData noEnv selectedAircraft (aliveUpdate false)) &&
    negb (getHidden selectedAircraft).
Proof.
  split; [apply reachable_selectedAircraft|].
  split; [apply setData_selectedAircraft_dies|].
  exact (setData_selection noEnv (aliveUpdate false) selectedAircraft _
           reachable_selectedAircraft setData_selectedAircraft_dies).
Defined.

(** X5 at a dead aircraft. *)
Lemma marker_on_map_iff_not_hidden_witness :
  reachable deadAircraft /\ onMap deadAircraft = negb (getHidden deadAircraft).
Proof.
  split; [apply reachable_deadAircraft|].
  exact (marker_on_map_iff_not_hidden deadAircraft reachable_deadAircraft).
Defined.

Lemma setData_deadAircraft_revived :
  setData noEnv (aliveUpdate true) deadAircraft = Some revived.
Proof. vm_compute. reflexivity. Qed.

Lemma setData_fresh_fuel :
  setData hideAircraft (fuelWithEmptyBaseAndFlight 10) (fresh Aircraft 3) =
  Some (afterSetData hideAircraft (fresh Aircraft 3) (fuelWithEmptyBaseAndFlight 10)).
Proof. vm_compute. reflexivity. Qed.

(** X6 at a dead, hidden aircraft that an update revives, and at a shown
    aircraft that gets a fuel update while the body hides aircraft. *)
Lemma setData_visibility_refresh_witness :
  (reachable deadAircraft /\
   setData noEnv (aliveUpdate true) deadAircraft = Some revived /\
   getHidden deadAircraft = true /\
   getHidden revived = hideReasons noEnv revived) /\
  (reachable (fresh Aircraft 3) /\
   setData hideAircraft (fuelWithEmptyBaseAndFlight 10) (fresh Aircraft 3) =
     Some (afterSetData hideAircraft (fresh Aircraft 3) (fuelWithEmptyBaseAndFlight 10)) /\
   getHidden (fresh Aircraft 3) = false /\
   fieldOf (fuelWithEmptyBaseAndFlight 10) FlightData "latitude" = None /\
   fieldOf (fuelWithEmptyBaseAndFlight 10) FlightData "heading" = None /\
   fieldOf (fuelWithEmptyBaseAndFlight 10) BaseData "alive" = None /\
   hideReasons hideAircraft
     (afterSetData hideAircraft (fresh Aircraft 3) (fuelWithEmptyBaseAndFlight 10)) = true /\
   getHidden
     (afterSetData hideAircraft (fresh Aircraft 3) (fuelWithEmptyBaseAndFlight 10)) = false).
Proof.
  split.
  - assert (getHidden deadAircraft = true) as Hh by (vm_compute; reflexivity).
    split; [apply reachable_deadAircraft|].
    split; [apply setData_deadAircraft_revived|]. split; [exact Hh|].
    exact (proj1 (setData_visibility_refresh noEnv (aliveUpdate true) deadAircraft revived
                    reachable_deadAircraft setData_deadAircraft_revived) Hh).
  - assert (fieldOf (fuelWithEmptyBaseAndFlight 10) FlightData "latitude" = None) as H1
      by (vm_compute; reflexivity).
    assert (fieldOf (fuelWithEmptyBaseAndFlight 10) FlightData "heading" = None) as H2
      by (vm_compute; reflexivity).
    assert (fieldOf (fuelWithEmptyBaseAndFlight 10) BaseData "alive" = None) as H3
      by (vm_compute; reflexivity).
    split; [apply reachable_fresh|]. split; [apply setData_fresh_fuel|].
    split; [reflexivity|]. split; [exact H1|]. split; [exact H2|]. split; [exact H3|].
    split; [vm_compute; reflexivity|].
    exact (proj2 (setData_visibility_refresh hideAircraft (fuelWithEmptyBaseAndFlight 10)
                    (fresh Aircraft 3) _ (reachable_fresh Aircraft 3) setData_fresh_fuel)
             eq_refl H1 H2 H3).
Defined.

Lemma activePath_fresh cls id :
  getProp (getTaskData (fresh cls id)) "activePath" = VObj [].
Proof. vm_compute. reflexivity. Qed.

(** X7 at the first destination of a fresh aircraft, whose path is the
    empty object. *)
Lemma addDestination_shared_path_witness :
  getProp (getTaskData (fresh Aircraft 3)) "activePath" = VObj [] /\
  exists u' path',
    addDestination (latlng 41 12) (fresh Aircraft 3) =
      Some (u', (ID (fresh Aircraft 3), VObj path')) /\
    getProp (getTaskData u') "activePath" = VObj path' /\
    property (pretty (length (@nil (string * Value)) + 1)%nat) path' =
      Some (latlng 41 12) /\
    (forall k : string,
       k <> pretty (length (@nil (string * Value)) + 1)%nat ->
       property k path' = property k []) /\
    length path' =
      (if decide (pretty (length (@nil (string * Value)) + 1)%nat ∈
                  (@nil (string * Value)).*1)
       then length (@nil (string * Value)) else S (length (@nil (string * Value)))) /\
    (forall s, s <> TaskData -> sub s (data u') = sub s (data (fresh Aircraft 3))) /\
    getSelected u' = getSelected (fresh Aircraft 3) /\
    getHidden u' = getHidden (fresh Aircraft 3).
Proof.
  split; [apply activePath_fresh|].
  exact (addDestination_shared_path (latlng 41 12) (fresh Aircraft 3) []
           (activePath_fresh Aircraft 3)).
Defined.

Lemma activePath_enRoute :
  getProp (getTaskData enRoute) "activePath" =
  VObj [("1", latlng 41 12); ("2", latlng 42 13)].
Proof. vm_compute. reflexivity. Qed.

(** X8 at an aircraft with a path of two points that gets two more. *)
Lemma addDestinations_appends_witness :
  getProp (getTaskData enRoute) "activePath" =
    VObj [("1", latlng 41 12); ("2", latlng 42 13)] /\
  [("1", latlng 41 12); ("2", latlng 42 13)].*1 = waypointKeys 2 /\
  exists u' paths path',
    addDestinations [latlng 43 14; latlng 44 15] enRoute = Some (u', paths) /\
    length paths = length [latlng 43 14; latlng 44 15] /\
    getProp (getTaskData u') "activePath" = VObj path' /\
    path'.*1 = waypointKeys (2 + length [latlng 43 14; latlng 44 15]) /\
    path'.*2 = [("1", latlng 41 12); ("2", latlng 42 13)].*2 ++
               [latlng 43 14; latlng 44 15].
Proof.
  assert ([("1", latlng 41 12); ("2", latlng 42 13)].*1 = waypointKeys 2) as Hk
    by (vm_compute; reflexivity).
  split; [apply activePath_enRoute|]. split; [exact Hk|].
  exact (addDestinations_appends [latlng 43 14; latlng 44 15] enRoute
           [("1", latlng 41 12); ("2", latlng 42 13)] 2 activePath_enRoute Hk).
Defined.

End UnitOpsInstances.

(** * More properties of the units manager *)

Section Selection.
Import UnitsManager UnitsManagerOps.

Context (acc : Accessors).

Implicit Types (m : Manager) (unit e : Entry) (us : list Entry).

Lemma foldl_segregateStep data us :
  foldl (segregateStep acc) data us =
  {| controllable := controllable data;
     dcsProtected := dcsProtected data ++
       filter (fun e => isControllable acc e = false) us;
     dcsUnprotected := dcsUnprotected data ++
       filter (fun e => getHuman acc e = false /\ isControlledByOlympus acc e = false /\
                        getIsUnitProtected acc e = false) us;
     human := human data ++ filter (fun e => getHuman acc e = true) us;
     olympus := olympus data ++
       filter (fun e => getHuman acc e = false /\ isControlledByOlympus acc e = true) us |}.
Proof.
  revert data. induction us as [|e us IH]; intros data.
  - simpl. rewrite !filter_nil, !app_nil_r. by destruct data.
  - simpl. rewrite IH. rewrite !filter_cons. unfold segregateStep, isControllable.
    destruct (getHuman acc e), (isControlledByOlympus acc e), (getIsUnitProtected acc e);
      simpl;
      repeat (first [rewrite decide_True by (simpl; intuition congruence)
                    |rewrite decide_False by (simpl; intuition congruence)]);
      by rewrite <- ?app_assoc.
Qed.

Lemma four_filters {A} (P1 P2 P3 P4 : A -> Prop)
    `{!forall x, Decision (P1 x)} `{!forall x, Decision (P2 x)}
    `{!forall x, Decision (P3 x)} `{!forall x, Decision (P4 x)} (l : list A) :
  (forall x, x ∈ l ->
             (P1 x /\ ~ P2 x /\ ~ P3 x /\ ~ P4 x) \/ (~ P1 x /\ P2 x /\ ~ P3 x /\ ~ P4 x) \/
             (~ P1 x /\ ~ P2 x /\ P3 x /\ ~ P4 x) \/ (~ P1 x /\ ~ P2 x /\ ~ P3 x /\ P4 x)) ->
  (filter P1 l ++ filter P2 l ++ filter P3 l) ++ filter P4 l ≡ₚ l.
Proof.
  intros Hone. induction l as [|x l IH]; [done|].
  assert (forall y, y ∈ l -> y ∈ x :: l) as Hin by (intros y ?; by apply elem_of_cons; right).
  specialize (IH (fun y Hy => Hone y (Hin y Hy))).
  pose proof (Hone x (list_elem_of_here x l)) as Hx. clear Hone Hin.
  rewrite !filter_cons.
  set (f1 := filter P1 l) in *. set (f2 := filter P2 l) in *.
  set (f3 := filter P3 l) in *. set (f4 := filter P4 l) in *.
  trans (x :: (f1 ++ f2 ++ f3) ++ f4); [|by rewrite IH].
  destruct Hx as [(?&?&?&?)|[(?&?&?&?)|[(?&?&?&?)|(?&?&?&?)]]];
    repeat (first [rewrite decide_True by done|rewrite decide_False by done]).
  - done.
  - rewrite <- !app_assoc. simpl. symmetry. apply Permutation_middle.
  - rewrite <- !app_assoc. simpl. rewrite !(app_assoc f1 f2). symmetry.
    apply Permutation_middle.
  - symmetry. apply Permutation_middle.
Qed.


Lemma foldl_selectStep options (s : list Entry * nat) us :
  foldl (selectStep acc options) s us =
  (s.1 ++ filter (fun e => passes acc options e = true) us,
   (s.2 + length (filter (fun e => heldBack acc options e = true) us))%nat).
Proof.
  revert s. induction us as [|e us IH]; intros [l n].
  - simpl. rewrite !filter_nil, app_nil_r. simpl. by rewrite Nat.add_0_r.
  - simpl. rewrite IH. rewrite !filter_cons. unfold selectStep, passes, heldBack.
    destruct (getSelected e.2); simpl.
    + destruct options as [o|]; simpl.
      * destruct (excludeHumans o && getHuman acc e); simpl; [done|].
        destruct (excludeProtected o && getIsUnitProtected acc e); simpl.
        -- f_equal. lia.
        -- by rewrite <- app_assoc.
      * by rewrite <- app_assoc.
    + done.
Qed.

Lemma existsb_groupName (unit : Entry) us :
  existsb (fun otherUnit : Entry =>
             String.eqb (getGroupName unit.2) (getGroupName otherUnit.2)) us = true <->
  getGroupName unit.2 ∈ (fun e : Entry => getGroupName e.2) <$> us.
Proof.
  rewrite existsb_exists, list_elem_of_fmap. split.
  - intros (x & Hin & Heq). apply String.eqb_eq in Heq.
    exists x. split; [done|]. by apply list_elem_of_In.
  - intros (x & Heq & Hin). exists x. split; [by apply list_elem_of_In|].
    by apply String.eqb_eq.
Qed.

Lemma foldl_onePerGroup temp us :
  (exists k, foldl onePerGroupStep temp us = temp ++ k /\ k `sublist_of` us) /\
  (NoDup ((fun e : Entry => getGroupName e.2) <$> temp) ->
   NoDup ((fun e : Entry => getGroupName e.2) <$> foldl onePerGroupStep temp us)) /\
  (forall e, e ∈ temp ++ us ->
     exists e', e' ∈ foldl onePerGroupStep temp us /\
                getGroupName e'.2 = getGroupName e.2).
Proof.
  revert temp. induction us as [|unit us IH]; intros temp.
  - simpl. split; [exists []; by rewrite app_nil_r|]. split; [done|].
    intros e He. rewrite app_nil_r in He. eauto.
  - simpl.
    destruct (existsb (fun otherUnit : Entry =>
                String.eqb (getGroupName unit.2) (getGroupName otherUnit.2)) temp) eqn:Hex.
    + assert (onePerGroupStep temp unit = temp) as ->
        by (unfold onePerGroupStep; by rewrite Hex).
      destruct (IH temp) as ((k & Hk & Hsub) & Hnd & Hall).
      split; [exists k; split; [done|by apply sublist_cons]|]. split; [done|].
      intros e [He|[->|He]%elem_of_cons]%elem_of_app.
      * apply Hall, elem_of_app. by left.
      * apply existsb_groupName, list_elem_of_fmap in Hex as (x & Hx & Hin).
        destruct (Hall x) as (e' & He' & Hg); [apply elem_of_app; by left|].
        exists e'. split; [done|]. congruence.
      * apply Hall, elem_of_app. by right.
    + assert (onePerGroupStep temp unit = temp ++ [unit]) as ->
        by (unfold onePerGroupStep; by rewrite Hex).
      destruct (IH (temp ++ [unit])) as ((k & Hk & Hsub) & Hnd & Hall).
      split; [exists (unit :: k); split;
                [by rewrite Hk, <- app_assoc|by apply sublist_skip]|].
      split.
      * intros Hn. apply Hnd. rewrite fmap_app. simpl.
        apply NoDup_app. split; [done|]. split; [|apply NoDup_singleton].
        intros g Hg ->%list_elem_of_singleton.
        apply existsb_groupName in Hg. congruence.
      * intros e [He|[->|He]%elem_of_cons]%elem_of_app.
        -- apply Hall. rewrite !elem_of_app. by left; left.
        -- apply Hall. rewrite !elem_of_app. left; right. apply list_elem_of_singleton.
           done.
        -- apply Hall, elem_of_app. by right.
Qed.

Lemma getSelectedUnits_unfold options m :
  getSelectedUnits acc options m =
  let selectedUnits := filter (fun e => passes acc options e = true) (unitEntries m) in
  let numProtectedUnits :=
    length (filter (fun e => heldBack acc options e = true) (unitEntries m)) in
  match options with
  | Some o =>
      (if onlyOnePerGroup o then onePerGroup selectedUnits else selectedUnits,
       if showProtectionReminder o && (length selectedUnits <? numProtectedUnits)%nat
          && (length selectedUnits =? 0)%nat
       then showProtectedUnitsPopup numProtectedUnits else None)
  | None => (selectedUnits, None)
  end.
Proof. unfold getSelectedUnits. by rewrite foldl_selectStep. Qed.

(** X11. [getSelectedUnits] returns selected units of the table only, in
    the order of the table. Without options, or with
    [onlyOnePerGroup] off, these are all the selected units that are not
    excluded as human or as protected; with [onlyOnePerGroup] on, the
    first such unit of every group name is kept, so no two returned
    units share a group name and every group name of a unit that was not
    excluded is represented. *)
Theorem getSelectedUnits_result options m :
  (getSelectedUnits acc options m).1 `sublist_of`
    filter (fun e => passes acc options e = true) (unitEntries m) /\
  (forall e, e ∈ (getSelectedUnits acc options m).1 ->
     units m !! e.1 = Some e.2 /\ getSelected e.2 = true /\
     forall o, options = Some o ->
       (excludeHumans o = true -> getHuman acc e = false) /\
       (excludeProtected o = true -> getIsUnitProtected acc e = false)) /\
  ((forall o, options = Some o -> onlyOnePerGroup o = false) ->
   (getSelectedUnits acc options m).1 =
     filter (fun e => passes acc options e = true) (unitEntries m)) /\
  (forall o, options = Some o -> onlyOnePerGroup o = true ->
     NoDup ((fun e : Entry => getGroupName e.2) <$> (getSelectedUnits acc options m).1) /\
     forall e, e ∈ unitEntries m -> passes acc options e = true ->
       exists e', e' ∈ (getSelectedUnits acc options m).1 /\
                  getGroupName e'.2 = getGroupName e.2).
Proof.
  rewrite getSelectedUnits_unfold. cbv zeta.
  set (sel := filter (fun e => passes acc options e = true) (unitEntries m)).
  destruct (foldl_onePerGroup [] sel) as ((k & Hk & Hsub) & Hnd & Hall).
  fold (onePerGroup sel) in Hk, Hnd, Hall. simpl in Hk.
  assert ((match options with
           | Some o =>
               (if onlyOnePerGroup o then onePerGroup sel else sel,
                if showProtectionReminder o &&
                   (length sel <? length (filter (fun e => heldBack acc options e = true)
                                                 (unitEntries m)))%nat
                   && (length sel =? 0)%nat
                then showProtectedUnitsPopup
                       (length (filter (fun e => heldBack acc options e = true)
                                       (unitEntries m)))
                else None)
           | None => (sel, None)
           end).1 `sublist_of` sel) as Hs.
  { destruct options as [o|]; simpl; [|done]. destruct (onlyOnePerGroup o); [|done].
    by rewrite Hk. }
  split; [exact Hs|]. split; [|split].
  - intros e He. eapply elem_of_sublist in He; [|exact Hs].
    apply list_elem_of_filter in He as [Hp He]. destruct e as [id u].
    apply elem_of_unitEntries in He. split; [done|].
    unfold passes in Hp. apply andb_true_iff in Hp as [Hsel Hp]. split; [done|].
    intros o ->. apply andb_true_iff in Hp as [Hh Hpr].
    rewrite negb_true_iff, andb_false_iff in Hh, Hpr.
    split; intros Hx; rewrite Hx in *; intuition congruence.
  - intros Hno. destruct options as [o|]; simpl; [|done].
    by rewrite (Hno o eq_refl).
  - intros o -> Hone. simpl. rewrite Hone. simpl. split; [apply Hnd; constructor|].
    intros e He Hp. apply Hall. simpl. apply list_elem_of_filter. done.
Qed.

(** X12. [getSelectedUnits] shows the protection reminder exactly when
    the reminder is asked for, no selected unit passed the options, and
    at least one selected unit was held back as protected (a human unit
    that [excludeHumans] dropped does not count); the text is in the
    singular for one such unit and in the plural for more. *)
Theorem getSelectedUnits_reminder options m text :
  (getSelectedUnits acc options m).2 = Some text <->
  exists o,
    options = Some o /\ showProtectionReminder o = true /\
    filter (fun e => passes acc options e = true) (unitEntries m) = [] /\
    (1 <= length (filter (fun e => heldBack acc options e = true) (unitEntries m)))%nat /\
    text =
      if decide (length (filter (fun e => heldBack acc options e = true)
                                (unitEntries m)) = 1%nat)
      then "Unit is protected" else "All selected units are protected".
Proof.
  rewrite getSelectedUnits_unfold. cbv zeta.
  set (sel := filter (fun e => passes acc options e = true) (unitEntries m)).
  set (n := length (filter (fun e => heldBack acc options e = true) (unitEntries m))).
  destruct options as [o|]; simpl.
  2:{ split; [done|]. by intros (o & ? & _). }
  unfold showProtectedUnitsPopup.
  destruct (showProtectionReminder o) eqn:Hrem; simpl.
  2:{ split; [done|]. intros (o' & [= <-] & ? & _). congruence. }
  destruct sel as [|e sel'] eqn:Hsel; simpl.
  - destruct n as [|n'] eqn:Hn; simpl.
    + split; [done|]. intros (_ & _ & _ & _ & ? & _). lia.
    + split.
      * intros [= <-]. exists o. do 3 (split; [done|]). split; [lia|].
        destruct n' as [|n'']; simpl; by rewrite ?decide_True, ?decide_False by lia.
      * intros (_ & _ & _ & _ & _ & ->). f_equal.
        destruct n' as [|n'']; simpl; by rewrite ?decide_True, ?decide_False by lia.
  - rewrite andb_false_r. split; [done|]. by intros (_ & _ & _ & ? & _).
Qed.

Lemma filter_ext_in {A} (P Q : A -> Prop)
    `{!forall x, Decision (P x)} `{!forall x, Decision (Q x)} (l : list A) :
  (forall x, x ∈ l -> (P x <-> Q x)) -> filter P l = filter Q l.
Proof.
  induction l as [|x l IH]; intros Hl; [done|].
  rewrite !filter_cons.
  assert (filter P l = filter Q l) as ->.
  { apply IH. intros y Hy. apply Hl, elem_of_cons. by right. }
  pose proof (Hl x (list_elem_of_here x l)) as Hx.
  destruct (decide (P x)), (decide (Q x)); tauto.
Qed.

Lemma filter_none {A} (P : A -> Prop) `{!forall x, Decision (P x)} (l : list A) :
  (forall x, x ∈ l -> ~ P x) -> filter P l = [].
Proof.
  induction l as [|x l IH]; intros Hl; [done|].
  rewrite filter_cons, decide_False by apply Hl, list_elem_of_here.
  apply IH. intros y Hy. apply Hl, elem_of_cons. by right.
Qed.

Lemma filter_all {A} (P : A -> Prop) `{!forall x, Decision (P x)} (l : list A) :
  (forall x, x ∈ l -> P x) -> filter P l = l.
Proof.
  induction l as [|x l IH]; intros Hl; [done|].
  rewrite filter_cons, decide_True by apply Hl, list_elem_of_here.
  f_equal. apply IH. intros y Hy. apply Hl, elem_of_cons. by right.
Qed.

Lemma segregateUnits_lists us :
  segregateUnits acc us =
  {| controllable :=
       filter (fun e => getHuman acc e = false /\ isControlledByOlympus acc e = false /\
                        getIsUnitProtected acc e = false) us ++
       filter (fun e => getHuman acc e = true) us ++
       filter (fun e => getHuman acc e = false /\ isControlledByOlympus acc e = true) us;
     dcsProtected := filter (fun e => isControllable acc e = false) us;
     dcsUnprotected :=
       filter (fun e => getHuman acc e = false /\ isControlledByOlympus acc e = false /\
                        getIsUnitProtected acc e = false) us;
     human := filter (fun e => getHuman acc e = true) us;
     olympus :=
       filter (fun e => getHuman acc e = false /\ isControlledByOlympus acc e = true) us |}.
Proof. unfold segregateUnits. by rewrite foldl_segregateStep. Qed.

Lemma controllable_Permutation us :
  controllable (segregateUnits acc us) ≡ₚ filter (fun e => isControllable acc e = true) us.
Proof.
  rewrite segregateUnits_lists. simpl.
  set (C := fun e => isControllable acc e = true).
  rewrite <- (list_filter_filter_l _ C us),
    <- (list_filter_filter_l (fun e => getHuman acc e = true) C us),
    <- (list_filter_filter_l
          (fun e => getHuman acc e = false /\ isControlledByOlympus acc e = true) C us).
  - rewrite <- (app_nil_r (_ ++ _ ++ _)).
    rewrite <- (filter_none (fun _ : Entry => False) (filter C us)) at 1 by tauto.
    apply four_filters. intros e [He _]%list_elem_of_filter. unfold C, isControllable in He.
    destruct (getHuman acc e), (isControlledByOlympus acc e), (getIsUnitProtected acc e);
      simpl in He; intuition congruence.
  - intros e. unfold C, isControllable. intros [-> ->]. done.
  - intros e. unfold C, isControllable. by intros ->.
  - intros e. unfold C, isControllable. intros (-> & -> & ->). done.
Qed.

Lemma passes_selected o m e :
  excludeHumans o = true -> excludeProtected o = true ->
  e ∈ (getSelectedUnits acc (Some o) m).1 ->
  getHuman acc e = false /\ getIsUnitProtected acc e = false.
Proof.
  intros Hh Hp. rewrite getSelectedUnits_unfold. cbv zeta. simpl.
  set (sel := filter (fun e => passes acc (Some o) e = true) (unitEntries m)).
  intros He. assert (e ∈ sel) as Hin.
  { destruct (onlyOnePerGroup o); [|done].
    destruct (foldl_onePerGroup [] sel) as ((k & Hk & Hsub) & _).
    unfold onePerGroup in He. rewrite Hk in He. simpl in He.
    by eapply elem_of_sublist. }
  apply list_elem_of_filter in Hin as [Hpass _]. unfold passes in Hpass.
  rewrite Hh, Hp in Hpass. simpl in Hpass.
  destruct (getSelected e.2), (getHuman acc e), (getIsUnitProtected acc e); done.
Qed.

Lemma reminder_empty options m text :
  (getSelectedUnits acc options m).2 = Some text -> (getSelectedUnits acc options m).1 = [].
Proof.
  rewrite getSelectedUnits_unfold. cbv zeta.
  destruct options as [o|]; simpl; [|done].
  destruct (filter _ _) as [|e l]; simpl.
  - intros _. destruct (onlyOnePerGroup o); done.
  - by rewrite andb_false_r.
Qed.

(** X13. A command given without a list of units goes to the selected
    units that are neither human nor protected (one per group where the
    options say so): the segregation that follows drops none of them and
    shows no popup of its own, it only puts the units that Olympus does
    not control before those it controls. The command is dropped only
    when there is no such unit, and then the reminder of
    [getSelectedUnits] is the only popup. *)
Theorem command_without_units_goes_to_selection o m :
  excludeHumans o = true -> excludeProtected o = true ->
  commandedUnits acc o None m =
  (if decide ((getSelectedUnits acc (Some o) m).1 = []) then None
   else Some (filter (fun e => isControlledByOlympus acc e = false)
                     (getSelectedUnits acc (Some o) m).1 ++
              filter (fun e => isControlledByOlympus acc e = true)
                     (getSelectedUnits acc (Some o) m).1),
   option_list (getSelectedUnits acc (Some o) m).2) /\
  ((getSelectedUnits acc (Some o) m).1 <> [] -> (getSelectedUnits acc (Some o) m).2 = None).
Proof.
  intros Hh Hp.
  assert ((getSelectedUnits acc (Some o) m).1 <> [] ->
          (getSelectedUnits acc (Some o) m).2 = None) as Hrem.
  { intros Hne. destruct (getSelectedUnits acc (Some o) m).2 as [text|] eqn:E; [|done].
    by apply reminder_empty in E. }
  split; [|exact Hrem].
  pose proof (passes_selected o m) as Hsel. specialize (Hsel) with (1 := Hh) (2 := Hp).
  unfold commandedUnits.
  destruct (getSelectedUnits acc (Some o) m) as [sel reminder].
  simpl in Hrem, Hsel. cbv beta iota zeta. unfold fst, snd.
  rewrite segregateUnits_lists. cbn [controllable dcsProtected].
  rewrite (filter_none (fun e => getHuman acc e = true) sel)
    by (intros e He; destruct (Hsel e He); congruence).
  rewrite (filter_none (fun e => isControllable acc e = false) sel).
  2:{ intros e He. destruct (Hsel e He) as [_ Hpr]. unfold isControllable.
      rewrite Hpr, orb_true_r. done. }
  rewrite (filter_ext_in (fun e => getHuman acc e = false /\ isControlledByOlympus acc e = false /\
                                   getIsUnitProtected acc e = false)
                         (fun e => isControlledByOlympus acc e = false) sel)
    by (intros e He; destruct (Hsel e He); tauto).
  rewrite (filter_ext_in (fun e => getHuman acc e = false /\ isControlledByOlympus acc e = true)
                         (fun e => isControlledByOlympus acc e = true) sel)
    by (intros e He; destruct (Hsel e He); tauto).
  simpl. rewrite app_nil_r.
  assert (filter (fun e => isControlledByOlympus acc e = false) sel ++
          filter (fun e => isControlledByOlympus acc e = true) sel ≡ₚ sel) as Hperm.
  { rewrite <- (filter_app_complement (fun e => isControlledByOlympus acc e = false) sel) at 3.
    f_equiv. erewrite list_filter_iff; [done|]. intros e. simpl.
    destruct (isControlledByOlympus acc e); split; congruence. }
  destruct (decide (sel = [])) as [->|Hne].
  - by rewrite !filter_nil.
  - destruct (filter _ sel ++ filter _ sel) as [|e l] eqn:E.
    + apply Permutation_nil_l in Hperm. congruence.
    + simpl. by rewrite (Hrem Hne).
Qed.

(** X14. A command given with a list of units goes to the units of the
    list that are human, controlled by Olympus or not protected, each as
    often as the list has it, and then shows no popup; when the list has
    none, nothing is sent and the popup tells that the unit is, or all
    units are, protected (no popup for an empty list). *)
Theorem changeSpeed_on_given_units speedChange us m :
  (changeSpeed acc speedChange (Some us) m).1 ≡ₚ
    (fun e : Entry => (e.1, speedChange)) <$>
      filter (fun e => isControllable acc e = true) us /\
  ((exists e, e ∈ us /\ isControllable acc e = true) ->
   (changeSpeed acc speedChange (Some us) m).2 = []) /\
  ((forall e, e ∈ us -> isControllable acc e = false) ->
   changeSpeed acc speedChange (Some us) m =
   ([], match us with
        | [] => []
        | [_] => ["Unit is protected"]
        | _ => ["All selected units are protected"]
        end)).
Proof.
  pose proof (controllable_Permutation us) as Hperm.
  unfold changeSpeed, commandedUnits.
  assert (dcsProtected (segregateUnits acc us) =
          filter (fun e => isControllable acc e = false) us) as Hprot
    by (by rewrite segregateUnits_lists).
  rewrite Hprot.
  destruct (controllable (segregateUnits acc us)) as [|c cs] eqn:Hc; simpl.
  - apply Permutation_nil_l in Hperm. symmetry in Hperm.
    split; [by rewrite Hperm|]. split.
    + intros (e & He & Hctl).
      assert (e ∈ filter (fun e => isControllable acc e = true) us) as Hin
        by (by apply list_elem_of_filter).
      rewrite Hperm in Hin. by apply elem_of_nil in Hin.
    + intros Hall. f_equal.
      rewrite (filter_all _ us Hall).
      by destruct us as [|? [|? ?]].
  - split; [by rewrite <- Hperm|]. split; [done|].
    intros Hall. exfalso.
    assert (c ∈ filter (fun e => isControllable acc e = true) us) as Hin
      by (rewrite <- Hperm; apply list_elem_of_here).
    apply list_elem_of_filter in Hin as [Hctl Hin]. rewrite (Hall c Hin) in Hctl. done.
Qed.

End Selection.

Section SelectionCommands.
Import UnitsManager UnitsManagerOps.

Context (acc : Accessors).

Implicit Types (m : Manager) (u : Unit) (e : Entry) (id h : N).

Lemma foldl_alter_lookup (f : Unit -> Unit) (ids : list N) (t : gmap N Unit) j :
  (forall u, f (f u) = f u) ->
  foldl (fun t id => alter f id t) t ids !! j =
  if decide (j ∈ ids) then f <$> t !! j else t !! j.
Proof.
  intros Hf. revert t. induction ids as [|i ids IH]; intros t; simpl.
  - done.
  - rewrite IH. rewrite lookup_alter.
    destruct (decide (j ∈ ids)) as [Hin|Hin]; destruct (decide (i = j)) as [->|Hne].
    + rewrite (decide_True (P := j ∈ j :: ids)) by apply list_elem_of_here.
      destruct (t !! j); simpl; [|done]. by rewrite Hf.
    + by rewrite (decide_True (P := j ∈ i :: ids)) by (apply elem_of_cons; by right).
    + by rewrite (decide_True (P := j ∈ j :: ids)) by apply list_elem_of_here.
    + by rewrite (decide_False (P := j ∈ i :: ids))
        by (intros [?|?]%elem_of_cons; congruence).
Qed.

Lemma setSelected_idemp b u : setSelected b (setSelected b u) = setSelected b u.
Proof.
  unfold setSelected at 2.
  destruct ((alive (fields u) || negb b) && selectable (fields u) &&
            negb (Bool.eqb (selected (fields u)) b)) eqn:E.
  - unfold setSelected. simpl. rewrite eqb_reflx. simpl. by rewrite andb_false_r, E.
  - unfold setSelected. by rewrite E.
Qed.

Lemma foldl_callSetSelected_units b (ids : list N) (s : Manager * Calls) j :
  units (foldl (callSetSelected b) s ids).1 !! j =
    (if decide (j ∈ ids) then setSelected b <$> units s.1 !! j else units s.1 !! j) /\
  groups (foldl (callSetSelected b) s ids).1 = groups s.1 /\
  requestDetectionUpdate (foldl (callSetSelected b) s ids).1 = requestDetectionUpdate s.1.
Proof.
  assert (units (foldl (callSetSelected b) s ids).1 =
          foldl (fun t id => alter (setSelected b) id t) (units s.1) ids /\
          groups (foldl (callSetSelected b) s ids).1 = groups s.1 /\
          requestDetectionUpdate (foldl (callSetSelected b) s ids).1 =
            requestDetectionUpdate s.1) as (-> & -> & ->).
  { revert s. induction ids as [|i ids IH]; intros s; [done|]. simpl.
    destruct (IH (callSetSelected b s i)) as (-> & -> & ->). done. }
  split; [|done]. apply foldl_alter_lookup, setSelected_idemp.
Qed.

Lemma setSelected_false_unselected u :
  getSelected u = false -> setSelected false u = u.
Proof.
  unfold getSelected, setSelected. intros ->. simpl. by rewrite andb_false_r.
Qed.

Lemma getSelected_setSelected b u :
  getSelected (setSelected b u) =
  if (alive (fields u) || negb b) && selectable (fields u) then b else getSelected u.
Proof.
  unfold setSelected, getSelected.
  destruct (alive (fields u) || negb b), (selectable (fields u)),
    (selected (fields u)) eqn:E, b; simpl; by rewrite ?E.
Qed.

Lemma selectable_setSelected b u :
  selectable (fields (setSelected b u)) = selectable (fields u).
Proof. unfold setSelected. by case_match. Qed.

Lemma selected_ids m j :
  j ∈ (getSelectedUnits acc None m).1.*1 <->
  exists u, units m !! j = Some u /\ getSelected u = true.
Proof.
  rewrite getSelectedUnits_unfold. cbv zeta. simpl.
  rewrite list_elem_of_fmap. split.
  - intros ([i u] & -> & [Hp Hin]%list_elem_of_filter). simpl.
    apply elem_of_unitEntries in Hin. exists u. split; [done|].
    unfold passes in Hp. simpl in Hp. by rewrite andb_true_r in Hp.
  - intros (u & Hu & Hsel). exists (j, u). split; [done|].
    apply list_elem_of_filter. split; [|by apply elem_of_unitEntries].
    unfold passes. simpl. by rewrite Hsel.
Qed.

Lemma callSetSelectedIfPresent_units b (s : Manager * Calls) id j :
  units (callSetSelectedIfPresent b s id).1 !! j =
  if decide (j = id) then setSelected b <$> units s.1 !! j else units s.1 !! j.
Proof.
  unfold callSetSelectedIfPresent.
  destruct (decide (is_Some (units s.1 !! id))) as [Hsome|Hnone].
  - unfold callSetSelected. simpl. rewrite lookup_alter.
    destruct (decide (id = j)) as [->|Hne].
    + by rewrite decide_True by done.
    + by rewrite decide_False by done.
  - destruct (decide (j = id)) as [->|Hne]; [|done].
    destruct (units s.1 !! id); [|done]. exfalso. apply Hnone. eauto.
Qed.

Lemma callSetSelectedIfPresent_calls b (s : Manager * Calls) id :
  (callSetSelectedIfPresent b s id).2 =
  s.2 ++ (if decide (is_Some (units s.1 !! id)) then [(id, b)] else []).
Proof.
  unfold callSetSelectedIfPresent. case_decide; [done|]. by rewrite app_nil_r.
Qed.

(** X15. [selectUnit(ID)] with [deselectAllUnits] on calls
    [setSelected(false)] on the selected units other than [ID] and then
    [setSelected(true)] on [ID], if the table has it: afterwards no
    selectable unit other than [ID] is selected, the unit [ID] is
    selected if it is alive and selectable, and no unit is added or
    removed. With [deselectAllUnits] off the other units are left as
    they are. *)
Theorem selectUnit_result ID deselectAll m :
  (forall j, j <> ID ->
     units (selectUnit acc ID deselectAll m).1 !! j =
     (if deselectAll then setSelected false else fun u => u) <$> units m !! j) /\
  units (selectUnit acc ID deselectAll m).1 !! ID = setSelected true <$> units m !! ID /\
  (deselectAll = true ->
   forall j u', units (selectUnit acc ID deselectAll m).1 !! j = Some u' ->
     getSelected u' = true -> selectable (fields u') = true -> j = ID) /\
  (forall u', units (selectUnit acc ID deselectAll m).1 !! ID = Some u' ->
     alive (fields u') = true -> selectable (fields u') = true ->
     getSelected u' = true) /\
  ((ID, true) ∈ (selectUnit acc ID deselectAll m).2 <-> is_Some (units m !! ID)).
Proof.
  unfold selectUnit.
  set (ids := (filter (fun unit : Entry => unit.1 <> ID)
                 (getSelectedUnits acc None m).1).*1).
  set (s := if deselectAll then foldl (callSetSelected false) (m, []) ids
            else (m, [])).
  assert (forall j, j ∈ ids <->
            j <> ID /\ exists u, units m !! j = Some u /\ getSelected u = true) as Hids.
  { intros j. unfold ids. rewrite <- selected_ids, !list_elem_of_fmap. split.
    - intros (e & -> & [Hne Hin]%list_elem_of_filter). eauto.
    - intros (Hne & e & -> & Hin). exists e. split; [done|].
      by apply list_elem_of_filter. }
  assert (forall j, units s.1 !! j =
            if decide (j = ID) then units m !! j
            else (if deselectAll then setSelected false else fun u => u) <$> units m !! j)
    as Hs.
  { intros j. unfold s. destruct deselectAll.
    - destruct (foldl_callSetSelected_units false ids (m, [] : Calls) j) as (Hu & _).
      unfold Calls in *. rewrite Hu. clear Hu.
      simpl. destruct (decide (j = ID)) as [->|Hne].
      + rewrite decide_False; [done|]. rewrite Hids. tauto.
      + destruct (decide (j ∈ ids)) as [Hin|Hin]; [done|].
        destruct (units m !! j) as [u|] eqn:Hu; [simpl|done].
        rewrite setSelected_false_unselected; [done|].
        destruct (getSelected u) eqn:Hsel; [|done].
        exfalso. apply Hin, Hids. eauto.
    - simpl. destruct (decide (j = ID)); [done|]. by destruct (units m !! j). }
  assert (forall c, c ∈ s.2 -> c.2 = false) as Hcalls.
  { unfold s. destruct deselectAll; [|by intros c ?%elem_of_nil].
    destruct (foldl_callSetSelected false ids (m, [] : Calls)) as [Hc _].
    intros c Hin. unfold Calls in *. rewrite Hc in Hin. simpl in Hin.
    by apply list_elem_of_fmap in Hin as (j & -> & _). }
  assert (forall j, units (callSetSelectedIfPresent true s ID).1 !! j =
            if decide (j = ID) then setSelected true <$> units m !! j
            else (if deselectAll then setSelected false else fun u => u) <$> units m !! j)
    as Hall.
  { intros j. rewrite callSetSelectedIfPresent_units, Hs. by case_decide. }
  clearbody s. clear ids Hids.
  split; [intros j Hne; rewrite Hall; by rewrite decide_False by done|].
  split; [rewrite Hall; by rewrite decide_True by done|].
  split; [|split].
  - intros -> j u' Hu' Hsel Hsl. destruct (decide (j = ID)) as [|Hne]; [done|].
    exfalso. rewrite Hall, decide_False in Hu' by done.
    destruct (units m !! j) as [u|]; [|done]. simpl in Hu'. simplify_eq.
    rewrite getSelected_setSelected, selectable_setSelected in *.
    rewrite Hsl, orb_true_r in Hsel. done.
  - intros u' Hu' Hal Hsl. rewrite Hall, decide_True in Hu' by done.
    destruct (units m !! ID) as [u|]; [|done]. simpl in Hu'. simplify_eq.
    rewrite getSelected_setSelected. rewrite selectable_setSelected in Hsl.
    destruct (setSelected_keeps true u) as [Ha _]. unfold getAlive in Ha.
    rewrite Ha in Hal. by rewrite Hal, Hsl.
  - rewrite callSetSelectedIfPresent_calls.
    pose proof (Hs ID) as HsID. rewrite decide_True in HsID by done.
    rewrite HsID. destruct (decide (is_Some (units m !! ID))) as [Hsome|Hnone].
    + split; [done|]. intros _. apply elem_of_app. right. apply list_elem_of_here.
    + rewrite app_nil_r. split; [|done]. intros Hin. apply Hcalls in Hin. done.
Qed.

Lemma unitSetHotgroup_idemp ho u :
  unitSetHotgroup ho (unitSetHotgroup ho u) = unitSetHotgroup ho u.
Proof. done. Qed.

Lemma setHotgroupOf_units ho m (us : list Entry) j :
  units (setHotgroupOf ho m us) !! j =
    (if decide (j ∈ us.*1) then unitSetHotgroup ho <$> units m !! j else units m !! j) /\
  groups (setHotgroupOf ho m us) = groups m.
Proof.
  unfold setHotgroupOf.
  assert (units (foldl (fun m id => withUnits (alter (unitSetHotgroup ho) id (units m)) m)
                       m us.*1) =
          foldl (fun t id => alter (unitSetHotgroup ho) id t) (units m) us.*1 /\
          groups (foldl (fun m id => withUnits (alter (unitSetHotgroup ho) id (units m)) m)
                        m us.*1) = groups m) as (-> & ->).
  { generalize (us.*1). intros ids. revert m.
    induction ids as [|i ids IH]; intros m; [done|]. simpl.
    destruct (IH (withUnits (alter (unitSetHotgroup ho) i (units m)) m)) as (-> & ->).
    done. }
  split; [|done]. apply foldl_alter_lookup, unitSetHotgroup_idemp.
Qed.

Lemma hotgroup_ids m h j :
  j ∈ (getUnitsByHotgroup m h).*1 <->
  exists u, units m !! j = Some u /\ getAlive u = true /\ getHotgroup u = Some h.
Proof.
  unfold getUnitsByHotgroup. rewrite list_elem_of_fmap. split.
  - intros ([i u] & -> & [Hp Hin]%list_elem_of_filter). simpl in *.
    apply elem_of_unitEntries in Hin. eauto.
  - intros (u & Hu & Hal & Hh). exists (j, u). split; [done|].
    apply list_elem_of_filter. split; [done|]. by apply elem_of_unitEntries.
Qed.

(** X16. Hotgroups. [addToHotgroup(h)] gives hotgroup [h] to every
    selected unit and leaves the others as they are. [setHotgroup(h)]
    first takes the hotgroup from the alive units that have it, so
    afterwards the units [getUnitsByHotgroup(h)] returns are exactly the
    selected alive ones; a dead unit that had the hotgroup keeps it, and
    the list of units given to [setHotgroup] plays no part. *)
Theorem setHotgroup_result h us m :
  (forall id,
     units (addToHotgroup acc h None m) !! id =
     (fun u => if getSelected u then unitSetHotgroup (Some h) u else u) <$>
       units m !! id) /\
  (forall id,
     units (setHotgroup acc h us m) !! id =
     (fun u => if getSelected u then unitSetHotgroup (Some h) u
               else if getAlive u && bool_decide (getHotgroup u = Some h)
                    then unitSetHotgroup None u else u) <$> units m !! id) /\
  (forall id u',
     (id, u') ∈ getUnitsByHotgroup (setHotgroup acc h us m) h <->
     exists u, units m !! id = Some u /\ getAlive u = true /\ getSelected u = true /\
               u' = unitSetHotgroup (Some h) u).
Proof.
  assert (forall m0 id,
     units (addToHotgroup acc h None m0) !! id =
     (fun u => if getSelected u then unitSetHotgroup (Some h) u else u) <$>
       units m0 !! id) as Hadd.
  { intros m0 id. unfold addToHotgroup.
    destruct (setHotgroupOf_units (Some h) m0 (getSelectedUnits acc None m0).1 id)
      as [-> _].
    destruct (units m0 !! id) as [u|] eqn:Hu.
    - destruct (getSelected u) eqn:Hsel.
      + rewrite decide_True; [simpl; by rewrite Hsel|]. apply selected_ids. eauto.
      + rewrite decide_False; [simpl; by rewrite Hsel|].
        rewrite selected_ids. intros (u0 & ? & ?). congruence.
    - by case_decide. }
  assert (forall id,
     units (setHotgroup acc h us m) !! id =
     (fun u => if getSelected u then unitSetHotgroup (Some h) u
               else if getAlive u && bool_decide (getHotgroup u = Some h)
                    then unitSetHotgroup None u else u) <$> units m !! id) as Hset.
  { intros id. unfold setHotgroup. rewrite Hadd.
    destruct (setHotgroupOf_units None m (getUnitsByHotgroup m h) id) as [-> _].
    destruct (units m !! id) as [u|] eqn:Hu.
    - destruct (decide (id ∈ (getUnitsByHotgroup m h).*1)) as [Hin|Hin].
      + apply hotgroup_ids in Hin as (u0 & Hu0 & Hal & Hh).
        rewrite Hu in Hu0. injection Hu0 as <-. simpl.
        rewrite Hal, bool_decide_true by done. simpl.
        change (getSelected (unitSetHotgroup None u)) with (getSelected u).
        by destruct (getSelected u).
      + simpl. destruct (getSelected u); [done|].
        destruct (getAlive u) eqn:Hal; [|done]. simpl.
        case_bool_decide as Hh; [|done]. exfalso. apply Hin, hotgroup_ids. eauto.
    - by case_decide. }
  split; [apply Hadd|]. split; [apply Hset|].
  intros id u'. unfold getUnitsByHotgroup at 1.
  rewrite list_elem_of_filter, elem_of_unitEntries, Hset. simpl.
  destruct (units m !! id) as [u|]; simpl.
  2:{ split; [by intros (_ & ?)|by intros (? & ? & _)]. }
  split.
  - intros ((Hal & Hh) & [= <-]). exists u.
    destruct (getSelected u) eqn:Hsel.
    + done.
    + exfalso. destruct (getAlive u) eqn:Hal'; simpl in *.
      * case_bool_decide as Hh'; simpl in *; [done|congruence].
      * congruence.
  - intros (u0 & [= <-] & Hal & Hsel & ->). rewrite Hsel. done.
Qed.

End SelectionCommands.

Section Queries.
Import UnitsManager UnitsManagerOps.

Context (acc : Accessors).

Implicit Types (m : Manager) (u : Unit) (e unit : Entry).

Lemma elem_of_omap_imap {A} (f : nat -> A -> option A) (l : list A) y :
  (forall i v, f i v = Some v \/ f i v = None) ->
  y ∈ omap id (imap f l) <-> exists i, l !! i = Some y /\ f i y = Some y.
Proof.
  intros Hf. rewrite list_elem_of_omap. split.
  - intros (o & Ho & Hy). apply elem_of_lookup_imap in Ho as (i & v & -> & Hv).
    simpl in Hy. destruct (Hf i v) as [Hs|Hn]; rewrite ?Hs, ?Hn in Hy; [|done].
    simplify_eq. eauto.
  - intros (i & Hi & Hfi). exists (f i y). split; [|by rewrite Hfi].
    apply elem_of_lookup_imap. eauto.
Qed.

Lemma sublist_omap_imap {A} (f : nat -> A -> option A) (l : list A) :
  (forall i v, f i v = Some v \/ f i v = None) ->
  omap id (imap f l) `sublist_of` l.
Proof.
  revert f. induction l as [|x l IH]; intros f Hf; [done|].
  simpl. destruct (Hf 0%nat x) as [-> | ->]; simpl.
  - apply sublist_skip, IH. intros i v. apply Hf.
  - apply sublist_cons, IH. intros i v. apply Hf.
Qed.

Lemma NoDup_omap_imap {A} (f : nat -> A -> option A) (l : list A) :
  (forall i v, f i v = Some v \/ f i v = None) ->
  (forall i j v, l !! i = Some v -> l !! j = Some v ->
                 f i v = Some v -> f j v = Some v -> i = j) ->
  NoDup (omap id (imap f l)).
Proof.
  revert f. induction l as [|x l IH]; intros f Hf Huniq; [constructor|].
  assert (NoDup (omap id (imap (f ∘ S) l))) as Hrest.
  { apply IH; [intros i v; apply Hf|].
    intros i j v Hi Hj Hfi Hfj. simpl in Hfi, Hfj.
    assert (S i = S j) by (by apply (Huniq (S i) (S j) v)). lia. }
  simpl. destruct (Hf 0%nat x) as [Hx | Hx]; rewrite Hx; simpl; [|done].
  constructor; [|done].
  rewrite elem_of_omap_imap by (intros i v; apply Hf).
  intros (j & Hj & Hfj). simpl in Hfj.
  assert (0%nat = S j) by (by apply (Huniq 0%nat (S j) x)). lia.
Qed.

Lemma indexOf_first `{EqDecision A} (c : A) (l : list A) :
  c ∈ l -> exists i, indexOf c l = Some i /\ l !! i = Some c.
Proof.
  intros Hin. unfold indexOf.
  destruct (list_find_elem_of (fun x => x = c) l c Hin eq_refl) as [[i x] Hfind].
  rewrite Hfind. simpl. exists i. split; [done|].
  apply list_find_Some in Hfind as (Hi & -> & _). done.
Qed.

Lemma getUnitsCategories_spec us :
  NoDup (getUnitsCategories acc us) /\
  (forall c, c ∈ getUnitsCategories acc us <-> c ∈ getCategory acc <$> us) /\
  getUnitsCategories acc us `sublist_of` (getCategory acc <$> us).
Proof.
  unfold getUnitsCategories. destruct us as [|e0 us0]; [simpl|].
  { split; [constructor|]. split; [done|]. done. }
  set (us := e0 :: us0). change (length us =? 0)%nat with false. cbv iota zeta.
  set (array := getCategory acc <$> us).
  set (f := fun (index : nat) (value : string) =>
              if decide (indexOf value array = Some index) then Some value else None).
  assert (forall i v, f i v = Some v \/ f i v = None) as Hf.
  { intros i v. unfold f. case_decide; eauto. }
  split; [|split].
  - apply NoDup_omap_imap; [done|]. intros i j v _ _ Hi Hj. unfold f in Hi, Hj.
    repeat case_decide; congruence.
  - intros c. rewrite elem_of_omap_imap by done. split.
    + intros (i & Hi & _). by eapply list_elem_of_lookup_2.
    + intros Hin. destruct (indexOf_first c array Hin) as (i & Hidx & Hi).
      exists i. split; [done|]. unfold f. by rewrite decide_True.
  - by apply sublist_omap_imap.
Qed.

(** X17. [getUnitsCategories] returns every category of the units given
    once: the result has no duplicate, has exactly the categories that
    occur among the units, and lists them in the order in which they
    occur. *)
Theorem getUnitsCategories_distinct us :
  NoDup (getUnitsCategories acc us) /\
  (forall c, c ∈ getUnitsCategories acc us <-> exists e, e ∈ us /\ getCategory acc e = c) /\
  getUnitsCategories acc us `sublist_of` (getCategory acc <$> us).
Proof.
  destruct (getUnitsCategories_spec us) as (Hnd & Hin & Hsub).
  split; [done|]. split; [|done].
  intros c. rewrite Hin, list_elem_of_fmap. split; intros (e & ? & ?); eauto.
Qed.

Lemma foldl_getUnitsVariable `{EqDecision A} (variableGetter : Entry -> option A)
    (us : list Entry) (value : option A) (v : A) :
  foldl (fun value unit =>
           if decide (variableGetter unit <> value) then None else value) value us = Some v <->
  value = Some v /\ forall e, e ∈ us -> variableGetter e = Some v.
Proof.
  revert value. induction us as [|e us IH]; intros value; simpl.
  - split; [intros ->; split; [done|by intros e ?%elem_of_nil]|by intros [-> _]].
  - rewrite IH. split.
    + intros [Hstep Hall]. case_decide as Hne; [done|]. split; [done|].
      intros x [->|Hx]%elem_of_cons; [congruence|by apply Hall].
    + intros [-> Hall]. split.
      * rewrite decide_False; [done|]. intros Hne. apply Hne, Hall, list_elem_of_here.
      * intros x Hx. apply Hall, elem_of_cons. by right.
Qed.

(** X18. [getUnitsVariable] returns a value exactly when there is at
    least one unit and the getter gives that value for every unit; for
    no units, for units that differ, and for units on which the getter
    gives undefined, it returns undefined. *)
Theorem getUnitsVariable_common_value `{EqDecision A}
    (variableGetter : Entry -> option A) (us : list Entry) (v : A) :
  getUnitsVariable variableGetter us = Some v <->
  us <> [] /\ forall e, e ∈ us -> variableGetter e = Some v.
Proof.
  unfold getUnitsVariable. destruct us as [|e0 us0].
  - split; [done|]. by intros [? _].
  - rewrite foldl_getUnitsVariable. split.
    + intros [_ Hall]. done.
    + intros [_ Hall]. split; [|done]. apply Hall, list_elem_of_here.
Qed.

Lemma foldl_detectedStep unit (cs : list Contact) (l0 : list N) :
  (NoDup l0 -> NoDup (foldl (detectedStep unit) l0 cs)) /\
  forall x, x ∈ foldl (detectedStep unit) l0 cs <->
    x ∈ l0 \/ exists c, c ∈ cs /\ contactID c = unit.1 /\ detectionMethod c = x.
Proof.
  revert l0. induction cs as [|c cs IH]; intros l0; simpl.
  - split; [done|]. intros x. split; [by left|].
    intros [?|(c & ?%elem_of_nil & _)]; done.
  - destruct (IH (detectedStep unit l0 c)) as [Hnd Hin]. split.
    + intros Hn. apply Hnd. unfold detectedStep. case_decide as Hc; [|done].
      destruct Hc as [_ Hnew]. apply NoDup_app. split; [done|].
      split; [|apply NoDup_singleton].
      intros y Hy ->%list_elem_of_singleton. done.
    + intros x. rewrite Hin. unfold detectedStep. split.
      * intros [Hx|(c' & Hc' & Hid & Hm)].
        -- case_decide as Hc.
           ++ apply elem_of_app in Hx as [Hx| ->%list_elem_of_singleton]; [by left|].
              right. exists c. split; [apply list_elem_of_here|]. by destruct Hc.
           ++ by left.
        -- right. exists c'. split; [apply elem_of_cons; by right|done].
      * intros [Hx|(c' & [-> |Hc']%elem_of_cons & Hid & Hm)].
        -- left. case_decide; [apply elem_of_app; by left|done].
        -- left. case_decide as Hc.
           ++ apply elem_of_app. right. by apply list_elem_of_singleton.
           ++ apply not_and_l in Hc as [Hc|Hc]; [done|].
              apply dec_stable in Hc. by rewrite <- Hm.
        -- right. eauto.
Qed.

(** X19. [getUnitDetectedMethods(unit)] returns, without duplicates, the
    methods of the contacts on [unit] that are reported by units that
    are alive, are leaders, are not neutral and are of another coalition
    than [unit]: a unit of the unit's own coalition, a neutral unit, a
    dead unit or a unit that is no leader adds nothing. *)
Theorem getUnitDetectedMethods_sound_complete m unit :
  NoDup (getUnitDetectedMethods acc m unit) /\
  forall x, x ∈ getUnitDetectedMethods acc m unit <->
    exists oid o c,
      units m !! oid = Some o /\ detects acc unit (oid, o) = true /\
      c ∈ getContacts o /\ contactID c = unit.1 /\ detectionMethod c = x.
Proof.
  unfold getUnitDetectedMethods.
  assert (forall (es : list Entry) (l0 : list N),
    let r := foldl (fun detectionMethods other =>
                      if detects acc unit other
                      then foldl (detectedStep unit) detectionMethods (getContacts other.2)
                      else detectionMethods) l0 es in
    (NoDup l0 -> NoDup r) /\
    forall x, x ∈ r <->
      x ∈ l0 \/ exists other c, other ∈ es /\ detects acc unit other = true /\
                 c ∈ getContacts other.2 /\ contactID c = unit.1 /\
                 detectionMethod c = x) as Hgen.
  { induction es as [|other es IH]; intros l0; simpl.
    - split; [done|]. intros x. split; [by left|].
      intros [?|(o & c & ?%elem_of_nil & _)]; done.
    - set (l1 := if detects acc unit other
                 then foldl (detectedStep unit) l0 (getContacts other.2) else l0).
      destruct (IH l1) as [Hnd Hin].
      destruct (foldl_detectedStep unit (getContacts other.2) l0) as [Hnd1 Hin1].
      split.
      + intros Hn. apply Hnd. unfold l1. destruct (detects acc unit other); auto.
      + intros x. rewrite Hin. unfold l1. split.
        * intros [Hx|(o & c & Ho & Hd & Hc & Hid & Hm)].
          -- destruct (detects acc unit other) eqn:Hd; [|by left].
             apply Hin1 in Hx as [Hx|(c & Hc & Hid & Hm)]; [by left|].
             right. exists other, c. split; [apply list_elem_of_here|done].
          -- right. exists o, c. split; [apply elem_of_cons; by right|done].
        * intros [Hx|(o & c & [-> |Ho]%elem_of_cons & Hd & Hc & Hid & Hm)].
          -- left. destruct (detects acc unit other); [|done]. apply Hin1. by left.
          -- left. rewrite Hd. apply Hin1. right. eauto.
          -- right. exists o, c. done. }
  destruct (Hgen (unitEntries m) []) as [Hnd Hin]. split; [apply Hnd; constructor|].
  intros x. rewrite Hin. split.
  - intros [?%elem_of_nil|([oid o] & c & Ho & Hd & Hc & Hid & Hm)]; [done|].
    apply elem_of_unitEntries in Ho. exists oid, o, c. done.
  - intros (oid & o & c & Ho & Hd & Hc & Hid & Hm). right.
    exists (oid, o), c. split; [by apply elem_of_unitEntries|done].
Qed.

End Queries.

Section Commands.
Import UnitsManager UnitsManagerOps.

Context (acc : Accessors).

Implicit Types (m : Manager) (u : Unit) (e unit : Entry) (us : list Entry).

Lemma length_getUnitsCategories_one us :
  length (getUnitsCategories acc us) = 1%nat <->
  us <> [] /\ forall e e', e ∈ us -> e' ∈ us -> getCategory acc e = getCategory acc e'.
Proof.
  destruct (getUnitsCategories_spec acc us) as (Hnd & Hin & _). split.
  - intros Hlen. destruct (getUnitsCategories acc us) as [|c [|c' l]] eqn:E; try done.
    split.
    + intros ->. by cbv in E.
    + assert (forall e, e ∈ us -> getCategory acc e = c) as Hc.
      { intros e He. apply list_elem_of_singleton, Hin, list_elem_of_fmap. eauto. }
      intros e e' He He'. by rewrite (Hc e He), (Hc e' He').
  - intros [Hne Hsame]. destruct us as [|e0 us0]; [done|].
    assert (forall c, c ∈ getUnitsCategories acc (e0 :: us0) -> c = getCategory acc e0)
      as Hc.
    { intros c (e & -> & He)%Hin%list_elem_of_fmap.
      apply Hsame; [done|apply list_elem_of_here]. }
    assert (getCategory acc e0 ∈ getUnitsCategories acc (e0 :: us0)) as H0.
    { apply Hin, list_elem_of_fmap. exists e0. split; [done|apply list_elem_of_here]. }
    destruct (getUnitsCategories acc (e0 :: us0)) as [|a [|b l]]; [|done|].
    + by apply elem_of_nil in H0.
    + exfalso. assert (a = getCategory acc e0) by apply Hc, list_elem_of_here.
      assert (b = getCategory acc e0)
        by (apply Hc, elem_of_cons; right; apply list_elem_of_here).
      subst. apply NoDup_cons in Hnd as [Hnd _]. apply Hnd, list_elem_of_here.
Qed.

(** X20. [createGroup] on a list of units sends the clone command
    exactly when at least one of the units is controllable and all the
    controllable ones have the same category, and then the command
    names the controllable units; when two controllable units differ in
    category, nothing is sent and the popup says that groups take units
    of one category. *)
Theorem createGroup_needs_one_category us m :
  (forall ids,
     (createGroup acc (Some us) m).1 = Some ids <->
     ids = (controllable (segregateUnits acc us)).*1 /\
     controllable (segregateUnits acc us) <> [] /\
     forall e e', e ∈ controllable (segregateUnits acc us) ->
                  e' ∈ controllable (segregateUnits acc us) ->
                  getCategory acc e = getCategory acc e') /\
  ((exists e e', e ∈ controllable (segregateUnits acc us) /\
                 e' ∈ controllable (segregateUnits acc us) /\
                 getCategory acc e <> getCategory acc e') ->
   createGroup acc (Some us) m =
   (None, ["Groups can only be created from units of the same category"])).
Proof.
  unfold createGroup, commandedUnits.
  set (ctl := controllable (segregateUnits acc us)).
  pose proof (length_getUnitsCategories_one ctl) as Hone.
  destruct ctl as [|c cs] eqn:Hctl.
  - simpl. split.
    + intros ids. split; [done|]. by intros (_ & ? & _).
    + intros (e & _ & ?%elem_of_nil & _). done.
  - change (length (c :: cs) =? 0)%nat with false. cbv iota. cbn [option_list app].
    destruct (length (getUnitsCategories acc (c :: cs)) =? 1)%nat eqn:Hlen.
    + apply Nat.eqb_eq, Hone in Hlen as [_ Hsame]. split.
      * intros ids. simpl. split; [by intros [= <-]|by intros (-> & _)].
      * intros (e & e' & He & He' & Hne). exfalso. by apply Hne, Hsame.
    + apply Nat.eqb_neq in Hlen. split.
      * intros ids. simpl. split; [done|]. intros (_ & _ & Hsame).
        exfalso. apply Hlen, Hone. done.
      * done.
Qed.

Lemma foldl_followStep_fixed ID x y z formation us (s : FollowState)
    (calls : list (N * Offset)) :
  (foldl (followStep ID (Some (x, y, z)) formation) (s, calls) us).2 =
  calls ++ imap (fun k e => (e.1, Fixed (x * (count s + Z.of_nat k))
                                        (y * (count s + Z.of_nat k))
                                        (z * (count s + Z.of_nat k))))
                (filter (fun e => e.1 <> ID) us).
Proof.
  revert s calls. induction us as [|e us IH]; intros s calls.
  - simpl. by rewrite app_nil_r.
  - simpl. rewrite filter_cons. unfold followStep at 2.
    destruct (decide (e.1 <> ID)) as [Hne|Heq].
    + simpl. rewrite IH. rewrite <- app_assoc. f_equal. simpl.
      rewrite Z.add_0_r. f_equal. apply imap_ext. intros k e' _. simpl.
      replace (count s + 1 + Z.of_nat k) with (count s + Z.of_nat (S k)) by lia. done.
    + apply IH.
Qed.

Lemma foldl_followStep_none ID formation us (s : FollowState)
    (calls : list (N * Offset)) :
  formation <> Some "diamond" ->
  (foldl (followStep ID None formation) (s, calls) us).2 = calls.
Proof.
  intros Hf. revert s. induction us as [|e us IH]; intros s; [done|].
  simpl. unfold followStep at 2. destruct (decide (e.1 <> ID)); [|apply IH].
  rewrite bool_decide_false by done. apply IH.
Qed.

(** X21. [followUnit] with an offset, given by the caller or by one of
    the formations trail, echelon, line abreast and front: the target
    itself is passed over, and the k-th of the other controllable units
    is told to follow at k times the offset. With no offset and a
    formation that is neither one of these nor diamond, no unit is told
    anything. *)
Theorem followUnit_fixed_offsets ID offset formation us m x y z :
  match offset with Some o => Some o | None => formationOffset formation end =
    Some (x, y, z) ->
  (followUnit acc ID offset formation (Some us) m).1 =
  imap (fun k e => (e.1, Fixed (x * Z.of_nat (S k)) (y * Z.of_nat (S k))
                               (z * Z.of_nat (S k))))
       (filter (fun e => e.1 <> ID) (controllable (segregateUnits acc us))).
Proof.
  intros Hoff. unfold followUnit, commandedUnits.
  destruct (controllable (segregateUnits acc us)) as [|c cs] eqn:Hctl; [done|].
  change (length (c :: cs) =? 0)%nat with false. cbv iota. cbn [fst].
  rewrite Hoff, foldl_followStep_fixed. simpl app. apply imap_ext.
  intros k e _. simpl. by replace (1 + Z.of_nat k) with (Z.of_nat (S k)) by lia.
Qed.

(** X22. [followUnit] with no offset and an unknown formation (none of
    trail, echelon, line abreast, front, diamond) tells no unit
    anything. *)
Theorem followUnit_unknown_formation ID formation us m :
  formationOffset formation = None -> formation <> Some "diamond" ->
  (followUnit acc ID None formation (Some us) m).1 = [].
Proof.
  intros Hoff Hd. unfold followUnit, commandedUnits.
  destruct (controllable (segregateUnits acc us)) as [|c cs] eqn:Hctl; [done|].
  change (length (c :: cs) =? 0)%nat with false. cbv iota. cbn [fst].
  rewrite Hoff. by apply foldl_followStep_none.
Qed.

Lemma nextSlot_invariant (s : FollowState) :
  slotInvariant s ->
  slotInvariant (nextSlot s) /\
  slotRank (xr s) (yr s) < slotRank (xr (nextSlot s)) (yr (nextSlot s)).
Proof.
  unfold slotInvariant, slotRank, nextSlot.
  intros (Hl & Hx & Hy & Hedge & Hz).
  destruct (yr s =? 0) eqn:E0; [|destruct (xr s <? layer s) eqn:E1]; simpl.
  - apply Z.eqb_eq in E0. split; [lia|].
    assert (xr s = layer s) as Hxl by lia.
    rewrite E0, Hxl. rewrite !Z.max_l by lia. rewrite Z.max_r by lia. nia.
  - apply Z.eqb_neq in E0. apply Z.ltb_lt in E1. split; [lia|].
    assert (yr s = layer s) as Hyl by lia. rewrite Hyl.
    rewrite !Z.max_r by lia. lia.
  - apply Z.eqb_neq in E0. apply Z.ltb_ge in E1. split; [lia|].
    assert (xr s = layer s) as Hxl by lia. rewrite Hxl.
    rewrite !Z.max_l by lia. lia.
Qed.

Lemma foldl_followStep_diamond ID us (s : FollowState) (calls : list (N * Offset)) :
  slotInvariant s ->
  NoDup calls.*2 ->
  (forall c, c ∈ calls ->
     exists a b d, c.2 = DiamondSlot a b d /\ 0 <= a /\ 0 <= b /\ (0 < a \/ 0 < b) /\
                   d = - (a + b) /\ slotRank a b < slotRank (xr s) (yr s)) ->
  let r := (foldl (followStep ID None (Some "diamond")) (s, calls) us).2 in
  r.*1 = calls.*1 ++ (filter (fun e => e.1 <> ID) us).*1 /\
  NoDup r.*2 /\
  forall c, c ∈ r ->
    exists a b d, c.2 = DiamondSlot a b d /\ 0 <= a /\ 0 <= b /\ (0 < a \/ 0 < b) /\
                  d = - (a + b).
Proof.
  revert s calls. induction us as [|e us IH]; intros s calls Hinv Hnd Hcalls; simpl.
  - rewrite app_nil_r. split; [done|]. split; [done|].
    intros c Hc. destruct (Hcalls c Hc) as (a & b & d & ? & ? & ? & ? & ? & _). eauto 10.
  - rewrite filter_cons.
    assert (followStep ID None (Some "diamond") (s, calls) e =
            if decide (e.1 <> ID)
            then (countUp (nextSlot s),
                  calls ++ [(e.1, DiamondSlot (xr s) (yr s) (zr s))])
            else (s, calls)) as ->.
    { unfold followStep. case_decide; [|done]. by rewrite bool_decide_true. }
    destruct (decide (e.1 <> ID)) as [Hne|Heq]; [|by apply IH].
    destruct (nextSlot_invariant s Hinv) as [Hinv' Hrank].
    destruct (IH (countUp (nextSlot s))
                 (calls ++ [(e.1, DiamondSlot (xr s) (yr s) (zr s))])) as (H1 & H2 & H3).
    + exact Hinv'.
    + rewrite fmap_app. simpl. apply NoDup_app. split; [done|].
      split; [|apply NoDup_singleton].
      intros o Ho ->%list_elem_of_singleton.
      apply list_elem_of_fmap in Ho as (c & Hc2 & Hc).
      destruct (Hcalls c Hc) as (a & b & d & Hs & _ & _ & _ & _ & Hlt).
      rewrite <- Hc2 in Hs. injection Hs as <- <- <-. lia.
    + unfold slotInvariant in Hinv. destruct Hinv as (Hl & Hx & Hy & Hedge & Hz).
      intros c [Hc| ->%list_elem_of_singleton]%elem_of_app.
      * destruct (Hcalls c Hc) as (a & b & d & ? & ? & ? & ? & ? & Hlt).
        exists a, b, d. do 5 (split; [done|]). simpl. lia.
      * exists (xr s), (yr s), (zr s). simpl. do 1 (split; [done|]).
        split; [lia|]. split; [lia|]. split; [lia|]. split; [done|]. exact Hrank.
    + split; [|done]. rewrite H1, fmap_app, <- app_assoc. done.
Qed.

(** X23. [followUnit] in the diamond formation: the target is passed
    over, every other controllable unit is told to follow, in order,
    and no two of them get the same slot of the diamond. A slot (xr,
    yr, zr) has xr and yr not negative and not both zero, so no follower
    is put on the leader, and zr = -(xr + yr). *)
Theorem followUnit_diamond_slots ID us m :
  ((followUnit acc ID None (Some "diamond") (Some us) m).1).*1 =
    (filter (fun e => e.1 <> ID) (controllable (segregateUnits acc us))).*1 /\
  NoDup ((followUnit acc ID None (Some "diamond") (Some us) m).1).*2 /\
  forall c, c ∈ (followUnit acc ID None (Some "diamond") (Some us) m).1 ->
    exists a b d, c.2 = DiamondSlot a b d /\ 0 <= a /\ 0 <= b /\ (0 < a \/ 0 < b) /\
                  d = - (a + b).
Proof.
  unfold followUnit, commandedUnits.
  destruct (controllable (segregateUnits acc us)) as [|c0 cs] eqn:Hctl.
  - simpl. split; [done|]. split; [constructor|]. by intros c ?%elem_of_nil.
  - change (length (c0 :: cs) =? 0)%nat with false. cbv iota. cbn [fst].
    change (formationOffset (Some "diamond")) with (@None (Z * Z * Z)).
    apply (foldl_followStep_diamond ID (c0 :: cs)
             {| count := 1; xr := 0; yr := 1; zr := -1; layer := 1 |} []).
    + unfold slotInvariant. simpl. lia.
    + constructor.
    + by intros c ?%elem_of_nil.
Qed.

End Commands.

Section Spawning.
Import UnitsManager UnitsManagerOps.

Context (ctx : Context) (sc : SpawnContext).

Lemma spawnPointsOf_sum db (unitTypes : list string) :
  spawnPointsOf sc db unitTypes =
  foldr Z.add 0 (getSpawnPointsByName sc db <$> unitTypes).
Proof.
  unfold spawnPointsOf.
  assert (forall z, foldl (fun points unitType => points + getSpawnPointsByName sc db unitType)
                          z unitTypes =
                    z + foldr Z.add 0 (getSpawnPointsByName sc db <$> unitTypes)) as H.
  { induction unitTypes as [|t ts IH]; intros z; [simpl; lia|].
    rewrite fmap_cons. cbn [foldl foldr]. rewrite IH. lia. }
  by rewrite H.
Qed.

Lemma spawnOutcome_refused category unitTypes text :
  spawnOutcome sc category unitTypes (refused text).
Proof. split; [intros _; simpl; eauto|done]. Qed.

Lemma spawnOutcome_finish category unitTypes cls :
  Unit.getConstructor category = Some cls ->
  spawnOutcome sc category unitTypes
    (finishSpawn sc (Some (cls, spawnPointsOf sc cls unitTypes))).
Proof.
  intros Hc. unfold finishSpawn. simpl.
  destruct (spawnPointsOf sc cls unitTypes <=? availableSpawnPoints sc) eqn:Ele.
  - apply Z.leb_le in Ele. split; [done|]. intros _. simpl. split; [done|].
    eexists. split; [done|]. split; [done|]. right. exists cls.
    split; [done|]. split; [done|]. apply spawnPointsOf_sum.
  - apply spawnOutcome_refused.
Qed.

Lemma spawnOutcome_finish_none category unitTypes :
  spawnOutcome sc category unitTypes (finishSpawn sc None).
Proof.
  unfold finishSpawn. simpl.
  destruct (0 <=? availableSpawnPoints sc) eqn:Ele.
  - apply Z.leb_le in Ele. split; [done|]. intros _. simpl. split; [done|].
    exists 0. split; [done|]. split; [done|]. by left.
  - apply spawnOutcome_refused.
Qed.

Lemma returned_finishSpawn spawn :
  returned (finishSpawn sc spawn) =
  bool_decide (from_option snd 0 spawn <= availableSpawnPoints sc).
Proof.
  unfold finishSpawn. cbv zeta.
  destruct (from_option snd 0 spawn <=? availableSpawnPoints sc) eqn:Ele.
  - apply Z.leb_le in Ele. by rewrite bool_decide_true.
  - apply Z.leb_gt in Ele. by rewrite bool_decide_false by lia.
Qed.

(** X24. [spawnUnits] sends a server command only when it returns true,
    and then for a category it knows, with the sum of the spawn points
    of the units, which is within the points available and is the
    amount it marks as spent; when it returns false it has sent and
    spent nothing and has set a popup text. For a category that is none
    of Aircraft, Helicopter, GroundUnit and NavyUnit it sends nothing,
    and still returns true, marking 0 points as spent, unless the
    available points are negative. Aircraft and helicopters spawned at
    an airbase are not held back by the spawn restriction. *)
Theorem spawnUnits_result category unitTypes airbase :
  let r := spawnUnits ctx sc category unitTypes airbase in
  (returned r = false ->
   spent r = None /\ command r = None /\ is_Some (popup r)) /\
  (returned r = true ->
   popup r = None /\
   exists points, spent r = Some points /\ points <= availableSpawnPoints sc /\
     (command r = None /\ points = 0 \/
      exists cls, command r = Some (cls, points) /\
                  Unit.getConstructor category = Some cls /\
                  points = foldr Z.add 0 (getSpawnPointsByName sc cls <$> unitTypes))) /\
  (category <> "Aircraft" -> category <> "Helicopter" ->
   category <> "GroundUnit" -> category <> "NavyUnit" ->
   command r = None /\
   returned r = bool_decide (0 <= availableSpawnPoints sc)) /\
  (airbase <> EmptyString -> category = "Aircraft" \/ category = "Helicopter" ->
   returned r =
   bool_decide (foldr Z.add 0
                  (getSpawnPointsByName sc
                     (if String.eqb category "Aircraft" then Unit.Aircraft
                      else Unit.Helicopter) <$> unitTypes)
                <= availableSpawnPoints sc)).
Proof.
  cbv zeta.
  assert (spawnOutcome sc category unitTypes (spawnUnits ctx sc category unitTypes airbase))
    as [H1 H2].
  { unfold spawnUnits.
    destruct (String.eqb category "Aircraft") eqn:EA.
    { apply String.eqb_eq in EA as ->.
      case_match; [apply spawnOutcome_refused|by apply spawnOutcome_finish]. }
    destruct (String.eqb category "Helicopter") eqn:EH.
    { apply String.eqb_eq in EH as ->.
      case_match; [apply spawnOutcome_refused|by apply spawnOutcome_finish]. }
    destruct (String.eqb category "GroundUnit") eqn:EG.
    { apply String.eqb_eq in EG as ->.
      case_match; [apply spawnOutcome_refused|by apply spawnOutcome_finish]. }
    destruct (String.eqb category "NavyUnit") eqn:EN.
    { apply String.eqb_eq in EN as ->.
      case_match; [apply spawnOutcome_refused|by apply spawnOutcome_finish]. }
    apply spawnOutcome_finish_none. }
  split; [exact H1|]. split; [exact H2|]. split.
  - intros HA HH HG HN. unfold spawnUnits.
    apply String.eqb_neq in HA, HH, HG, HN. rewrite HA, HH, HG, HN.
    split; [|by rewrite returned_finishSpawn].
    unfold finishSpawn. simpl. by case_match.
  - intros Hair%String.eqb_neq [-> | ->]; unfold spawnUnits; simpl; rewrite Hair; simpl;
      by rewrite returned_finishSpawn, spawnPointsOf_sum.
Qed.

End Spawning.

Section UpdateInvariants.
Import UnitsManager UnitsManagerOps.

Context (ctx : Context).

Implicit Types (m : Manager) (a : App) (u : Unit) (id : N) (g : string).

(** X25. [update] never removes a unit from the table and never takes a
    unit out of a group, however the call ends (the buffer read to the
    end, the early return, or an exception in the decode loop or in the
    group loop). *)
Theorem update_never_removes a buf m :
  (forall id, is_Some (units m !! id) ->
     is_Some (units (manager (update ctx a buf m)) !! id)) /\
  (forall g id, memberOf m g id -> memberOf (manager (update ctx a buf m)) g id).
Proof.
  destruct (update_loop_end ctx a buf m) as [[_ ->]|(t & e & r & Ht & Hr)]; [done|].
  destruct (update_shape ctx a buf m t e r Ht Hr)
    as (m2 & (_ & Hu2 & Hkeep & _) & Hunits & Hmem).
  destruct (decodeLoop_decodedFrom _ _ _ _ _ Hr) as (Hgs & Hold & _).
  split.
  - intros id [u Hu]. destruct (Hold _ _ Hu) as (u1 & Hu1 & _).
    destruct (Hunits id) as [l ->].
    destruct (Hu2 id) as [E|E]; rewrite E, Hu1; simpl; eauto.
  - intros g id Hm. apply Hmem, Hkeep. unfold memberOf in *. by rewrite Hgs.
Qed.

Lemma decodedFrom_consistent m m' :
  decodedFrom m m' -> groupsConsistent m -> groupsConsistent m'.
Proof.
  intros (Hgs & Hold & Hnew) Hc id g.
  assert (memberOf m' g id <-> memberOf m g id) as -> by (unfold memberOf; by rewrite Hgs).
  rewrite (Hc id g). split.
  - intros (u & Hu & Hg). destruct (Hold _ _ Hu) as (u' & Hu' & Hg' & _).
    exists u'. split; [done|]. unfold getGroup in *. congruence.
  - intros (u' & Hu' & Hg'). destruct (units m !! id) as [u|] eqn:Hu.
    + destruct (Hold _ _ Hu) as (u1 & Hu1 & Hg1 & _). simplify_eq.
      exists u. split; [done|]. unfold getGroup in *. congruence.
    + destruct (Hnew _ _ Hu' Hu) as [Hnone _]. unfold getGroup in *. congruence.
Qed.

Lemma groupStep_consistent m id m' :
  groupStep m id = Grouped m' -> groupsConsistent m -> groupsConsistent m'.
Proof.
  intros Hstep Hc.
  destruct (groupStep_spec m id) as [[_ E]|(_ & m1 & E & Hu & _ & Hm & _)];
    [congruence|].
  assert (m1 = m') as -> by congruence.
  intros x g. rewrite Hm, Hu, (Hc x g). unfold joins.
  destruct (decide (x = id)) as [->|Hne].
  - rewrite lookup_alter_eq. split.
    + intros [(u & Hux & Hg)|[_ (u & Hux & Hn & Hne & Hnone)]]; rewrite Hux; simpl;
        eexists; (split; [done|]); rewrite assigned_group.
      * by rewrite Hg.
      * rewrite Hnone. apply String.eqb_neq in Hne. rewrite Hn, Hne. done.
    + intros (u' & Hu' & Hg'). destruct (units m !! id) as [u|] eqn:Hux; [|done].
      simpl in Hu'. simplify_eq. rewrite assigned_group in Hg'.
      destruct (getGroup u) as [g0|] eqn:Hg0.
      * left. exists u. split; [done|]. congruence.
      * right. split; [done|]. exists u. split; [done|].
        destruct (String.eqb (getGroupName u) EmptyString) eqn:En; [done|].
        apply String.eqb_neq in En. simplify_eq. done.
  - rewrite lookup_alter_ne by done. split; [|by left].
    intros [?|[? _]]; done.
Qed.

Lemma groupLoop_consistent ids m :
  groupsConsistent m -> groupsConsistent (groupManager (groupLoop m ids)).
Proof.
  revert m. induction ids as [|id ids IH]; intros m Hc; [done|].
  simpl. destruct (groupStep m id) as [m1|m1] eqn:Hstep.
  - apply IH. by apply (groupStep_consistent m id).
  - destruct (groupStep_spec m id) as [[_ E]|(_ & m2 & E & _)]; [|congruence].
    rewrite Hstep in E. by injection E as ->.
Qed.

Lemma assignGroups_consistent m :
  groupsConsistent m -> groupsConsistent (groupManager (assignGroups m)).
Proof. apply groupLoop_consistent. Qed.

Lemma deriveDetection_consistent a m :
  groupsConsistent m -> groupsConsistent (deriveDetection ctx a m).1.
Proof.
  intros Hc id g. rewrite deriveDetection_memberOf, (Hc id g).
  destruct (deriveDetection_units ctx a m id) as [l ->].
  destruct (units m !! id) as [u|]; simpl.
  - split; intros (u' & [= <-] & Hg); eexists; (split; [done|]); exact Hg.
  - split; intros (u' & ? & _); done.
Qed.

Lemma update_consistent a buf m :
  groupsConsistent m -> groupsConsistent (manager (update ctx a buf m)).
Proof.
  intros Hc.
  destruct (update_loop_end ctx a buf m) as [[_ ->]|(t & e & r & Ht & Hr)]; [done|].
  rewrite (update_result ctx a buf m t e r Ht Hr).
  pose proof (decodedFrom_consistent _ _ (decodeLoop_decodedFrom _ _ _ _ _ Hr) Hc) as Hr'.
  destruct r as [m1|m1|m1]; simpl in *; [done|done|].
  pose proof (assignGroups_consistent m1 Hr') as Hg.
  destruct (assignGroups m1) as [m2|m2]; simpl in *; [|done].
  by apply deriveDetection_consistent.
Qed.

Lemma updateAll_consistent bufs a m :
  groupsConsistent m -> groupsConsistent (updateAll ctx bufs (m, a)).1.
Proof.
  revert a m. induction bufs as [|buf bufs IH]; intros a m Hc; [done|].
  simpl. apply IH. by apply update_consistent.
Qed.

Lemma emptyManager_consistent : groupsConsistent emptyManager.
Proof.
  intros id g. split.
  - intros (G & HG & _). done.
  - intros (u & Hu & _). done.
Qed.

(** X26. Groups and units agree after any number of updates of a manager
    that started empty, however each call ended: a unit is a member of a
    group exactly when that group is the unit's group. So every member
    of a group is a unit of the table, and no unit is a member of two
    groups. *)
Theorem groups_agree_with_units bufs a :
  groupsConsistent (updateAll ctx bufs (emptyManager, a)).1 /\
  (forall g id, memberOf (updateAll ctx bufs (emptyManager, a)).1 g id ->
     is_Some (units (updateAll ctx bufs (emptyManager, a)).1 !! id)) /\
  (forall g1 g2 id,
     memberOf (updateAll ctx bufs (emptyManager, a)).1 g1 id ->
     memberOf (updateAll ctx bufs (emptyManager, a)).1 g2 id -> g1 = g2).
Proof.
  pose proof (updateAll_consistent bufs a emptyManager emptyManager_consistent) as Hc.
  split; [exact Hc|]. split.
  - intros g id (u & Hu & _)%Hc. eauto.
  - intros g1 g2 id (u1 & Hu1 & Hg1)%Hc (u2 & Hu2 & Hg2)%Hc. congruence.
Qed.

Lemma collectDetectionMethods_weapon a m id :
  is_Some (weapons a !! id) ->
  exists l, collectDetectionMethods a m !! id = Some l /\ NoDup l /\
            forall x, x ∈ l <-> detectedBy a m id x.
Proof.
  intros Hin. unfold collectDetectionMethods.
  set (dm0 := emptyLists _ _).
  assert (dm0 !! id = Some []) as H0.
  { subst dm0. rewrite emptyLists_lookup. rewrite decide_True; [done|].
    by apply elem_of_keysAscending. }
  destruct (foldl_recordObserver_lookup a m (keysAscending (units m)) dm0 id [] H0)
    as (l & Hl & Hnd & Hx).
  exists l. split; [done|]. split; [apply Hnd, NoDup_nil_2|].
  intros y. rewrite Hx. unfold detectedBy. split.
  - intros [?%elem_of_nil|(oid & _ & ?)]; [done|eauto].
  - intros (oid & Ho). right. exists oid. split; [|done].
    destruct Ho as (o & c & Hu & _). apply elem_of_keysAscending. eauto.
Qed.

(** X27. Weapons are detected like units. When [update] has read the
    whole buffer and the group loop has not thrown, the dirty flag is
    set and the command mode is not GAME_MASTER, every weapon of the
    weapons manager is given, each once, the methods of the contacts on
    its ID reported by the units that are alive and of the commanded
    coalition; no weapon is added or removed. When the guard is closed,
    or the call ends early, or the group loop throws, the weapons are
    left as they are. *)
Theorem weapons_detection_derived a buf m t e r :
  DataExtractor.extractUInt64 (DataExtractor.new buf) = Some (t, e) ->
  decodeLoop ctx (S (length buf)) m e = Some r ->
  (forall m1, r = Finished m1 -> ~ groupLoopThrows m1 ->
     requestDetectionUpdate m1 = true -> commandMode a <> GAME_MASTER ctx ->
     dom (weapons (app (update ctx a buf m))) = dom (weapons a) /\
     forall id l, weapons (app (update ctx a buf m)) !! id = Some l ->
       NoDup l /\ forall x, x ∈ l <-> detectedBy a m1 id x) /\
  ((forall m1, r <> Finished m1) \/
   (exists m1, r = Finished m1 /\ groupLoopThrows m1) \/
   requestDetectionUpdate (endManager r) = false \/
   commandMode a = GAME_MASTER ctx ->
   app (update ctx a buf m) = a).
Proof.
  intros Ht Hr. split.
  - intros m1 -> Hok Hreq Hmode.
    destruct (update_grouped ctx a buf m t e m1 Ht Hr Hok) as (m2 & -> & Hreq2 & Hu2 & _).
    simpl.
    assert (detectionGate ctx a m2 = true) as Hg.
    { apply detectionGate_true. by rewrite Hreq2. }
    unfold deriveDetection. rewrite Hg. simpl.
    assert (forall id l,
      map_imap (fun id (_ : list N) =>
                  Some (default [] (collectDetectionMethods a m2 !! id)))
               (weapons a) !! id = Some l ->
      is_Some (weapons a !! id) /\
      collectDetectionMethods a m2 !! id = Some l) as Hw.
    { intros id l. rewrite map_lookup_imap.
      destruct (weapons a !! id) as [l0|] eqn:Hl0; [|done]. simpl.
      destruct (collectDetectionMethods_weapon a m2 id) as (l' & Hl' & _);
        [eauto|].
      rewrite Hl'. simpl. intros [= <-]. eauto. }
    split.
    + apply set_eq. intros id. rewrite !elem_of_dom, map_lookup_imap.
      destruct (weapons a !! id) as [l0|]; simpl; [|by split; intros [? ?]].
      split; eauto.
    + intros id l Hl. apply Hw in Hl as [Hin Hl].
      destruct (collectDetectionMethods_weapon a m2 id Hin)
        as (l' & Hl' & Hnd & Hx).
      simplify_eq. split; [done|]. intros x. rewrite Hx.
      apply detectedBy_fields. intros j. exists assigned.
      split; [apply Hu2|apply assigned_fields].
  - intros Hclosed. rewrite (update_result ctx a buf m t e r Ht Hr).
    destruct r as [m1|m1|m1]; [done|done|].
    destruct (assignGroups_spec m1)
      as [(_ & m2 & -> & _)|(Hok & m2 & -> & (Hreq2 & _) & _)]; [done|].
    simpl. rewrite deriveDetection_closed; [done|].
    apply not_true_is_false. rewrite detectionGate_true, Hreq2.
    intros [Hreq Hmode].
    destruct Hclosed as [Hne|[(m0 & ? & Hthr)|[Hf|Hgm]]];
      [by destruct (Hne m1)|by simplify_eq|simpl in Hf; congruence|done].
Qed.

(** X28. [addUnit] puts a new unit object under the ID when the category
    names one of the six unit classes, replacing whatever unit was
    there, and does nothing for any other category (the empty one
    included); the units under other IDs and the groups are left alone.
    [getUnitByID] then finds the new unit, and gives null for an ID the
    table does not have. *)
Theorem addUnit_getUnitByID id cat m :
  getUnitByID (addUnit ctx id cat m) id =
    match Unit.getConstructor cat with
    | Some cls => Some {| fields := newUnit ctx cls id; group := None;
                          detectionMethods := [] |}
    | None => getUnitByID m id
    end /\
  (forall j, j <> id -> getUnitByID (addUnit ctx id cat m) j = getUnitByID m j) /\
  groups (addUnit ctx id cat m) = groups m /\
  (is_Some (Unit.getConstructor cat) <->
   cat ∈ ["GroundUnit"; "Aircraft"; "Helicopter"; "Missile"; "Bomb"; "NavyUnit"]) /\
  (forall j, j ∉ dom (units m) -> getUnitByID m j = None).
Proof.
  assert (is_Some (Unit.getConstructor cat) <->
          cat ∈ ["GroundUnit"; "Aircraft"; "Helicopter"; "Missile"; "Bomb"; "NavyUnit"])
    as Hcat.
  { unfold Unit.getConstructor. rewrite !elem_of_cons, elem_of_nil.
    repeat (match goal with
            | |- context [String.eqb cat ?s] =>
                let E := fresh "E" in
                destruct (String.eqb cat s) eqn:E;
                [apply String.eqb_eq in E; split; [tauto|eauto]
                |apply String.eqb_neq in E]
            end).
    split; [by intros [? ?]|]. intuition congruence. }
  unfold addUnit, getUnitByID.
  destruct (String.eqb cat EmptyString) eqn:Eempty; simpl.
  - apply String.eqb_eq in Eempty as ->.
    split; [done|]. split; [done|]. split; [done|]. split; [exact Hcat|].
    intros j Hj. by apply not_elem_of_dom.
  - destruct (Unit.getConstructor cat) as [cls|]; simpl.
    + split; [by rewrite lookup_insert_eq|].
      split; [intros j Hne; by rewrite lookup_insert_ne|].
      split; [done|]. split; [exact Hcat|]. intros j Hj. by apply not_elem_of_dom.
    + split; [done|]. split; [done|]. split; [done|]. split; [exact Hcat|].
      intros j Hj. by apply not_elem_of_dom.
Qed.

End UpdateInvariants.

(** * Properties of the manager's instances *)

Section Ports.
Import DCSInstance.

Context (checkPort : Z -> bool).

Implicit Types (instances : list Instance) (this : nat) (port : Z).

Lemma some_false {A} (callback : nat -> A -> bool) (array : list A) :
  some callback array = false <->
  forall i x, array !! i = Some x -> callback i x = false.
Proof.
  unfold some. split.
  - intros Hs i x Hi. destruct (callback i x) eqn:E; [|done].
    assert (existsb (fun p : nat * A => callback p.1 p.2) (imap pair array) = true)
      as Ht; [|congruence].
    apply existsb_exists. exists (i, x). split; [|done].
    apply list_elem_of_In, elem_of_lookup_imap. eauto.
  - intros Hall. apply not_true_is_false. intros Ht.
    apply existsb_exists in Ht as ([i x] & Hin & Hc).
    apply list_elem_of_In, elem_of_lookup_imap in Hin as (i' & x' & [= -> ->] & Hi).
    simpl in Hc. rewrite (Hall _ _ Hi) in Hc. done.
Qed.

Lemma checkClientPort_true instances this port :
  checkClientPort checkPort instances this port = true <->
  checkPort port = true /\
  forall i a, instances !! i = Some a ->
    backendPort a <> port /\
    (i <> this -> installed a = true -> clientPort a <> port).
Proof.
  unfold checkClientPort. destruct (checkPort port); [|by split; [|intros [? _]]].
  rewrite negb_true_iff, some_false. unfold clashesWithClientPort. split.
  - intros Hall. split; [done|]. intros i a Hi. specialize (Hall i a Hi).
    destruct (Nat.eqb_spec i this) as [->|Hne]; simpl in Hall.
    + apply Z.eqb_neq in Hall. done.
    + destruct (installed a); simpl in Hall.
      * apply orb_false_iff in Hall as [H1%Z.eqb_neq H2%Z.eqb_neq]. done.
      * apply Z.eqb_neq in Hall. done.
  - intros [_ Hall] i a Hi. destruct (Hall i a Hi) as [Hb Hc].
    apply Z.eqb_neq in Hb.
    destruct (Nat.eqb_spec i this) as [->|Hne]; simpl; [done|].
    destruct (installed a); simpl; [|done].
    rewrite Hb, orb_false_r. apply Z.eqb_neq. auto.
Qed.

Lemma checkBackendPort_true instances this port :
  checkBackendPort checkPort instances this port = true <->
  checkPort port = true /\
  forall i a, instances !! i = Some a ->
    clientPort a <> port /\
    (i <> this -> installed a = true -> backendPort a <> port).
Proof.
  unfold checkBackendPort. destruct (checkPort port); [|by split; [|intros [? _]]].
  rewrite negb_true_iff, some_false. unfold clashesWithBackendPort. split.
  - intros Hall. split; [done|]. intros i a Hi. specialize (Hall i a Hi).
    destruct (Nat.eqb_spec i this) as [->|Hne]; simpl in Hall.
    + apply Z.eqb_neq in Hall. done.
    + destruct (installed a); simpl in Hall.
      * apply orb_false_iff in Hall as [H1%Z.eqb_neq H2%Z.eqb_neq]. done.
      * apply Z.eqb_neq in Hall. done.
  - intros [_ Hall] i a Hi. destruct (Hall i a Hi) as [Hc Hb].
    apply Z.eqb_neq in Hc.
    destruct (Nat.eqb_spec i this) as [->|Hne]; simpl; [done|].
    destruct (installed a); simpl; [|done].
    rewrite Hc. simpl. apply Z.eqb_neq. auto.
Qed.

(** X29. Setting a port keeps the ports apart. If no instance has one
    port for client and backend and no two installed instances share a
    port, the same holds after [setClientPort] and after
    [setBackendPort], whether the call sets the port or refuses it; a
    call that returns false changes nothing, and one that returns true
    has found the port free and stored it. *)
Theorem set_port_keeps_ports_apart instances this newPort :
  portsApart instances ->
  (this < length instances)%nat ->
  (portsApart (setClientPort checkPort instances this newPort).2 /\
   ((setClientPort checkPort instances this newPort).1 = false ->
    (setClientPort checkPort instances this newPort).2 = instances) /\
   ((setClientPort checkPort instances this newPort).1 = true ->
    checkPort newPort = true /\
    clientPort <$> (setClientPort checkPort instances this newPort).2 !! this =
      Some newPort)) /\
  (portsApart (setBackendPort checkPort instances this newPort).2 /\
   ((setBackendPort checkPort instances this newPort).1 = false ->
    (setBackendPort checkPort instances this newPort).2 = instances) /\
   ((setBackendPort checkPort instances this newPort).1 = true ->
    checkPort newPort = true /\
    backendPort <$> (setBackendPort checkPort instances this newPort).2 !! this =
      Some newPort)).
Proof.
  intros [Hself Hpair] Hthis.
  destruct (lookup_lt_is_Some_2 instances this Hthis) as [me Hme].
  split.
  - unfold setClientPort.
    destruct (checkClientPort checkPort instances this newPort) eqn:Hcheck; simpl.
    2:{ split; [by split|]. split; [done|]. done. }
    apply checkClientPort_true in Hcheck as [Hfree Hall].
    split; [|split; [done|]].
    2:{ intros _. split; [done|]. by rewrite list_lookup_alter_eq, Hme. }
    split.
    + intros i a. destruct (decide (i = this)) as [->|Hne].
      * rewrite list_lookup_alter_eq, Hme. simpl. intros [= <-]. simpl.
        destruct (Hall this me Hme) as [Hb _]. congruence.
      * rewrite list_lookup_alter_ne by done. apply Hself.
    + intros i j a b Hij.
      destruct (decide (i = this)) as [->|Hi]; destruct (decide (j = this)) as [->|Hj];
        try done.
      * rewrite list_lookup_alter_eq, Hme, list_lookup_alter_ne by done. simpl.
        intros [= <-] Hb Hia Hib. simpl in *.
        destruct (Hall j b Hb) as [Hbb Hbc]. specialize (Hbc Hj Hib).
        destruct (Hpair this j me b Hij Hme Hb Hia Hib) as (_ & _ & ? & ?).
        repeat split; congruence.
      * rewrite list_lookup_alter_ne, list_lookup_alter_eq, Hme by done. simpl.
        intros Ha [= <-] Hia Hib. simpl in *.
        destruct (Hall i a Ha) as [Hab Hac]. specialize (Hac Hi Hia).
        destruct (Hpair i this a me Hij Ha Hme Hia Hib) as (_ & ? & _ & ?).
        repeat split; congruence.
      * rewrite !list_lookup_alter_ne by done. by apply Hpair.
  - unfold setBackendPort.
    destruct (checkBackendPort checkPort instances this newPort) eqn:Hcheck; simpl.
    2:{ split; [by split|]. split; [done|]. done. }
    apply checkBackendPort_true in Hcheck as [Hfree Hall].
    split; [|split; [done|]].
    2:{ intros _. split; [done|]. by rewrite list_lookup_alter_eq, Hme. }
    split.
    + intros i a. destruct (decide (i = this)) as [->|Hne].
      * rewrite list_lookup_alter_eq, Hme. simpl. intros [= <-]. simpl.
        destruct (Hall this me Hme) as [Hc _]. congruence.
      * rewrite list_lookup_alter_ne by done. apply Hself.
    + intros i j a b Hij.
      destruct (decide (i = this)) as [->|Hi]; destruct (decide (j = this)) as [->|Hj];
        try done.
      * rewrite list_lookup_alter_eq, Hme, list_lookup_alter_ne by done. simpl.
        intros [= <-] Hb Hia Hib. simpl in *.
        destruct (Hall j b Hb) as [Hbc Hbb]. specialize (Hbb Hj Hib).
        destruct (Hpair this j me b Hij Hme Hb Hia Hib) as (? & ? & _ & _).
        repeat split; congruence.
      * rewrite list_lookup_alter_ne, list_lookup_alter_eq, Hme by done. simpl.
        intros Ha [= <-] Hia Hib. simpl in *.
        destruct (Hall i a Ha) as [Hac Hab]. specialize (Hab Hi Hia).
        destruct (Hpair i this a me Hij Ha Hme Hia Hib) as (? & _ & ? & _).
        repeat split; congruence.
      * rewrite !list_lookup_alter_ne by done. by apply Hpair.
Qed.

End Ports.

(** * The further theorems at concrete inputs *)

Section MoreInstances.
Import UnitsManager UnitsManagerOps Sample Buffers ManagerExamples.

(** X13 at the manager [fourUnits]: of the selected units 1, 2 and 3,
    unit 2 is dropped as the second of group A, and unit 3, which
    Olympus controls, comes after unit 1. *)
Lemma command_without_units_goes_to_selection_witness :
  excludeHumans commandOptions = true /\
  excludeProtected commandOptions = true /\
  (commandedUnits accessors commandOptions None fourUnits =
   (if decide ((getSelectedUnits accessors (Some commandOptions) fourUnits).1 = [])
    then None
    else Some (filter (fun e => isControlledByOlympus accessors e = false)
                      (getSelectedUnits accessors (Some commandOptions) fourUnits).1 ++
               filter (fun e => isControlledByOlympus accessors e = true)
                      (getSelectedUnits accessors (Some commandOptions) fourUnits).1),
    option_list (getSelectedUnits accessors (Some commandOptions) fourUnits).2) /\
   ((getSelectedUnits accessors (Some commandOptions) fourUnits).1 <> [] ->
    (getSelectedUnits accessors (Some commandOptions) fourUnits).2 = None)) /\
  (from_option (fmap fst) [] (commandedUnits accessors commandOptions None fourUnits).1 =
   [1%N; 3%N]).
Proof.
  split; [reflexivity|]. split; [reflexivity|]. split.
  - exact (command_without_units_goes_to_selection accessors commandOptions fourUnits
             eq_refl eq_refl).
  - vm_compute. reflexivity.
Defined.

(** X21 in the trail formation: units 1 and 3 follow unit 2 at one and
    two times the offset (-50, -30, 0). *)
Lemma followUnit_fixed_offsets_witness :
  match @None (Z * Z * Z) with
  | Some o => Some o
  | None => formationOffset (Some "trail")
  end = Some (-50, -30, 0) /\
  (followUnit accessors 2 None (Some "trail") (Some (unitEntries fourUnits)) fourUnits).1 =
    imap (fun k e => (e.1, Fixed (-50 * Z.of_nat (S k)) (-30 * Z.of_nat (S k))
                                 (0 * Z.of_nat (S k))))
         (filter (fun e => e.1 <> 2%N)
                 (controllable (segregateUnits accessors (unitEntries fourUnits)))) /\
  (followUnit accessors 2 None (Some "trail") (Some (unitEntries fourUnits)) fourUnits).1 =
    [(1%N, Fixed (-50) (-30) 0); (3%N, Fixed (-100) (-60) 0)].
Proof.
  assert (match @None (Z * Z * Z) with
          | Some o => Some o
          | None => formationOffset (Some "trail")
          end = Some (-50, -30, 0)) as Hoff by (vm_compute; reflexivity).
  split; [exact Hoff|]. split.
  - exact (followUnit_fixed_offsets accessors 2 None (Some "trail")
             (unitEntries fourUnits) fourUnits (-50) (-30) 0 Hoff).
  - vm_compute. reflexivity.
Defined.

(** X22 at a formation the method does not know. *)
Lemma followUnit_unknown_formation_witness :
  formationOffset (Some "wedge") = None /\
  Some "wedge" <> Some "diamond" /\
  (followUnit accessors 2 None (Some "wedge") (Some (unitEntries fourUnits)) fourUnits).1
    = [].
Proof.
  assert (formationOffset (Some "wedge") = None) as Hoff by (vm_compute; reflexivity).
  assert (Some "wedge" <> Some "diamond") as Hd by (intros [=]).
  split; [exact Hoff|]. split; [exact Hd|].
  exact (followUnit_unknown_formation accessors 2 (Some "wedge")
           (unitEntries fourUnits) fourUnits Hoff Hd).
Defined.

(** X27 at the buffer [contactsOnTwo] under a blue commander whose
    weapons manager holds a weapon with ID 2: the group loop does not
    throw, unit 1 reports two contacts on ID 2 with method 7, and the
    weapon is given method 7, once. *)
Lemma weapons_detection_derived_witness :
  DataExtractor.extractUInt64 (DataExtractor.new contactsOnTwo)
    = Some (100%N, at_ contactsOnTwo 8) /\
  decodeLoop context (S (length contactsOnTwo)) emptyManager (at_ contactsOnTwo 8)
    = Some (Finished (decoded contactsOnTwo)) /\
  ~ groupLoopThrows (decoded contactsOnTwo) /\
  requestDetectionUpdate (decoded contactsOnTwo) = true /\
  commandMode blueCommanderWithWeapon <> GAME_MASTER context /\
  (dom (weapons (app (update context blueCommanderWithWeapon contactsOnTwo emptyManager)))
     = dom (weapons blueCommanderWithWeapon) /\
   forall id l,
     weapons (app (update context blueCommanderWithWeapon contactsOnTwo emptyManager))
       !! id = Some l ->
     NoDup l /\
     forall x, x ∈ l <-> detectedBy blueCommanderWithWeapon (decoded contactsOnTwo) id x) /\
  weapons (app (update context blueCommanderWithWeapon contactsOnTwo emptyManager)) !! 2%N
    = Some [7%N].
Proof.
  assert (requestDetectionUpdate (decoded contactsOnTwo) = true) as Hflag
    by (vm_compute; reflexivity).
  assert (commandMode blueCommanderWithWeapon <> GAME_MASTER context) as Hmode
    by (by vm_compute).
  split; [exact timestamp_contactsOnTwo|]. split; [exact decodeLoop_contactsOnTwo|].
  split; [exact groupLoop_contactsOnTwo|].
  split; [exact Hflag|]. split; [exact Hmode|]. split.
  - exact (proj1 (weapons_detection_derived context blueCommanderWithWeapon contactsOnTwo
                    emptyManager _ _ _ timestamp_contactsOnTwo decodeLoop_contactsOnTwo)
             _ eq_refl groupLoop_contactsOnTwo Hflag Hmode).
  - vm_compute. reflexivity.
Defined.

End MoreInstances.

Section PortInstances.
Import DCSInstance InstanceExamples.

Lemma portsApart_twoInstances : portsApart twoInstances.
Proof.
  split.
  - intros [|[|i]] a; simpl; intros [= <-]; done.
  - intros [|[|i]] [|[|j]] a b Hij; simpl; intros [= <-] [= <-] _ _; done.
Qed.

(** X29 at two installed instances on ports 3000/3001 and 3002/3003:
    the first may take 3004 for its client, and may not take 3003, the
    backend port of the second. *)
Lemma set_port_keeps_ports_apart_witness :
  portsApart twoInstances /\ (0 < length twoInstances)%nat /\
  ((portsApart (setClientPort allFree twoInstances 0 3004).2 /\
    ((setClientPort allFree twoInstances 0 3004).1 = false ->
     (setClientPort allFree twoInstances 0 3004).2 = twoInstances) /\
    ((setClientPort allFree twoInstances 0 3004).1 = true ->
     allFree 3004 = true /\
     clientPort <$> (setClientPort allFree twoInstances 0 3004).2 !! 0%nat = Some 3004)) /\
   (portsApart (setBackendPort allFree twoInstances 0 3004).2 /\
    ((setBackendPort allFree twoInstances 0 3004).1 = false ->
     (setBackendPort allFree twoInstances 0 3004).2 = twoInstances) /\
    ((setBackendPort allFree twoInstances 0 3004).1 = true ->
     allFree 3004 = true /\
     backendPort <$> (setBackendPort allFree twoInstances 0 3004).2 !! 0%nat =
       Some 3004))) /\
  (setClientPort allFree twoInstances 0 3004).1 = true /\
  (setClientPort allFree twoInstances 0 3003).1 = false.
Proof.
  assert (0 < length twoInstances)%nat as Hlen by (simpl; lia).
  split; [exact portsApart_twoInstances|]. split; [exact Hlen|]. split.
  - exact (set_port_keeps_ports_apart allFree twoInstances 0 3004
             portsApart_twoInstances Hlen).
  - split; vm_compute; reflexivity.
Defined.

End PortInstances.
